(** * react-native-vbump: version arithmetic, manifest mutators and project
    detection, embedded from the JavaScript sources.

    Conventions of the embedding:
    - text is [string], holding the UTF-8 encoding of the JavaScript string:
      an ASCII character is one byte, and the white space that [\s] and
      [parseInt] recognise outside ASCII takes two or three bytes; [\d] is
      ASCII in JavaScript as well;
    - a JavaScript number is a double. The sources only produce numbers
      through [parseInt], [+ 1] and [++], so every number they hold is an
      integer, an infinity or [NaN]; [Int z] is the double whose value is the
      integer [z], arithmetic rounds to the nearest double as IEEE 754
      does, and [-0] is not told apart from [0] (nothing in the sources
      does);
    - paths are absolute and normalised, held as the list of their
      components, outermost first;
    - exceptions are values of [exn] carrying the [Error] message;
    - [chalk] only adds colour codes when the output is a terminal; console
      lines are given without them. *)

From stdpp Require Import base option list strings gmap.
From Stdlib Require Import ZArith Lia Ascii String.

Set Warnings "-register-all".

Local Open Scope string_scope.
Local Open Scope Z_scope.

(** ** Text helpers *)

Module Text.

Definition is_digit (c : ascii) : bool :=
  let n := Z.of_N (N_of_ascii c) in (48 <=? n) && (n <=? 57).

(** The white space of ECMAScript, which is what [\s] matches and what
    [parseInt] skips. In ASCII: tab, line feed, vertical tab, form feed,
    carriage return and space. *)
Definition is_ascii_space (c : ascii) : bool :=
  let n := Z.of_N (N_of_ascii c) in ((9 <=? n) && (n <=? 13)) || (n =? 32).

(** U+00A0 (no-break space), two bytes in UTF-8. *)
Definition is_space2 (a b : ascii) : bool :=
  (Z.of_N (N_of_ascii a) =? 194) && (Z.of_N (N_of_ascii b) =? 160).

(** The white space that takes three bytes: U+1680, U+2000 to U+200A,
    U+2028, U+2029, U+202F, U+205F, U+3000 and U+FEFF. *)
Definition is_space3 (a b c : ascii) : bool :=
  let x := Z.of_N (N_of_ascii a) in
  let y := Z.of_N (N_of_ascii b) in
  let z := Z.of_N (N_of_ascii c) in
  ((x =? 225) && (y =? 154) && (z =? 128))
  || ((x =? 226) && (y =? 128)
      && (((128 <=? z) && (z <=? 138)) || (z =? 168) || (z =? 169)
          || (z =? 175)))
  || ((x =? 226) && (y =? 129) && (z =? 159))
  || ((x =? 227) && (y =? 128) && (z =? 128))
  || ((x =? 239) && (y =? 187) && (z =? 191)).

(** One white-space character at the head of [s]: its bytes, and the rest
    of [s]. *)
Definition white_space (s : string) : option (string * string) :=
  match s with
  | String a r1 =>
      if is_ascii_space a then Some (String a EmptyString, r1)
      else
        match r1 with
        | String b r2 =>
            if is_space2 a b then Some (String a (String b EmptyString), r2)
            else
              match r2 with
              | String c r3 =>
                  if is_space3 a b c
                  then Some (String a (String b (String c EmptyString)), r3)
                  else None
              | EmptyString => None
              end
        | EmptyString => None
        end
  | EmptyString => None
  end.

Definition digit_val (c : ascii) : Z := Z.of_N (N_of_ascii c) - 48.

Definition digit_char (d : Z) : ascii := ascii_of_N (Z.to_N (48 + d)).

(** Longest prefix whose characters all satisfy [p], and what follows it. *)
Fixpoint span (p : ascii -> bool) (s : string) : string * string :=
  match s with
  | EmptyString => (EmptyString, EmptyString)
  | String c r =>
      if p c then let '(a, b) := span p r in (String c a, b)
      else (EmptyString, s)
  end.

(** Longest run of white-space characters at the head of [s], and what
    follows it. *)
Fixpoint span_space (s : string) : string * string :=
  match s with
  | String a r1 =>
      if is_ascii_space a then
        let '(w, r) := span_space r1 in (String a w, r)
      else
        match r1 with
        | String b r2 =>
            if is_space2 a b then
              let '(w, r) := span_space r2 in (String a (String b w), r)
            else
              match r2 with
              | String c r3 =>
                  if is_space3 a b c then
                    let '(w, r) := span_space r3 in
                    (String a (String b (String c w)), r)
                  else (EmptyString, s)
              | EmptyString => (EmptyString, s)
              end
        | EmptyString => (EmptyString, s)
        end
  | EmptyString => (EmptyString, EmptyString)
  end.

Fixpoint all_chars (p : ascii -> bool) (s : string) : bool :=
  match s with
  | EmptyString => true
  | String c r => p c && all_chars p r
  end.

(** [strip_prefix lit s] is the rest of [s] after the literal [lit]. *)
Fixpoint strip_prefix (lit s : string) : option string :=
  match lit with
  | EmptyString => Some s
  | String c lit' =>
      match s with
      | String d s' => if Ascii.eqb c d then strip_prefix lit' s' else None
      | EmptyString => None
      end
  end.

(** Value of a run of decimal digits, most significant first. *)
Fixpoint digits_value (acc : Z) (s : string) : Z :=
  match s with
  | EmptyString => acc
  | String c r => digits_value (10 * acc + digit_val c) r
  end.

Fixpoint digits_of_aux (fuel : nat) (n : Z) (acc : string) : string :=
  match fuel with
  | O => acc
  | S f =>
      let acc' := String (digit_char (n mod 10)) acc in
      if n <? 10 then acc' else digits_of_aux f (n / 10) acc'
  end.

(** Canonical decimal numeral of a non-negative integer. *)
Definition digits_of (n : Z) : string :=
  digits_of_aux (S (Z.to_nat (Z.log2 n))) n EmptyString.

Definition starts_with_digit (s : string) : bool :=
  match s with
  | String c _ => is_digit c
  | EmptyString => false
  end.

Fixpoint join (sep : string) (l : list string) : string :=
  match l with
  | [] => EmptyString
  | [x] => x
  | x :: r => x ++ sep ++ join sep r
  end.

End Text.

(** ** JavaScript values *)

Module JS.
Import Text.

(** A number of the sources: the double of integer value [z], an infinity,
    or [NaN]. *)
Inductive num := Int (z : Z) | Inf (negative : bool) | NaN.

(** Round a non-negative integer to the nearest double, ties to the even
    significand: below [2^53] every integer is a double; above, a double has
    a significand [q] of 53 bits and an exponent [e], and its value is
    [q * 2^e]. [None] is the overflow to infinity, from [2^1024]. *)
Definition round_magnitude (m : Z) : option Z :=
  if m <? 9007199254740992 then Some m
  else
    let e := Z.log2 m - 52 in
    let q := m / 2 ^ e in
    let r := m mod 2 ^ e in
    let q' :=
      if (2 ^ e <? 2 * r) || ((2 * r =? 2 ^ e) && Z.odd q) then q + 1
      else q in
    if q' * 2 ^ e <? 2 ^ 1024 then Some (q' * 2 ^ e) else None.

(** The Number value for the integer [z]. *)
Definition of_Z (z : Z) : num :=
  match round_magnitude (Z.abs z) with
  | Some m => Int (if z <? 0 then - m else m)
  | None => Inf (z <? 0)
  end.

Inductive value :=
| VUndefined
| VNull
| VBool (b : bool)
| VNum (n : num)
| VStr (s : string)
| VArr (items : list value)
| VObj (fields : list (string * value)).

(** ToBoolean *)
Definition truthy (v : value) : bool :=
  match v with
  | VUndefined | VNull => false
  | VBool b => b
  | VNum (Int z) => negb (z =? 0)
  | VNum (Inf _) => true
  | VNum NaN => false
  | VStr s => negb (String.eqb s EmptyString)
  | VArr _ | VObj _ => true
  end.

(** Whether the integer [c] reads back as the double [z]. *)
Definition rounds_to (c z : Z) : bool :=
  match of_Z c with
  | Int z' => z' =? z
  | _ => false
  end.

(** The integer with the fewest significant digits that reads back as the
    double [z > 0], the nearest to [z] when there are two: the two
    multiples of [scale] around [z] are tried for [scale] a power of ten,
    from the largest down ([fuel] is its exponent). *)
Fixpoint shortest_from (fuel : nat) (scale z : Z) : Z :=
  match fuel with
  | O => z
  | S f =>
      let lo := z / scale * scale in
      let hi := lo + scale in
      if rounds_to lo z && (negb (rounds_to hi z) || (z - lo <=? hi - z))
      then lo
      else if rounds_to hi z then hi
      else shortest_from f (scale / 10) z
  end.

Definition shortest (z : Z) : Z :=
  let d := String.length (digits_of z) in
  shortest_from (d - 1) (10 ^ Z.of_nat (d - 1)) z.

Fixpoint drop_trailing_zeros (s : string) : string :=
  match s with
  | EmptyString => EmptyString
  | String c r =>
      match drop_trailing_zeros r with
      | EmptyString =>
          if Ascii.eqb c "0" then EmptyString else String c EmptyString
      | r' => String c r'
      end
  end.

(** Exponent notation of the integer whose numeral is [ds]:
    [d.ddd] followed by [e+] and the exponent. *)
Definition exponential (ds : string) : string :=
  let e := digits_of (Z.of_nat (String.length ds) - 1) in
  match drop_trailing_zeros ds with
  | String h EmptyString => String h ("e+" ++ e)
  | String h t => String h ("." ++ t ++ "e+" ++ e)
  | EmptyString => ds
  end.

(** Number::toString of a non-negative integer double: the digits of
    [shortest], in full below [10^21] and in exponent notation from there. *)
Definition magnitude_to_string (z : Z) : string :=
  let c := shortest z in
  if c <? 1000000000000000000000 then digits_of c
  else exponential (digits_of c).

(** Number::toString *)
Definition num_to_string (n : num) : string :=
  match n with
  | NaN => "NaN"
  | Inf false => "Infinity"
  | Inf true => "-Infinity"
  | Int z =>
      if z <? 0 then "-" ++ magnitude_to_string (- z)
      else magnitude_to_string z
  end.

(** ToString; an array joins its elements with commas, [null] and
    [undefined] elements giving the empty string. *)
Fixpoint to_string (v : value) : string :=
  match v with
  | VUndefined => "undefined"
  | VNull => "null"
  | VBool true => "true"
  | VBool false => "false"
  | VNum n => num_to_string n
  | VStr s => s
  | VArr items =>
      join ","
        (List.map (fun x => match x with
                            | VUndefined | VNull => EmptyString
                            | _ => to_string x
                            end) items)
  | VObj _ => "[object Object]"
  end.

(** [n + 1] and [n++] *)
Definition num_succ (n : num) : num :=
  match n with
  | Int z => of_Z (z + 1)
  | Inf s => Inf s
  | NaN => NaN
  end.

Definition hex_val (c : ascii) : option Z :=
  let n := Z.of_N (N_of_ascii c) in
  if (48 <=? n) && (n <=? 57) then Some (n - 48)
  else if (65 <=? n) && (n <=? 70) then Some (n - 55)
  else if (97 <=? n) && (n <=? 102) then Some (n - 87)
  else None.

Fixpoint hex_value (acc : Z) (s : string) : Z :=
  match s with
  | EmptyString => acc
  | String c r =>
      match hex_val c with
      | Some d => hex_value (16 * acc + d) r
      | None => acc
      end
  end.

Definition parse_unsigned (s : string) : num :=
  let hex r :=
    let '(run, _) := span (fun c => match hex_val c with Some _ => true | None => false end)
                          r in
    match run with
    | EmptyString => NaN
    | _ => of_Z (hex_value 0 run)
    end in
  let dec :=
    let '(run, _) := span is_digit s in
    match run with
    | EmptyString => NaN
    | _ => of_Z (digits_value 0 run)
    end in
  match s with
  | String c0 (String c1 r) =>
      if Ascii.eqb c0 "0" && (Ascii.eqb c1 "x" || Ascii.eqb c1 "X")
      then hex r else dec
  | _ => dec
  end.

Definition num_neg (n : num) : num :=
  match n with
  | Int z => Int (- z)
  | Inf s => Inf (negb s)
  | NaN => NaN
  end.

(** [parseInt(s)] with no radix: leading white space is dropped, a sign is
    read, a [0x] prefix selects base sixteen, and the longest run of digits
    is the value, rounded to a double; [NaN] when there is none. *)
Definition parseInt_string (s : string) : num :=
  let '(_, t) := span_space s in
  match t with
  | String c r =>
      if Ascii.eqb c "-" then num_neg (parse_unsigned r)
      else if Ascii.eqb c "+" then parse_unsigned r
      else parse_unsigned t
  | EmptyString => parse_unsigned t
  end.

Definition parseInt (v : value) : num := parseInt_string (to_string v).

End JS.

(** ** src/utils/version.js *)

Module Version.
Import Text JS.

Record SemanticVersion := { major : num; minor : num; patch : num }.

Definition exn := string.

(** [versionString.match(/^(\d+)\.(\d+)\.(\d+)$/)] : the three captured
    groups. *)
Definition match_version (s : string) : option (string * string * string) :=
  let '(a, r1) := span is_digit s in
  match a, r1 with
  | String _ _, String "." r1' =>
      let '(b, r2) := span is_digit r1' in
      match b, r2 with
      | String _ _, String "." r2' =>
          let '(c, r3) := span is_digit r2' in
          match c, r3 with
          | String _ _, EmptyString => Some (a, b, c)
          | _, _ => None
          end
      | _, _ => None
      end
  | _, _ => None
  end.

Definition parseSemanticVersion (versionString : string) : exn + SemanticVersion :=
  match match_version versionString with
  | None => inl ("Invalid version format: " ++ versionString)
  | Some (a, b, c) =>
      inr {| major := parseInt_string a;
             minor := parseInt_string b;
             patch := parseInt_string c |}
  end.

Definition incrementSemanticVersion (version type : string) : exn + string :=
  match parseSemanticVersion version with
  | inl e => inl e
  | inr parsed =>
      let render p :=
        num_to_string (major p) ++ "." ++ num_to_string (minor p) ++ "."
          ++ num_to_string (patch p) in
      if String.eqb type "major" then
        inr (render {| major := num_succ (major parsed);
                       minor := Int 0; patch := Int 0 |})
      else if String.eqb type "minor" then
        inr (render {| major := major parsed;
                       minor := num_succ (minor parsed); patch := Int 0 |})
      else if String.eqb type "patch" then
        inr (render {| major := major parsed; minor := minor parsed;
                       patch := num_succ (patch parsed) |})
      else inl ("Invalid increment type: " ++ type)
  end.

(** [userValue && userValue !== true] *)
Definition is_explicit (userValue : value) : bool :=
  truthy userValue &&
  match userValue with VBool true => false | _ => true end.

Definition calculateNewSemanticVersion (userValue : value)
    (currentValue incrementType : string) : exn + value :=
  if is_explicit userValue then inr userValue
  else match incrementSemanticVersion currentValue incrementType with
       | inl e => inl e
       | inr s => inr (VStr s)
       end.

Definition calculateNewBuildNumber (userValue currentValue : value) : num :=
  if is_explicit userValue then parseInt userValue
  else num_succ (parseInt currentValue).

End Version.

(** ** Regular expressions of the sources

    Every pattern in the sources is a sequence of literals and of
    one-or-more repetitions of a character class, where each repetition is
    followed by a character outside its class (or ends the pattern). On such
    patterns greedy matching never has to backtrack, so the matcher below
    takes the longest run at each repetition.

    The class [\d] and the negated classes are matched byte by byte: [\d]
    is ASCII, and a negated class takes every byte of a longer character,
    none of which is the ASCII character it excludes. [\s] takes whole
    white-space characters. *)

Module Regex.
Import Text.

Inductive cclass :=
| Digit                (* \d *)
| Not (c : ascii).     (* [^c] *)

Definition in_class (k : cclass) (c : ascii) : bool :=
  match k with
  | Digit => is_digit c
  | Not x => negb (Ascii.eqb c x)
  end.

Inductive atom :=
| Lit (s : string)     (* the literal text s *)
| Plus (k : cclass)    (* k+ *)
| Group (k : cclass)   (* (k+), captured *)
| Spaces.              (* \s+ *)

Definition regex := list atom.

(** Match the pattern at the start of [s]: the matched text, the captured
    groups in order, and the rest of [s]. *)
Fixpoint match_here (re : regex) (s : string)
  : option (string * list string * string) :=
  match re with
  | [] => Some (EmptyString, [], s)
  | Lit l :: re' =>
      match strip_prefix l s with
      | None => None
      | Some r =>
          match match_here re' r with
          | None => None
          | Some (m, caps, rest) => Some (l ++ m, caps, rest)
          end
      end
  | Plus k :: re' =>
      let '(run, r) := span (in_class k) s in
      match run with
      | EmptyString => None
      | _ =>
          match match_here re' r with
          | None => None
          | Some (m, caps, rest) => Some (run ++ m, caps, rest)
          end
      end
  | Group k :: re' =>
      let '(run, r) := span (in_class k) s in
      match run with
      | EmptyString => None
      | _ =>
          match match_here re' r with
          | None => None
          | Some (m, caps, rest) => Some (run ++ m, run :: caps, rest)
          end
      end
  | Spaces :: re' =>
      let '(run, r) := span_space s in
      match run with
      | EmptyString => None
      | _ =>
          match match_here re' r with
          | None => None
          | Some (m, caps, rest) => Some (run ++ m, caps, rest)
          end
      end
  end.

(** One result of RegExp exec: the text in front of the match (counted from
    where the search started), the matched text, the captures, and the text
    after the match. *)
Record match_result := {
  before : string;
  matched : string;
  captures : list string;
  after : string
}.

(** Leftmost match in [s]. *)
Fixpoint exec (re : regex) (s : string) : option match_result :=
  match match_here re s with
  | Some (m, caps, rest) =>
      Some {| before := EmptyString; matched := m; captures := caps;
              after := rest |}
  | None =>
      match s with
      | EmptyString => None
      | String c s' =>
          match exec re s' with
          | None => None
          | Some r =>
              Some {| before := String c (before r); matched := matched r;
                      captures := captures r; after := after r |}
          end
      end
  end.

(** The loop of a global ([/g]) pattern: exec again from the end of the last
    match, until no match is left. Each result's [before] is the text since
    the previous match; the second component is the unmatched tail. The
    global patterns of the sources start with a literal and so never match
    the empty string; an empty match ends the loop here. *)
Fixpoint exec_all_fuel (fuel : nat) (re : regex) (s : string)
  : list match_result * string :=
  match fuel with
  | O => ([], s)
  | S f =>
      match exec re s with
      | None => ([], s)
      | Some r =>
          match matched r with
          | EmptyString => ([], s)
          | _ =>
              let '(rs, tail) := exec_all_fuel f re (after r) in
              (r :: rs, tail)
          end
      end
  end.

Definition exec_all (re : regex) (s : string) : list match_result * string :=
  exec_all_fuel (S (String.length s)) re s.

(** [s.match(re)] without [/g]: the capture groups of the leftmost match
    ([match[1]], [match[2]], ...). *)
Definition str_match (re : regex) (s : string) : option (list string) :=
  match exec re s with
  | None => None
  | Some r => Some (captures r)
  end.

(** [s.match(re)] with [/g]: all matched texts, or [null] when there is
    none. *)
Definition str_match_g (re : regex) (s : string) : option (list string) :=
  match fst (exec_all re s) with
  | [] => None
  | rs => Some (List.map matched rs)
  end.

Definition nth_capture (caps : list string) (n : nat) : option string :=
  match n with
  | O => None
  | S i => caps !! i
  end.

Definition digit_nat (c : ascii) : nat := Z.to_nat (digit_val c).

(** GetSubstitution: expand the [$] patterns of a replacement string.
    [position] is the text of the subject in front of the match and [tail]
    the text after it; [$n] and [$nn] name a capture group when the pattern
    has that many, and are literal text otherwise. *)
Fixpoint expand (repl position m tail : string) (caps : list string)
  : string :=
  match repl with
  | EmptyString => EmptyString
  | String c r =>
      if negb (Ascii.eqb c "$") then String c (expand r position m tail caps)
      else
        match r with
        | EmptyString => String c EmptyString
        | String d1 r' =>
            if Ascii.eqb d1 "$" then String "$" (expand r' position m tail caps)
            else if Ascii.eqb d1 "&" then m ++ expand r' position m tail caps
            else if Ascii.eqb d1 "`" then
              position ++ expand r' position m tail caps
            else if Ascii.eqb d1 "'" then
              tail ++ expand r' position m tail caps
            else if is_digit d1 then
              let single :=
                match nth_capture caps (digit_nat d1) with
                | Some g => g ++ expand r' position m tail caps
                | None => String c (expand r position m tail caps)
                end in
              match r' with
              | String d2 r'' =>
                  if is_digit d2 then
                    match nth_capture caps
                            (10 * digit_nat d1 + digit_nat d2)%nat with
                    | Some g => g ++ expand r'' position m tail caps
                    | None => single
                    end
                  else single
              | EmptyString => single
              end
            else String c (expand r position m tail caps)
        end
  end.

(** [s.replace(re, repl)] without [/g]: only the leftmost match is
    replaced. *)
Definition str_replace (re : regex) (repl s : string) : string :=
  match exec re s with
  | None => s
  | Some r =>
      before r
        ++ expand repl (before r) (matched r) (after r) (captures r)
        ++ after r
  end.

(** Text of a global replacement, [pre] being the text of the subject that
    precedes the results still to be written. *)
Fixpoint rebuild (repl pre : string) (rs : list match_result)
    (tail : string) : string :=
  match rs with
  | [] => tail
  | r :: rs' =>
      before r
        ++ expand repl (pre ++ before r) (matched r) (after r) (captures r)
        ++ rebuild repl (pre ++ before r ++ matched r) rs' tail
  end.

(** [s.replace(re, repl)] with [/g]: every match is replaced. *)
Definition str_replace_g (re : regex) (repl s : string) : string :=
  let '(rs, tail) := exec_all re s in
  rebuild repl EmptyString rs tail.

Definition dquote : ascii := ascii_of_nat 34.
Definition quoted (s : string) : string :=
  String dquote (s ++ String dquote EmptyString).

(** The field patterns of android.js and ios.js; the [_cap] variants carry
    the capture group used to read the current value. *)
Definition re_versionCode : regex :=
  [Lit "versionCode"; Spaces; Plus Digit].
Definition re_versionCode_cap : regex :=
  [Lit "versionCode"; Spaces; Group Digit].
Definition re_versionName : regex :=
  [Lit "versionName"; Spaces; Lit (String dquote EmptyString);
   Plus (Not dquote); Lit (String dquote EmptyString)].
Definition re_versionName_cap : regex :=
  [Lit "versionName"; Spaces; Lit (String dquote EmptyString);
   Group (Not dquote); Lit (String dquote EmptyString)].
Definition re_currentProjectVersion : regex :=
  [Lit "CURRENT_PROJECT_VERSION = "; Plus Digit; Lit ";"].
Definition re_currentProjectVersion_cap : regex :=
  [Lit "CURRENT_PROJECT_VERSION = "; Group Digit; Lit ";"].
Definition re_marketingVersion : regex :=
  [Lit "MARKETING_VERSION = "; Plus (Not ";"); Lit ";"].
Definition re_marketingVersion_cap : regex :=
  [Lit "MARKETING_VERSION = "; Group (Not ";"); Lit ";"].
Definition re_digits : regex := [Group Digit].

End Regex.

(** ** Objects, JSON text and paths *)

Module Obj.
Import Text JS.

Definition fields := list (string * value).

Fixpoint lookup_field (k : string) (fs : fields) : option value :=
  match fs with
  | [] => None
  | (k', v) :: r => if String.eqb k k' then Some v else lookup_field k r
  end.

(** A canonical array index: the decimal numeral of an integer below
    [2^32 - 1]. Such property names come first, in ascending order, when an
    object's own keys are listed. *)
Definition index_key (k : string) : option Z :=
  if all_chars is_digit k && negb (String.eqb k EmptyString)
     && String.eqb (digits_of (digits_value 0 k)) k
     && (digits_value 0 k <? 4294967295)
  then Some (digits_value 0 k) else None.

Fixpoint replace_field (k : string) (v : value) (fs : fields) : fields :=
  match fs with
  | [] => []
  | (k', v') :: r =>
      if String.eqb k k' then (k', v) :: r else (k', v') :: replace_field k v r
  end.

Fixpoint insert_index (i : Z) (k : string) (v : value) (fs : fields)
  : fields :=
  match fs with
  | [] => [(k, v)]
  | (k', v') :: r =>
      match index_key k' with
      | Some j => if j <? i then (k', v') :: insert_index i k v r
                  else (k, v) :: fs
      | None => (k, v) :: fs
      end
  end.

(** [obj[k] = v] on the own properties of an ordinary object, kept in the
    order in which the keys are enumerated. *)
Definition set_field (k : string) (v : value) (fs : fields) : fields :=
  match lookup_field k fs with
  | Some _ => replace_field k v fs
  | None =>
      match index_key k with
      | Some i => insert_index i k v fs
      | None => (fs ++ [(k, v)])%list
      end
  end.

(** Property read [v.k] for a key that no prototype defines: a type error on
    [null] and [undefined], the own property of an object, [undefined]
    elsewhere. *)
Definition get_prop (v : value) (k : string) : string + value :=
  match v with
  | VUndefined =>
      inl ("Cannot read properties of undefined (reading '" ++ k ++ "')")
  | VNull => inl ("Cannot read properties of null (reading '" ++ k ++ "')")
  | VObj fs => inr (default VUndefined (lookup_field k fs))
  | _ => inr VUndefined
  end.

Fixpoint index_fields (i : Z) (items : list value) : fields :=
  match items with
  | [] => []
  | x :: r => (num_to_string (Int i), x) :: index_fields (i + 1) r
  end.

(** A byte that continues a character of several bytes. *)
Definition is_continuation (c : ascii) : bool :=
  let n := Z.of_N (N_of_ascii c) in (128 <=? n) && (n <=? 191).

(** The characters of a string, each a string of its own: what indexing a
    string gives. A continuation byte stays with the byte in front of it.
    (A character beyond U+FFFF, which JavaScript holds as two surrogate
    halves, is kept whole.) *)
Fixpoint chars_of (s : string) : list value :=
  match s with
  | EmptyString => []
  | String c r =>
      let rest := chars_of r in
      match r with
      | String d _ =>
          if is_continuation d then
            match rest with
            | VStr x :: rest' => VStr (String c x) :: rest'
            | _ => VStr (String c EmptyString) :: rest
            end
          else VStr (String c EmptyString) :: rest
      | EmptyString => VStr (String c EmptyString) :: rest
      end
  end.

(** Own enumerable properties copied by object spread [{...v}]. *)
Definition spread_fields (v : value) : fields :=
  match v with
  | VObj fs => fs
  | VArr items => index_fields 0 items
  | VStr s => index_fields 0 (chars_of s)
  | _ => []
  end.

(** [{...a, ...b}] *)
Definition spread2 (a b : value) : fields :=
  fold_left (fun acc kv => set_field kv.1 kv.2 acc)
    (spread_fields a ++ spread_fields b)%list [].

(** Names every ordinary object inherits from [Object.prototype]; the [in]
    operator sees them. *)
Definition object_prototype_keys : list string :=
  ["constructor"; "__defineGetter__"; "__defineSetter__"; "hasOwnProperty";
   "__lookupGetter__"; "__lookupSetter__"; "isPrototypeOf";
   "propertyIsEnumerable"; "toString"; "valueOf"; "__proto__";
   "toLocaleString"].

Definition key_in (k : string) (fs : fields) : bool :=
  match lookup_field k fs with Some _ => true | None => false end
  || existsb (String.eqb k) object_prototype_keys.

End Obj.

Module Json.
Import Text JS Regex.

Definition nl : string := String (ascii_of_nat 10) EmptyString.

Definition hex_digit (n : Z) : ascii :=
  if n <? 10 then ascii_of_N (Z.to_N (48 + n)) else ascii_of_N (Z.to_N (87 + n)).

Definition escape_char (c : ascii) : string :=
  let n := Z.of_N (N_of_ascii c) in
  let bs := String "\" in
  if n =? 34 then bs (String dquote EmptyString)
  else if n =? 92 then bs (bs EmptyString)
  else if n =? 8 then bs "b"
  else if n =? 12 then bs "f"
  else if n =? 10 then bs "n"
  else if n =? 13 then bs "r"
  else if n =? 9 then bs "t"
  else if n <? 32 then
    bs ("u00" ++ String (hex_digit (n / 16)) (String (hex_digit (n mod 16)) EmptyString))
  else String c EmptyString.

Fixpoint escape (s : string) : string :=
  match s with
  | EmptyString => EmptyString
  | String c r => escape_char c ++ escape r
  end.

(** QuoteJSONString *)
Definition quote (s : string) : string := quoted (escape s).

(** [JSON.stringify(v, null, 2)] below the current indentation [ind];
    [None] is the [undefined] that [JSON.stringify] gives for [undefined]. A
    property whose value is [undefined] is left out, an [undefined] array
    element is written [null]. *)
Fixpoint serialize (ind : string) (v : value) : option string :=
  let ind' := ind ++ "  " in
  let wrap (op cl : string) (parts : list string) : string :=
    match parts with
    | [] => op ++ cl
    | _ => op ++ nl ++ ind' ++ join ("," ++ nl ++ ind') parts ++ nl ++ ind ++ cl
    end in
  match v with
  | VUndefined => None
  | VNull => Some "null"
  | VBool true => Some "true"
  | VBool false => Some "false"
  | VNum NaN | VNum (Inf _) => Some "null"
  | VNum n => Some (num_to_string n)
  | VStr s => Some (quote s)
  | VArr items =>
      Some (wrap "[" "]"
              (List.map (fun x => default "null" (serialize ind' x)) items))
  | VObj fs =>
      Some (wrap "{" "}"
              ((fix props (l : list (string * value)) : list string :=
                  match l with
                  | [] => []
                  | (k, x) :: r =>
                      match serialize ind' x with
                      | Some t => (quote k ++ ": " ++ t) :: props r
                      | None => props r
                      end
                  end) fs))
  end.

Definition stringify2 (v : value) : option string := serialize EmptyString v.

End Json.

Module Path.
Import Text.

Definition path := list string.

Definition to_string (p : path) : string := "/" ++ join "/" p.

Fixpoint strip_common (a b : path) : path * path :=
  match a, b with
  | x :: a', y :: b' =>
      if String.eqb x y then strip_common a' b' else (a, b)
  | _, _ => (a, b)
  end.

(** [path.relative(from, to)] *)
Definition relative (from to : path) : string :=
  let '(up, down) := strip_common from to in
  join "/" (List.map (fun _ => "..") up ++ down)%list.

(** [path.join(dir, name)] for a single component [name] *)
Definition join1 (dir : path) (name : string) : path :=
  (dir ++ [name])%list.

(** [path.basename(p)] *)
Definition basename (p : path) : string := List.last p EmptyString.

Fixpoint ends_with_rev (suffix_rev s_rev : list ascii) : bool :=
  match suffix_rev with
  | [] => true
  | c :: r =>
      match s_rev with
      | d :: t => Ascii.eqb c d && ends_with_rev r t
      | [] => false
      end
  end.

(** [s.endsWith(suffix)] *)
Definition ends_with (suffix s : string) : bool :=
  ends_with_rev (List.rev (list_ascii_of_string suffix))
                (List.rev (list_ascii_of_string s)).

End Path.

(** ** The host platform, the file system and the run context *)

(** What the sources take from the JavaScript host and the embedding does
    not define: [JSON.parse] and the evaluation of an ES module to its
    default export ([VUndefined] when the module has none). Either may
    throw. *)
Class Platform := {
  JSON_parse : string -> string + JS.value;
  import_default : string -> string + JS.value
}.

Module Run.
Import Text JS Path.

Definition exn := string.

Inductive node := File (content : string) | Dir.

Inductive console_line := Warn (msg : string) | Log (msg : string).

(** One row of the change log ([options.changes]). *)
Record ChangeRecord := {
  platform : string;
  file : string;
  item : string;
  oldValue : value;
  newValue : value
}.

(** The [options] object handed to every mutator. [changes] and
    [packageJsonUpdated] are written by the mutators; an absent [changes] is
    the empty list, an absent or empty [projectRoot], [increment] or
    [packageJsonPath] is [None]. *)
Record options := {
  projectRoot : option path;
  dryRun : bool;
  increment : option string;
  changes : list ChangeRecord;
  packageJsonPath : option path;
  packageJsonUpdated : bool
}.

Record state := {
  files : gmap path node;
  cwd : path;
  console : list console_line;
  opts : options
}.

(** Computations that read and write the state and may throw; what was
    written before a throw stays written. *)
Definition M (A : Type) : Type := state -> (exn + A) * state.

Definition ret {A} (a : A) : M A := fun st => (inr a, st).
Definition throw {A} (e : exn) : M A := fun st => (inl e, st).
Definition bind {A B} (m : M A) (k : A -> M B) : M B :=
  fun st =>
    match m st with
    | (inl e, st') => (inl e, st')
    | (inr a, st') => k a st'
    end.
Definition lift {A} (r : exn + A) : M A := fun st => (r, st).
Definition gets {A} (f : state -> A) : M A := fun st => (inr (f st), st).
Definition modify (f : state -> state) : M unit := fun st => (inr tt, f st).

Definition set_files (fs : gmap path node) (st : state) : state :=
  {| files := fs; cwd := cwd st; console := console st; opts := opts st |}.
Definition set_console (c : list console_line) (st : state) : state :=
  {| files := files st; cwd := cwd st; console := c; opts := opts st |}.
Definition set_opts (o : options) (st : state) : state :=
  {| files := files st; cwd := cwd st; console := console st; opts := o |}.
Definition set_changes (c : list ChangeRecord) (o : options) : options :=
  {| projectRoot := projectRoot o; dryRun := dryRun o;
     increment := increment o; changes := c;
     packageJsonPath := packageJsonPath o;
     packageJsonUpdated := packageJsonUpdated o |}.
Definition set_dryRun (b : bool) (o : options) : options :=
  {| projectRoot := projectRoot o; dryRun := b; increment := increment o;
     changes := changes o; packageJsonPath := packageJsonPath o;
     packageJsonUpdated := packageJsonUpdated o |}.
Definition set_packageJsonUpdated (b : bool) (o : options) : options :=
  {| projectRoot := projectRoot o; dryRun := dryRun o;
     increment := increment o; changes := changes o;
     packageJsonPath := packageJsonPath o;
     packageJsonUpdated := b |}.

(** [fs.existsSync] *)
Definition existsSync (p : path) : M bool :=
  gets (fun st => match files st !! p with Some _ => true | None => false end).

(** [fs.readFileSync(p, 'utf8')] *)
Definition readFileSync (p : path) : M string :=
  fun st =>
    match files st !! p with
    | Some (File c) => (inr c, st)
    | Some Dir =>
        (inl ("EISDIR: illegal operation on a directory, read"), st)
    | None =>
        (inl ("ENOENT: no such file or directory, open '"
                ++ Path.to_string p ++ "'"), st)
    end.

(** [fs.writeFileSync(p, content)] *)
Definition writeFileSync (p : path) (content : string) : M unit :=
  fun st =>
    match files st !! p with
    | Some Dir =>
        (inl ("EISDIR: illegal operation on a directory, open '"
                ++ Path.to_string p ++ "'"), st)
    | _ => (inr tt, set_files (<[p := File content]> (files st)) st)
    end.

(** The sign that opens the warnings of the mutators: U+26A0, U+FE0F and
    two spaces. *)
Definition warning_sign : string := "⚠️  ".

Definition console_warn (msg : string) : M unit :=
  modify (fun st => set_console (console st ++ [Warn msg])%list st).
Definition console_log (msg : string) : M unit :=
  modify (fun st => set_console (console st ++ [Log msg])%list st).

(** [options.changes = options.changes || []; options.changes.push(r)] *)
Definition push_change (r : ChangeRecord) : M unit :=
  modify (fun st =>
    set_opts (set_changes (changes (opts st) ++ [r])%list (opts st)) st).

(** [path.relative(options.projectRoot || process.cwd(), p)] *)
Definition relative_to_root (p : path) : M string :=
  gets (fun st =>
    Path.relative (default (cwd st) (projectRoot (opts st))) p).

(** [options.increment || 'patch'] *)
Definition increment_or_patch (o : options) : string :=
  match increment o with
  | Some t => if String.eqb t EmptyString then "patch" else t
  | None => "patch"
  end.

End Run.

#[global] Instance M_ret : MRet Run.M := @Run.ret.
#[global] Instance M_bind : MBind Run.M := fun A B k m => Run.bind m k.

(** ** src/utils/packageJson.js *)

Section PackageJson.
Context `{Platform}.
Import Text JS Obj Json Path Run.

Definition recordPackageJsonChange (packageJsonPath : path)
    (oldVersion newVersion : value) : M unit :=
  rel ← relative_to_root packageJsonPath;
  push_change {| platform := "Package.json"; file := rel; item := "version";
                 oldValue := oldVersion; newValue := newVersion |}.

(** The result is [Some v] for [{ version: v }] and [None] for [null]. *)
Definition updatePackageJsonVersion (packageJsonPath : path)
    (newVersion : value) : M (option value) :=
  found ← existsSync packageJsonPath;
  if negb found then
    console_warn (warning_sign ++ "package.json not found: "
                    ++ Path.to_string packageJsonPath);;
    ret None
  else
    content ← readFileSync packageJsonPath;
    packageData ← lift (JSON_parse content);
    currentVersion ← lift (get_prop packageData "version");
    if negb (truthy currentVersion) then
      console_warn
        (warning_sign ++ "Could not find current version in package.json");;
      ret None
    else
      console_log "Processing package.json version...";;
      (* packageData.version = newVersion : a truthy version was read, so
         packageData is an object *)
      let packageData' :=
        match packageData with
        | VObj fs => VObj (set_field "version" newVersion fs)
        | other => other
        end in
      dry ← gets (fun st => dryRun (opts st));
      (if negb dry then
         writeFileSync packageJsonPath
           (default "undefined" (stringify2 packageData') ++ nl)
       else ret tt);;
      recordPackageJsonChange packageJsonPath currentVersion newVersion;;
      ret (Some newVersion).

End PackageJson.

(** ** src/utils/android.js and src/utils/ios.js *)

Section Mutators.
Context `{Platform}.
Import Text JS Version Regex Path Run.

(** [x !== null] *)
Definition not_null (v : value) : bool :=
  match v with VNull => false | _ => true end.

(** [content.match(re)?.[1]] *)
Definition first_capture (re : regex) (content : string) : option string :=
  match str_match re content with
  | Some (c :: _) => Some c
  | _ => None
  end.

(** Truthiness of a captured text that may be [undefined]. *)
Definition present (o : option string) : bool :=
  match o with
  | Some s => negb (String.eqb s EmptyString)
  | None => false
  end.

(** The shared-manifest step at the end of both file processors:
    [if (!options.packageJsonUpdated && options.packageJsonPath && enabled)
       { await updatePackageJsonVersion(...); options.packageJsonUpdated = true; }] *)
Definition syncPackageJson (enabled : bool) (newVersion : value) : M unit :=
  o ← gets opts;
  match packageJsonPath o with
  | Some p =>
      if negb (packageJsonUpdated o) && enabled then
        updatePackageJsonVersion p newVersion;;
        modify (fun st => set_opts (set_packageJsonUpdated true (opts st)) st)
      else mret tt
  | None => mret tt
  end.

(** *** Android *)

Record android_result := {
  a_filePath : path;
  a_versionCode : num;
  a_versionName : value
}.

Definition updateAndroidFileContent (content : string) (newVersionCode : num)
    (newVersionName : value) (updateVersionName : bool) : string :=
  (* Always update versionCode *)
  let content :=
    str_replace re_versionCode
      ("versionCode " ++ num_to_string newVersionCode) content in
  (* Update versionName only if requested *)
  if updateVersionName then
    str_replace re_versionName
      ("versionName " ++ quoted (JS.to_string newVersionName)) content
  else content.

Definition recordAndroidChanges (filePath : path) (oldVersionCode : string)
    (newVersionCode : num) (oldVersionName : string) (newVersionName : value)
    (versionNameUpdated : bool) : M unit :=
  (* Always record versionCode changes *)
  rel ← relative_to_root filePath;
  push_change {| platform := "Android"; file := rel; item := "versionCode";
                 oldValue := VStr oldVersionCode;
                 newValue := VNum newVersionCode |};;
  (* Record versionName changes only if it was updated *)
  if versionNameUpdated then
    rel ← relative_to_root filePath;
    push_change {| platform := "Android"; file := rel; item := "versionName";
                   oldValue := VStr oldVersionName;
                   newValue := newVersionName |}
  else mret tt.

Definition processAndroidFile (filePath : path) (versionCode versionName : value)
  : M (option android_result) :=
  found ← existsSync filePath;
  if negb found then
    console_warn (warning_sign ++ "Android build.gradle not found: "
                    ++ Path.to_string filePath);;
    mret None
  else
    content ← readFileSync filePath;
    let currentVersionCode := first_capture re_versionCode_cap content in
    let currentVersionName := first_capture re_versionName_cap content in
    if negb (present currentVersionCode) || negb (present currentVersionName)
    then
      console_warn (warning_sign ++ "Could not find version values in: "
                      ++ Path.to_string filePath);;
      mret None
    else
      let currentVersionCode := default EmptyString currentVersionCode in
      let currentVersionName := default EmptyString currentVersionName in
      rel ← relative_to_root filePath;
      console_log ("Processing Android file: " ++ rel);;
      let newVersionCode :=
        calculateNewBuildNumber versionCode (VStr currentVersionCode) in
      inc ← gets (fun st => increment_or_patch (opts st));
      newVersionName ←
        (if not_null versionName then
           lift (calculateNewSemanticVersion versionName currentVersionName inc)
         else mret (VStr currentVersionName));
      let content :=
        updateAndroidFileContent content newVersionCode newVersionName
          (not_null versionName) in
      dry ← gets (fun st => dryRun (opts st));
      (if negb dry then writeFileSync filePath content else mret tt);;
      recordAndroidChanges filePath currentVersionCode newVersionCode
        currentVersionName newVersionName (not_null versionName);;
      syncPackageJson (not_null versionName) newVersionName;;
      mret (Some {| a_filePath := filePath; a_versionCode := newVersionCode;
                    a_versionName := newVersionName |}).

Fixpoint android_loop (files : list path) (versionCode versionName : value)
    (results : list android_result) : M (list android_result) :=
  match files with
  | [] => mret results
  | filePath :: rest =>
      result ← processAndroidFile filePath versionCode versionName;
      android_loop rest versionCode versionName
        (match result with
         | Some r => (results ++ [r])%list
         | None => results
         end)
  end.

Definition updateAndroidVersions (files : list path)
    (versionCode versionName : value) : M (list android_result) :=
  android_loop files versionCode versionName [].

(** *** iOS *)

Record ios_result := {
  i_filePath : path;
  i_currentProjectVersion : num;
  i_marketingVersion : value
}.

Definition updateIOSFileContent (content : string)
    (newCurrentProjectVersion : num) (newMarketingVersion : value)
    (updateCurrentProjectVersion updateMarketingVersion : bool) : string :=
  let content :=
    if updateCurrentProjectVersion then
      str_replace_g re_currentProjectVersion
        ("CURRENT_PROJECT_VERSION = "
           ++ num_to_string newCurrentProjectVersion ++ ";") content
    else content in
  if updateMarketingVersion then
    str_replace_g re_marketingVersion
      ("MARKETING_VERSION = " ++ JS.to_string newMarketingVersion ++ ";") content
  else content.

Definition recordIOSChanges (filePath : path)
    (oldCurrentProjectVersion : string) (newCurrentProjectVersion : num)
    (oldMarketingVersion : string) (newMarketingVersion : value)
    (currentProjectVersionUpdated marketingVersionUpdated : bool) : M unit :=
  (if currentProjectVersionUpdated then
     rel ← relative_to_root filePath;
     push_change {| platform := "iOS"; file := rel;
                    item := "CURRENT_PROJECT_VERSION";
                    oldValue := VStr oldCurrentProjectVersion;
                    newValue := VNum newCurrentProjectVersion |}
   else mret tt);;
  if marketingVersionUpdated then
    rel ← relative_to_root filePath;
    push_change {| platform := "iOS"; file := rel;
                   item := "MARKETING_VERSION";
                   oldValue := VStr oldMarketingVersion;
                   newValue := newMarketingVersion |}
  else mret tt.

(** [matches[0].match(re)[1]]; reading [[1]] of a failed match is a type
    error. *)
Definition capture_of_first (re : regex) (matches : list string) : M string :=
  match matches with
  | m0 :: _ =>
      match first_capture re m0 with
      | Some c => mret c
      | None => throw "Cannot read properties of null (reading '1')"
      end
  | [] => throw "Cannot read properties of undefined (reading 'match')"
  end.

Definition processIOSFile (filePath : path)
    (currentProjectVersion marketingVersion : value)
  : M (option ios_result) :=
  found ← existsSync filePath;
  if negb found then
    console_warn (warning_sign ++ "iOS project.pbxproj not found: "
                    ++ Path.to_string filePath);;
    mret None
  else
    content ← readFileSync filePath;
    (* Find current values (there might be multiple occurrences) *)
    match str_match_g re_currentProjectVersion_cap content,
          str_match_g re_marketingVersion_cap content with
    | Some currentProjectVersionMatches, Some marketingVersionMatches =>
        (* Extract the first occurrence values for processing *)
        currentProjectVersionValue ←
          capture_of_first re_digits currentProjectVersionMatches;
        marketingVersionValue ←
          capture_of_first re_marketingVersion_cap marketingVersionMatches;
        rel ← relative_to_root filePath;
        console_log ("Processing iOS file: " ++ rel);;
        let newCurrentProjectVersion :=
          if not_null currentProjectVersion then
            calculateNewBuildNumber currentProjectVersion
              (VStr currentProjectVersionValue)
          else parseInt_string currentProjectVersionValue in
        inc ← gets (fun st => increment_or_patch (opts st));
        newMarketingVersion ←
          (if not_null marketingVersion then
             lift (calculateNewSemanticVersion marketingVersion
                     marketingVersionValue inc)
           else mret (VStr marketingVersionValue));
        let content :=
          updateIOSFileContent content newCurrentProjectVersion
            newMarketingVersion (not_null currentProjectVersion)
            (not_null marketingVersion) in
        dry ← gets (fun st => dryRun (opts st));
        (if negb dry then writeFileSync filePath content else mret tt);;
        recordIOSChanges filePath currentProjectVersionValue
          newCurrentProjectVersion marketingVersionValue newMarketingVersion
          (not_null currentProjectVersion) (not_null marketingVersion);;
        syncPackageJson (not_null marketingVersion) newMarketingVersion;;
        mret (Some {| i_filePath := filePath;
                      i_currentProjectVersion := newCurrentProjectVersion;
                      i_marketingVersion := newMarketingVersion |})
    | _, _ =>
        console_warn (warning_sign ++ "Could not find version values in: "
                        ++ Path.to_string filePath);;
        mret None
    end.

Fixpoint ios_loop (files : list path)
    (currentProjectVersion marketingVersion : value)
    (results : list ios_result) : M (list ios_result) :=
  match files with
  | [] => mret results
  | filePath :: rest =>
      result ← processIOSFile filePath currentProjectVersion marketingVersion;
      ios_loop rest currentProjectVersion marketingVersion
        (match result with
         | Some r => (results ++ [r])%list
         | None => results
         end)
  end.

Definition updateIOSVersions (files : list path)
    (currentProjectVersion marketingVersion : value) : M (list ios_result) :=
  ios_loop files currentProjectVersion marketingVersion [].

End Mutators.

(** ** src/index.js: the update step of the orchestrator *)

Section Orchestrator.
Context `{Platform}.
Import JS Path Run.

(** The four request values the command line puts on [options]. *)
Record requests := {
  versionCode : value;
  versionName : value;
  currentProjectVersion : value;
  marketingVersion : value
}.

(** [platforms.includes(name)] *)
Definition includes (platforms : list string) (name : string) : bool :=
  existsb (String.eqb name) platforms.

(** [if (cond) { await m; }] *)
Definition when {A} (cond : bool) (m : M A) : M unit :=
  if cond then m;; mret tt else mret tt.

Definition executePlatformUpdates (platforms : list string)
    (androidFiles iosFiles : list path) (o : requests) : M unit :=
  (* Update Android (full: both versionCode and versionName) *)
  when (includes platforms "android")
    (updateAndroidVersions androidFiles (versionCode o) (versionName o));;
  (* Update Android versionCode only *)
  when (includes platforms "android-code-only")
    (updateAndroidVersions androidFiles (versionCode o) VNull);;
  (* Update Android versionName only *)
  when (includes platforms "android-name-only")
    (updateAndroidVersions androidFiles VNull (versionName o));;
  (* Update iOS (full) *)
  when (includes platforms "ios")
    (updateIOSVersions iosFiles (currentProjectVersion o)
       (marketingVersion o));;
  (* Update iOS CURRENT_PROJECT_VERSION only *)
  when (includes platforms "ios-version-only")
    (updateIOSVersions iosFiles (currentProjectVersion o) VNull);;
  (* Update iOS MARKETING_VERSION only *)
  when (includes platforms "ios-marketing-only")
    (updateIOSVersions iosFiles VNull (marketingVersion o));;
  (* Update both build numbers only *)
  when (includes platforms "build-numbers-only")
    (updateAndroidVersions androidFiles (versionCode o) VNull;;
     updateIOSVersions iosFiles (currentProjectVersion o) VNull).

End Orchestrator.
(** ** The readers of src/utils/android.js, src/utils/ios.js and
    src/utils/packageJson.js *)

Section Readers.
Context `{Platform}.
Import Text JS Version Regex Obj Path Run.

(** [match[1]] of a successful match. *)
Definition group1 (caps : list string) : value :=
  match caps with
  | c :: _ => VStr c
  | [] => VUndefined
  end.

(** [{ versionCode, versionName }], each [null] when its pattern is not
    found. *)
Record android_versions := {
  pa_versionCode : value;
  pa_versionName : value
}.

Definition parseAndroidVersions (filePath : path) : M android_versions :=
  found ← existsSync filePath;
  if negb found then
    throw ("Android build.gradle not found at: " ++ Path.to_string filePath)
  else
    content ← readFileSync filePath;
    let versionCodeMatch := str_match re_versionCode_cap content in
    let versionNameMatch := str_match re_versionName_cap content in
    mret {| pa_versionCode :=
              match versionCodeMatch with
              | Some caps => VNum (parseInt (group1 caps))
              | None => VNull
              end;
            pa_versionName :=
              match versionNameMatch with
              | Some caps => group1 caps
              | None => VNull
              end |}.

(** [{ currentProjectVersion, marketingVersion }] *)
Record ios_versions := {
  pi_currentProjectVersion : value;
  pi_marketingVersion : value
}.

Definition parseIOSVersions (filePath : path) : M ios_versions :=
  found ← existsSync filePath;
  if negb found then
    throw ("iOS project.pbxproj not found at: " ++ Path.to_string filePath)
  else
    content ← readFileSync filePath;
    let currentProjectVersionMatch :=
      str_match re_currentProjectVersion_cap content in
    let marketingVersionMatch := str_match re_marketingVersion_cap content in
    mret {| pi_currentProjectVersion :=
              match currentProjectVersionMatch with
              | Some caps => VNum (parseInt (group1 caps))
              | None => VNull
              end;
            pi_marketingVersion :=
              match marketingVersionMatch with
              | Some caps => group1 caps
              | None => VNull
              end |}.

(** The [version] of the result [{ version }]. *)
Definition parsePackageJsonVersion (packageJsonPath : path) : M value :=
  found ← existsSync packageJsonPath;
  if negb found then
    throw ("package.json not found at: " ++ Path.to_string packageJsonPath)
  else
    content ← readFileSync packageJsonPath;
    packageData ← lift (JSON_parse content);
    version ← lift (get_prop packageData "version");
    (* packageData.version || null *)
    mret (if truthy version then version else VNull).

End Readers.
(** ** src/utils/files.js *)

(** Paths given as text. [path.join] is lexical: the text is cut at every
    [/], empty components and [.] are dropped and [..] removes the
    component in front of it. A result that ends with a separator names a
    directory. An absolute pattern is taken to be in normal form already. *)
Module PathText.
Import Text Path.

(** [s.split(c)] *)
Fixpoint split_on (c : ascii) (s : string) : list string :=
  match s with
  | EmptyString => [EmptyString]
  | String d r =>
      if Ascii.eqb d c then EmptyString :: split_on c r
      else match split_on c r with
           | x :: xs => String d x :: xs
           | [] => [String d EmptyString]
           end
  end.

(** [s.split(c)[0]] *)
Definition before_char (c : ascii) (s : string) : string :=
  List.hd EmptyString (split_on c s).

Fixpoint starts_with (sub s : string) : bool :=
  match sub, s with
  | EmptyString, _ => true
  | String a sub', String b s' => Ascii.eqb a b && starts_with sub' s'
  | String _ _, EmptyString => false
  end.

(** [s.includes(sub)] *)
Fixpoint includes (sub s : string) : bool :=
  starts_with sub s ||
  match s with
  | EmptyString => false
  | String _ s' => includes sub s'
  end.

(** [path.isAbsolute(s)] *)
Definition isAbsolute (s : string) : bool := starts_with "/" s.

(** Walk the components [segs] from the directory whose components are
    [up], innermost first. *)
Fixpoint walk (up : list string) (segs : list string) : list string :=
  match segs with
  | [] => up
  | seg :: rest =>
      if String.eqb seg EmptyString || String.eqb seg "." then walk up rest
      else if String.eqb seg ".." then walk (List.tl up) rest
      else walk (seg :: up) rest
  end.

(** A path as text names it: its components, and whether the text insists
    on a directory by ending with a separator. *)
Record named := { target : path; as_directory : bool }.

(** [path.join(dir, rel)] *)
Definition join (dir : path) (rel : string) : named :=
  {| target := List.rev (walk (List.rev dir) (split_on "/" rel));
     as_directory := ends_with "/" rel |}.

End PathText.

Section Files.
Import Text JS Path Run PathText.

(** The node a path names; the root directory is always there. *)
Definition node_at (st : state) (p : path) : option node :=
  match p with
  | [] => Some Dir
  | _ => files st !! p
  end.

(** [fs.existsSync] of a path given as text. *)
Definition exists_named (n : named) : M bool :=
  gets (fun st =>
    match node_at st (target n) with
    | Some Dir => true
    | Some (File _) => negb (as_directory n)
    | None => false
    end).

(** The name of [p] inside [dir], when [p] is an entry of [dir]. *)
Fixpoint entry_name (dir p : path) : option string :=
  match dir, p with
  | [], [name] => Some name
  | d :: dir', x :: p' =>
      if String.eqb d x then entry_name dir' p' else None
  | _, _ => None
  end.

(** [fs.readdirSync(dir)]: the names of the entries of a directory, in the
    order the file system lists them. *)
Definition readdirSync (dir : path) : M (list string) :=
  fun st =>
    match node_at st dir with
    | Some Dir =>
        (inr (omap (fun kv => entry_name dir kv.1) (map_to_list (files st))),
         st)
    | Some (File _) =>
        (inl ("ENOTDIR: not a directory, scandir '" ++ Path.to_string dir
                ++ "'"), st)
    | None =>
        (inl ("ENOENT: no such file or directory, scandir '"
                ++ Path.to_string dir ++ "'"), st)
    end.

(** [fs.statSync(p).isDirectory()] of an entry just listed. *)
Definition isDirectory (p : path) : M bool :=
  gets (fun st => match node_at st p with Some Dir => true | _ => false end).

Definition resolveDirectPath (fullPath : named) : M (list path) :=
  found ← exists_named fullPath;
  if (found : bool) then mret [target fullPath] else mret [].

(** [files.filter(keep)] for a test that reads the file system. *)
Fixpoint filterM (keep : string -> M bool) (names : list string)
  : M (list string) :=
  match names with
  | [] => mret []
  | name :: rest =>
      ok ← keep name;
      kept ← filterM keep rest;
      mret (if (ok : bool) then name :: kept else kept)
  end.

(** The loop over the [.xcodeproj] directories found. *)
Fixpoint collect_pbxproj (searchDir : path) (xcodeprojDirs : list string)
    (resolvedPaths : list path) : M (list path) :=
  match xcodeprojDirs with
  | [] => mret resolvedPaths
  | xcodeprojDir :: rest =>
      let pbxprojPath :=
        join1 (join1 searchDir xcodeprojDir) "project.pbxproj" in
      found ← existsSync pbxprojPath;
      collect_pbxproj searchDir rest
        (if (found : bool) then (resolvedPaths ++ [pbxprojPath])%list
         else resolvedPaths)
  end.

Definition resolveGlobPattern (pattern : string) (projectRoot : path)
  : M (list path) :=
  (* Handle iOS xcodeproj pattern specifically *)
  if includes "*.xcodeproj" pattern then
    let dirPart := before_char "*" pattern in
    let searchDir := PathText.join projectRoot dirPart in
    found ← exists_named searchDir;
    if negb found then mret []
    else
      files ← readdirSync (target searchDir);
      (* Look for .xcodeproj directories *)
      xcodeprojDirs ←
        filterM (fun file =>
                   isDir ← isDirectory (join1 (target searchDir) file);
                   mret ((isDir : bool) && ends_with ".xcodeproj" file))
          files;
      collect_pbxproj (target searchDir) xcodeprojDirs []
  else mret [].

Definition resolveFilePattern (pattern : string) (projectRoot : path)
  : M (list path) :=
  let fullPattern :=
    if isAbsolute pattern then PathText.join [] pattern
    else PathText.join projectRoot pattern in
  if includes "*" pattern then resolveGlobPattern pattern projectRoot
  else resolveDirectPath fullPattern.

Fixpoint resolve_loop (patterns : list string) (projectRoot : path)
    (resolvedPaths : list path) : M (list path) :=
  match patterns with
  | [] => mret resolvedPaths
  | pattern :: rest =>
      resolvedPattern ← resolveFilePattern pattern projectRoot;
      resolve_loop rest projectRoot (resolvedPaths ++ resolvedPattern)%list
  end.

Definition resolveFilePaths (patterns : list string) (projectRoot : path)
  : M (list path) :=
  resolve_loop patterns projectRoot [].

End Files.

(** ** src/utils/detection.js *)

Section Detection.
Context `{Platform}.
Import Text JS Obj Path Run.

(** [try { body } catch (error) { handler(error) }] *)
Definition try_catch {A} (body : M A) (handler : exn -> M A) : M A :=
  fun st =>
    match body st with
    | (inl e, st') => handler e st'
    | (inr a, st') => (inr a, st')
    end.

Definition DEFAULT_CONFIG : value :=
  VObj [("android", VObj [("files", VArr [VStr "android/app/build.gradle"])]);
        ("ios", VObj [("files", VArr [VStr "ios/*.xcodeproj/project.pbxproj"])]);
        ("packageJson", VStr "package.json")].






Definition getDefaultConfig : value :=
  VObj [("android", VObj [("files", VArr [VStr "android/app/build.gradle"])]);
        ("ios", VObj [("files", VArr [VStr "ios/*.xcodeproj/project.pbxproj"])]);
        ("packageJson", VStr "package.json")].

(** [typeof v === 'object' && v !== null && !Array.isArray(v)] *)
Definition is_plain_object (v : value) : bool :=
  match v with VObj _ => true | _ => false end.

Definition is_undefined (v : value) : bool :=
  match v with VUndefined => true | _ => false end.

(** The copy made of a default left untouched by the user: an array or an
    object is copied element by element, [null] (an object to [typeof])
    becomes the empty object. *)
Definition copy_default (v : value) : value :=
  match v with VNull => VObj [] | _ => v end.

Definition mergeConfigs (defaultConfig userConfig : value) : value :=
  let user k := default VUndefined (lookup_field k (spread_fields userConfig)) in
  (* Merge each top-level key *)
  let result :=
    fold_left
      (fun result kv =>
         let key := kv.1 in
         if truthy (user key) && is_plain_object (user key) then
           set_field key (VObj (spread2 kv.2 (user key))) result
         else if negb (is_undefined (user key)) then
           set_field key (user key) result
         else set_field key (copy_default kv.2) result)
      (spread_fields defaultConfig) [] in
  (* Add any keys that exist in userConfig but not in defaultConfig *)
  VObj (fold_left
          (fun result kv =>
             if negb (key_in kv.1 (spread_fields defaultConfig)) then
               set_field kv.1 kv.2 result
             else result)
          (spread_fields userConfig) result).

(** [await import(pathToFileURL(configPath).href)] and its [default] *)
Definition import_config (configPath : path) : M value :=
  src ← readFileSync configPath;
  lift (import_default src).

Definition loadConfigFromPath (configPath : path) : M (option value) :=
  found ← existsSync configPath;
  if negb found then mret None
  else
    try_catch
      (config ←
         (if ends_with ".js" (Path.to_string configPath) then
            import_config configPath
          else
            configContent ← readFileSync configPath;
            lift (JSON_parse configContent));
       if negb (is_plain_object config) then
         console_warn ("Warning: Invalid configuration in "
                         ++ basename configPath ++ ": must be an object");;
         mret None
       else mret (Some config))
      (fun error =>
         console_warn ("Warning: Could not load config from "
                         ++ basename configPath ++ ": " ++ error);;
         mret None).

Definition configFiles : list string :=
  ["vbump.config.js"; "vbump.config.json"; ".vbump.config.js";
   ".vbump.config.json"].

Fixpoint search_config (projectRoot : path) (names : list string)
  : M value :=
  match names with
  | [] => mret getDefaultConfig
  | configFile :: rest =>
      config ← loadConfigFromPath (join1 projectRoot configFile);
      match config with
      | Some c => mret (mergeConfigs DEFAULT_CONFIG c)
      | None => search_config projectRoot rest
      end
  end.

(** [customConfigPath] is [None] for [null] and for the empty string. *)
Definition loadProjectConfiguration (projectRoot : path)
    (customConfigPath : option path) : M value :=
  try_catch
    (fromCustom ←
       match customConfigPath with
       | Some p => loadConfigFromPath p
       | None => mret None
       end;
     match fromCustom with
     | Some c => mret (mergeConfigs DEFAULT_CONFIG c)
     | None => search_config projectRoot configFiles
     end)
    (fun error =>
       console_warn ("Warning: Error loading configuration, using defaults: "
                       ++ error);;
       mret getDefaultConfig).

End Detection.
(** ** src/index.js: from the command-line options to the selection *)

Section Selection.
Context `{Platform}.
Import Text JS Obj Path Run.

(** What the sources take from the interactive prompt and from the
    cancellation handler of src/utils/ui.js. *)
Variable promptForPlatformSelection : M (list string).
Variable handleUserCancellation : exn -> M unit.

(** [{ ...options, versionCode: options.androidBuildNumber, ... }] *)
Definition mapOptionsToTechnicalTerms (options : value) : exn + value :=
  match get_prop options "androidBuildNumber" with
  | inl e => inl e
  | inr androidBuildNumber =>
      match get_prop options "androidAppVersion",
            get_prop options "iosBuildNumber",
            get_prop options "iosAppVersion" with
      | inr androidAppVersion, inr iosBuildNumber, inr iosAppVersion =>
          inr (VObj
                 (set_field "marketingVersion" iosAppVersion
                    (set_field "currentProjectVersion" iosBuildNumber
                       (set_field "versionName" androidAppVersion
                          (set_field "versionCode" androidBuildNumber
                             (spread_fields options))))))
      | inl e, _, _ | _, inl e, _ | _, _, inl e => inl e
      end
  end.

(** [options.key], [undefined] when there is no such property. *)
Definition option_of (options : value) (key : string) : value :=
  match get_prop options key with
  | inr v => v
  | inl _ => VUndefined
  end.

Definition determinePlatformsToUpdate (options : value)
  : M (list string) :=
  _ ← lift (get_prop options "android");
  let given key := negb (is_undefined (option_of options key)) in
  (* Return platforms based on command line flags *)
  if truthy (option_of options "android") && truthy (option_of options "ios")
  then mret ["android"; "ios"]
  else if truthy (option_of options "android") then mret ["android"]
  else if truthy (option_of options "ios") then mret ["ios"]
  else if given "androidBuildNumber" then mret ["android-code-only"]
  else if given "androidAppVersion" then mret ["android-name-only"]
  else if given "iosBuildNumber" then mret ["ios-version-only"]
  else if given "iosAppVersion" then mret ["ios-marketing-only"]
  else if truthy (option_of options "buildNumbers")
  then mret ["build-numbers-only"]
  else
    (* No flags provided, prompt user for platform selection *)
    try_catch promptForPlatformSelection
      (fun error => handleUserCancellation error;; throw error).

(** The four requests [executePlatformUpdates] reads from the mapped
    options. *)
Definition requests_of (options : value) : requests :=
  {| versionCode := option_of options "versionCode";
     versionName := option_of options "versionName";
     currentProjectVersion := option_of options "currentProjectVersion";
     marketingVersion := option_of options "marketingVersion" |}.

End Selection.

(** ** A reference platform for closed examples

    The development is parametric in [Platform]. For evaluating the
    functions on concrete files, [JSON_parse] is instantiated by a parser of
    JSON texts whose numbers are integers and whose strings use no [\u]
    escape above [\u00ff], and [import_default] by a reader of modules of
    the form [export default <JSON text>;]. *)

Module Reference.
Import Text JS Obj Regex.

Definition is_json_space (c : ascii) : bool :=
  let n := Z.of_N (N_of_ascii c) in
  (n =? 32) || (n =? 9) || (n =? 10) || (n =? 13).

Definition skip_ws (s : string) : string := (span is_json_space s).2.

Definition unescape (c : ascii) : option ascii :=
  let n := Z.of_N (N_of_ascii c) in
  if (n =? 34) || (n =? 92) || (n =? 47) then Some c
  else if Ascii.eqb c "b" then Some (ascii_of_nat 8)
  else if Ascii.eqb c "f" then Some (ascii_of_nat 12)
  else if Ascii.eqb c "n" then Some (ascii_of_nat 10)
  else if Ascii.eqb c "r" then Some (ascii_of_nat 13)
  else if Ascii.eqb c "t" then Some (ascii_of_nat 9)
  else None.

(** UTF-8 of a character below U+0100. *)
Definition utf8 (n : Z) : string :=
  if n <? 128 then String (ascii_of_N (Z.to_N n)) EmptyString
  else String (ascii_of_N (Z.to_N (192 + n / 64)))
         (String (ascii_of_N (Z.to_N (128 + n mod 64))) EmptyString).

(** The characters of a string literal after its opening quote. *)
Fixpoint parse_chars (s : string) : option (string * string) :=
  match s with
  | EmptyString => None
  | String c r =>
      if Ascii.eqb c dquote then Some (EmptyString, r)
      else if Z.of_N (N_of_ascii c) <? 32 then None
      else if Ascii.eqb c "\" then
        match r with
        | String "u" (String "0" (String "0" (String h1 (String h2 r')))) =>
            match hex_val h1, hex_val h2, parse_chars r' with
            | Some a, Some b, Some (t, rest) =>
                Some (utf8 (16 * a + b) ++ t, rest)
            | _, _, _ => None
            end
        | String e r' =>
            match unescape e, parse_chars r' with
            | Some x, Some (t, rest) => Some (String x t, rest)
            | _, _ => None
            end
        | EmptyString => None
        end
      else
        match parse_chars r with
        | Some (t, rest) => Some (String c t, rest)
        | None => None
        end
  end.

Definition parse_number (s : string) : option (value * string) :=
  let unsigned t :=
    let '(run, rest) := span is_digit t in
    match run with
    | EmptyString => None
    | String "0" (String _ _) => None
    | _ =>
        match rest with
        | String "." _ | String "e" _ | String "E" _ => None
        | _ => Some (digits_value 0 run, rest)
        end
    end in
  match s with
  | String "-" t =>
      match unsigned t with
      | Some (n, rest) => Some (VNum (of_Z (- n)), rest)
      | None => None
      end
  | _ =>
      match unsigned s with
      | Some (n, rest) => Some (VNum (of_Z n), rest)
      | None => None
      end
  end.

Fixpoint parse_value (fuel : nat) (s : string) : option (value * string) :=
  match fuel with
  | O => None
  | S f =>
      match skip_ws s with
      | String c r =>
          if Ascii.eqb c "{" then
            match skip_ws r with
            | String "}" rest => Some (VObj [], rest)
            | _ => parse_members f r []
            end
          else if Ascii.eqb c "[" then
            match skip_ws r with
            | String "]" rest => Some (VArr [], rest)
            | _ => parse_elements f r []
            end
          else if Ascii.eqb c dquote then
            match parse_chars r with
            | Some (t, rest) => Some (VStr t, rest)
            | None => None
            end
          else
            match strip_prefix "true" (String c r),
                  strip_prefix "false" (String c r),
                  strip_prefix "null" (String c r) with
            | Some rest, _, _ => Some (VBool true, rest)
            | _, Some rest, _ => Some (VBool false, rest)
            | _, _, Some rest => Some (VNull, rest)
            | _, _, _ => parse_number (String c r)
            end
      | EmptyString => None
      end
  end
with parse_members (fuel : nat) (s : string) (acc : fields)
  : option (value * string) :=
  match fuel with
  | O => None
  | S f =>
      match skip_ws s with
      | String c r =>
          if Ascii.eqb c dquote then
            match parse_chars r with
            | Some (k, r1) =>
                match skip_ws r1 with
                | String ":" r2 =>
                    match parse_value f r2 with
                    | Some (v, r3) =>
                        match skip_ws r3 with
                        | String "," r4 => parse_members f r4 (set_field k v acc)
                        | String "}" r4 => Some (VObj (set_field k v acc), r4)
                        | _ => None
                        end
                    | None => None
                    end
                | _ => None
                end
            | None => None
            end
          else None
      | EmptyString => None
      end
  end
with parse_elements (fuel : nat) (s : string) (acc : list value)
  : option (value * string) :=
  match fuel with
  | O => None
  | S f =>
      match parse_value f s with
      | Some (v, r1) =>
          match skip_ws r1 with
          | String "," r2 => parse_elements f r2 (acc ++ [v])%list
          | String "]" r2 => Some (VArr (acc ++ [v])%list, r2)
          | _ => None
          end
      | None => None
      end
  end.

Definition parse_json (s : string) : string + value :=
  match parse_value (2 * String.length s + 2) s with
  | Some (v, rest) =>
      match skip_ws rest with
      | EmptyString => inr v
      | _ => inl "Unexpected non-whitespace character after JSON"
      end
  | None => inl "Unexpected token in JSON"
  end.

Fixpoint drop_last_semicolon (s : string) : string :=
  match s with
  | EmptyString => EmptyString
  | String c r =>
      if Ascii.eqb c ";" && String.eqb (skip_ws r) EmptyString then EmptyString
      else String c (drop_last_semicolon r)
  end.

Definition import_json_module (src : string) : string + value :=
  match strip_prefix "export default " (skip_ws src) with
  | Some body => parse_json (drop_last_semicolon body)
  | None => inr VUndefined
  end.

#[local] Instance reference_platform : Platform :=
  {| JSON_parse := parse_json; import_default := import_json_module |}.

End Reference.

(** * Properties *)

#[local] Arguments String.append !_ _ / : simpl nomatch.

(** ** Text and numerals *)

Module TextFacts.
Import Text JS.

Lemma append_nil_r (s : string) : s ++ EmptyString = s.
Proof. induction s as [|c s IH]; simpl; [reflexivity | now rewrite IH]. Qed.

Lemma append_assoc (a b c : string) : (a ++ b) ++ c = a ++ (b ++ c).
Proof. induction a as [|x a IH]; simpl; [reflexivity | now rewrite IH]. Qed.

Lemma length_app (a b : string) :
  String.length (a ++ b) = (String.length a + String.length b)%nat.
Proof. induction a as [|x a IH]; simpl; [reflexivity | now rewrite IH]. Qed.

Lemma span_sound p s a r :
  span p s = (a, r) ->
  s = a ++ r /\ all_chars p a = true /\
  match r with String c _ => p c = false | EmptyString => True end.
Proof.
  revert a r. induction s as [|c s IH]; simpl; intros a r E.
  - inversion E; subst. auto.
  - destruct (p c) eqn:Hc.
    + destruct (span p s) as [a' r'] eqn:Es. inversion E; subst.
      destruct (IH _ _ eq_refl) as (-> & Ha & Hr).
      simpl. rewrite Hc, Ha. auto.
    + inversion E; subst. simpl. auto.
Qed.

Lemma span_complete p a r :
  all_chars p a = true ->
  match r with String c _ => p c = false | EmptyString => True end ->
  span p (a ++ r) = (a, r).
Proof.
  induction a as [|c a IH]; simpl; intros Ha Hr.
  - destruct r as [|c r]; [reflexivity|]. simpl. now rewrite Hr.
  - apply andb_prop in Ha as [Hc Ha]. rewrite Hc, (IH Ha Hr). reflexivity.
Qed.

Lemma strip_prefix_app lit s : strip_prefix lit (lit ++ s) = Some s.
Proof.
  induction lit as [|c lit IH]; simpl; [reflexivity|].
  now rewrite Ascii.eqb_refl.
Qed.

Lemma strip_prefix_sound lit s r : strip_prefix lit s = Some r -> s = lit ++ r.
Proof.
  revert s. induction lit as [|c lit IH]; simpl; intros s E.
  - now inversion E.
  - destruct s as [|d s]; [discriminate|].
    destruct (Ascii.eqb c d) eqn:Ecd; [|discriminate].
    apply Ascii.eqb_eq in Ecd as ->. now rewrite (IH _ E).
Qed.

Lemma is_digit_range c :
  is_digit c = true <-> 48 <= Z.of_N (N_of_ascii c) <= 57.
Proof. unfold is_digit. lia. Qed.

Lemma digit_char_val d :
  0 <= d < 10 ->
  is_digit (digit_char d) = true /\ digit_val (digit_char d) = d.
Proof.
  intros Hd. unfold is_digit, digit_val, digit_char.
  rewrite N_ascii_embedding by lia. rewrite Z2N.id by lia. lia.
Qed.

Lemma digits_value_app acc a b :
  digits_value acc (a ++ b) = digits_value (digits_value acc a) b.
Proof. revert acc. induction a as [|c a IH]; simpl; intros; [reflexivity | apply IH]. Qed.

Lemma all_chars_app p a b :
  all_chars p (a ++ b) = all_chars p a && all_chars p b.
Proof.
  induction a as [|c a IH]; simpl; [reflexivity|].
  rewrite IH. now rewrite andb_assoc.
Qed.

(** The digits written by [digits_of_aux] in front of [acc], given [fuel]
    that covers the size of [n]. *)
Lemma digits_of_aux_spec fuel : forall n acc,
  (0 < fuel)%nat -> 0 <= n < 2 ^ Z.of_nat fuel ->
  exists ds,
    digits_of_aux fuel n acc = ds ++ acc /\
    all_chars is_digit ds = true /\ ds <> EmptyString /\
    forall a, digits_value a ds = a * 10 ^ Z.of_nat (String.length ds) + n.
Proof.
  induction fuel as [|f IH]; intros n acc Hf Hn; [lia|].
  simpl. destruct (Z.ltb_spec n 10) as [Hlt|Hge].
    - exists (String (digit_char (n mod 10)) EmptyString).
      rewrite Z.mod_small by lia.
      destruct (digit_char_val n) as [Hd Hv]; [lia|].
      simpl. rewrite Hd, Hv. repeat split; [discriminate|]. intros a. lia.
    - rewrite Nat2Z.inj_succ, Z.pow_succ_r in Hn by lia.
      destruct (IH (n / 10) (String (digit_char (n mod 10)) acc)) as
        (ds & E & Hall & Hne & Hval).
      { destruct f; [simpl in Hn; lia | lia]. }
      { split; [apply Z.div_pos; lia|].
        apply Z.div_lt_upper_bound; lia. }
      exists (ds ++ String (digit_char (n mod 10)) EmptyString).
      destruct (digit_char_val (n mod 10)) as [Hd Hv];
        [apply Z.mod_pos_bound; lia|].
      rewrite E, append_assoc. simpl. split; [reflexivity|].
      rewrite all_chars_app, Hall. simpl. rewrite Hd. split; [reflexivity|].
      split; [destruct ds; discriminate|].
      intros a. rewrite digits_value_app, Hval. simpl. rewrite Hv.
      rewrite length_app. simpl String.length.
      rewrite Nat2Z.inj_add. simpl Z.of_nat.
      rewrite Z.pow_add_r by lia. rewrite (Z.div_mod n 10) at 3 by lia. lia.
Qed.

Lemma digits_of_spec n :
  0 <= n ->
  all_chars is_digit (digits_of n) = true /\ digits_of n <> EmptyString /\
  digits_value 0 (digits_of n) = n.
Proof.
  intros Hn. unfold digits_of.
  destruct (digits_of_aux_spec (S (Z.to_nat (Z.log2 n))) n EmptyString)
    as (ds & E & Hall & Hne & Hval); [lia| |].
  { split; [lia|]. rewrite Nat2Z.inj_succ, Z2Nat.id by apply Z.log2_nonneg.
    destruct (Z.eq_dec n 0) as [->|]; [simpl; lia|].
    pose proof (Z.log2_spec n). lia. }
  rewrite E, append_nil_r. split; [exact Hall|]. split; [exact Hne|].
  rewrite Hval. lia.
Qed.

(** *** White space *)

Lemma white_space_sound s t r :
  white_space s = Some (t, r) -> s = t ++ r /\ t <> EmptyString.
Proof.
  unfold white_space. destruct s as [|a r1]; [discriminate|].
  destruct (is_ascii_space a); [intros [= <- <-]; now split|].
  destruct r1 as [|b r2]; [discriminate|].
  destruct (is_space2 a b); [intros [= <- <-]; now split|].
  destruct r2 as [|c r3]; [discriminate|].
  destruct (is_space3 a b c); [|discriminate]. intros [= <- <-]. now split.
Qed.

Lemma span_space_eq s :
  span_space s
  = match white_space s with
    | Some (t, r) => let '(w, r') := span_space r in (t ++ w, r')
    | None => (EmptyString, s)
    end.
Proof.
  destruct s as [|a r1]; [reflexivity|].
  cbn [span_space white_space].
  destruct (is_ascii_space a); [now destruct (span_space r1)|].
  destruct r1 as [|b r2]; [reflexivity|].
  destruct (is_space2 a b); [now destruct (span_space r2)|].
  destruct r2 as [|c r3]; [reflexivity|].
  destruct (is_space3 a b c); [now destruct (span_space r3)|reflexivity].
Qed.

(** Induction along the white-space characters at the head of a text. *)
Lemma span_space_ind (P : string -> string -> string -> Prop) :
  (forall s, white_space s = None -> P s EmptyString s) ->
  (forall s t r w r',
     white_space s = Some (t, r) -> span_space r = (w, r') -> P r w r' ->
     P s (t ++ w) r') ->
  forall s w r, span_space s = (w, r) -> P s w r.
Proof.
  intros Hstop Hstep s.
  remember (String.length s) as n eqn:En. revert s En.
  induction n as [n IH] using lt_wf_ind. intros s -> w r E.
  rewrite span_space_eq in E.
  destruct (white_space s) as [[t r0]|] eqn:Ew.
  - destruct (span_space r0) as [w0 r1] eqn:Er. injection E as <- <-.
    apply (Hstep _ _ _ _ _ Ew Er).
    apply white_space_sound in Ew as (-> & Ht).
    apply (IH (String.length r0)); [|reflexivity|exact Er].
    rewrite length_app. destruct t; [congruence|cbn; lia].
  - injection E as <- <-. now apply Hstop.
Qed.

(** [w] is a run of white-space characters. *)
Definition white (w : string) : Prop := span_space w = (w, EmptyString).

Lemma white_space_app s t r x :
  white_space s = Some (t, r) -> white_space (s ++ x) = Some (t, r ++ x).
Proof.
  unfold white_space. destruct s as [|a r1]; [discriminate|]. cbn [append].
  destruct (is_ascii_space a); [now intros [= <- <-]|].
  destruct r1 as [|b r2]; [discriminate|]. cbn [append].
  destruct (is_space2 a b); [now intros [= <- <-]|].
  destruct r2 as [|c r3]; [discriminate|]. cbn [append].
  destruct (is_space3 a b c); [now intros [= <- <-]|discriminate].
Qed.

Lemma white_space_prefix s x :
  white_space (s ++ x) = None -> white_space s = None.
Proof.
  intros E. destruct (white_space s) as [[t r]|] eqn:Es; [|reflexivity].
  now rewrite (white_space_app _ _ _ x Es) in E.
Qed.

(** A white-space character read off a text is one on its own. *)
Lemma white_space_token s t r :
  white_space s = Some (t, r) -> white_space t = Some (t, EmptyString).
Proof.
  unfold white_space at 1. destruct s as [|a r1]; [discriminate|].
  destruct (is_ascii_space a) eqn:Ea.
  { intros [= <- <-]. cbn. now rewrite Ea. }
  destruct r1 as [|b r2]; [discriminate|].
  destruct (is_space2 a b) eqn:Eb.
  { intros [= <- <-]. cbn. now rewrite Ea, Eb. }
  destruct r2 as [|c r3]; [discriminate|].
  destruct (is_space3 a b c) eqn:Ec; [|discriminate].
  intros [= <- <-]. cbn. now rewrite Ea, Eb, Ec.
Qed.

Lemma span_space_sound s w r :
  span_space s = (w, r) -> s = w ++ r /\ white w /\ white_space r = None.
Proof.
  revert s w r. apply span_space_ind.
  - intros s Hs. split; [reflexivity|]. split; [reflexivity | exact Hs].
  - intros s t r w r' Hw Er (-> & Hwhite & Hstop).
    pose proof (white_space_token _ _ _ Hw) as Ht.
    apply white_space_sound in Hw as (-> & Hne).
    split; [now rewrite append_assoc|]. split; [|exact Hstop].
    unfold white. rewrite span_space_eq.
    rewrite (white_space_app _ _ _ w Ht). cbn [append].
    now rewrite Hwhite.
Qed.

(** A run of white space followed by a text that starts with none. *)
Lemma span_space_complete w x :
  white w -> white_space x = None -> span_space (w ++ x) = (w, x).
Proof.
  unfold white. intros Hw Hx. revert Hw.
  generalize (eq_refl (span_space w)).
  generalize (span_space w) at 2 3. intros [w0 r0] E. revert x Hx.
  revert w w0 r0 E. refine (span_space_ind _ _ _).
  - intros s Hs x Hx [= E1 E2]. subst s. cbn [append].
    rewrite span_space_eq. now rewrite Hx.
  - intros s t r w r' Hw Er IH x Hx [= Es ->].
    pose proof (white_space_sound _ _ _ Hw) as (Hs & Hne).
    assert (Hr : r = w).
    { rewrite Hs in Es. clear -Es. revert Es. generalize dependent r.
      induction t as [|c t IHt]; cbn [append]; intros r E; [congruence|].
      injection E as E. now apply IHt. }
    subst r. rewrite span_space_eq.
    rewrite (white_space_app _ _ _ x Hw).
    rewrite (IH x Hx eq_refl). now rewrite Es.
Qed.

(** An ASCII character that is no white space stops a run. *)
Lemma white_space_stop c s :
  is_ascii_space c = false -> Z.of_N (N_of_ascii c) < 128 ->
  white_space (String c s) = None.
Proof.
  intros Hc Hlt. unfold white_space. rewrite Hc.
  destruct s as [|b r2]; [reflexivity|].
  assert (E2 : is_space2 c b = false).
  { unfold is_space2. destruct (Z.eqb_spec (Z.of_N (N_of_ascii c)) 194);
      [lia | reflexivity]. }
  rewrite E2. destruct r2 as [|d r3]; [reflexivity|].
  assert (E3 : is_space3 c b d = false).
  { unfold is_space3.
    destruct (Z.eqb_spec (Z.of_N (N_of_ascii c)) 225); [lia|].
    destruct (Z.eqb_spec (Z.of_N (N_of_ascii c)) 226); [lia|].
    destruct (Z.eqb_spec (Z.of_N (N_of_ascii c)) 227); [lia|].
    destruct (Z.eqb_spec (Z.of_N (N_of_ascii c)) 239); [lia|].
    reflexivity. }
  now rewrite E3.
Qed.

Lemma span_space_stop c s :
  is_ascii_space c = false -> Z.of_N (N_of_ascii c) < 128 ->
  span_space (String c s) = (EmptyString, String c s).
Proof.
  intros Hc Hlt. rewrite span_space_eq.
  now rewrite (white_space_stop c s Hc Hlt).
Qed.

(** Text after an ASCII character that is no white space has no part in
    the white space read in front of it. *)
Lemma white_space_past c x b :
  is_ascii_space c = false -> Z.of_N (N_of_ascii c) < 128 ->
  white_space (b ++ String c x)
  = match white_space b with
    | Some (t, r) => Some (t, r ++ String c x)
    | None => None
    end.
Proof.
  intros Hc Hlt.
  destruct (white_space b) as [[t r]|] eqn:Eb.
  { now apply white_space_app. }
  assert (E2 : forall a, is_space2 a c = false).
  { intros a. unfold is_space2.
    destruct (Z.eqb_spec (Z.of_N (N_of_ascii c)) 160); [lia|].
    now rewrite andb_false_r. }
  assert (E3 : forall a d, is_space3 a c d = false).
  { intros a d. unfold is_space3.
    destruct (Z.eqb_spec (Z.of_N (N_of_ascii c)) 154); [lia|].
    destruct (Z.eqb_spec (Z.of_N (N_of_ascii c)) 128); [lia|].
    destruct (Z.eqb_spec (Z.of_N (N_of_ascii c)) 129); [lia|].
    destruct (Z.eqb_spec (Z.of_N (N_of_ascii c)) 187); [lia|].
    now rewrite ?andb_false_r, ?andb_false_l. }
  assert (E3' : forall a d, is_space3 a d c = false).
  { intros a d. unfold is_space3.
    destruct (Z.eqb_spec (Z.of_N (N_of_ascii c)) 128); [lia|].
    destruct (Z.eqb_spec (Z.of_N (N_of_ascii c)) 168); [lia|].
    destruct (Z.eqb_spec (Z.of_N (N_of_ascii c)) 169); [lia|].
    destruct (Z.eqb_spec (Z.of_N (N_of_ascii c)) 175); [lia|].
    destruct (Z.eqb_spec (Z.of_N (N_of_ascii c)) 159); [lia|].
    destruct (Z.eqb_spec (Z.of_N (N_of_ascii c)) 191); [lia|].
    destruct (Z.leb_spec 128 (Z.of_N (N_of_ascii c))); [lia|].
    now rewrite ?andb_false_r, ?andb_false_l. }
  revert Eb. unfold white_space.
  destruct b as [|a r1]; cbn [append].
  { intros _. apply (white_space_stop c x Hc Hlt). }
  destruct (is_ascii_space a); [discriminate|].
  destruct r1 as [|b r2]; cbn [append].
  { intros _. rewrite E2. destruct x as [|d x]; [reflexivity|].
    now rewrite E3. }
  destruct (is_space2 a b); [discriminate|].
  destruct r2 as [|d r3]; cbn [append].
  { intros _. now rewrite E3'. }
  destruct (is_space3 a b d); [discriminate|reflexivity].
Qed.

Lemma span_space_past c x :
  is_ascii_space c = false -> Z.of_N (N_of_ascii c) < 128 ->
  forall b,
    span_space (b ++ String c x)
    = let '(w, r) := span_space b in (w, r ++ String c x).
Proof.
  intros Hc Hlt b.
  destruct (span_space b) as [w r] eqn:E. revert b w r E.
  apply span_space_ind.
  - intros s Hs. rewrite span_space_eq, (white_space_past c x s Hc Hlt).
    now rewrite Hs.
  - intros s t r w r' Hw Er IH.
    rewrite span_space_eq, (white_space_past c x s Hc Hlt), Hw.
    now rewrite IH.
Qed.

Lemma digit_not_space d :
  is_digit d = true ->
  is_ascii_space d = false /\ Z.of_N (N_of_ascii d) < 128.
Proof.
  intros Hd. apply is_digit_range in Hd. unfold is_ascii_space.
  split; [|lia].
  destruct (9 <=? _) eqn:E1, (_ <=? 13) eqn:E2, (_ =? 32) eqn:E3;
    try reflexivity; lia.
Qed.

(** *** Numbers *)

(** The integers a double counts one by one: up to [2^53]. *)
Definition safe (z : Z) : Prop := Z.abs z <= 9007199254740992.

Lemma round_magnitude_safe m :
  0 <= m <= 9007199254740992 -> round_magnitude m = Some m.
Proof.
  intros Hm. unfold round_magnitude.
  destruct (Z.ltb_spec m 9007199254740992) as [|Hge]; [reflexivity|].
  assert (m = 9007199254740992) as -> by lia. reflexivity.
Qed.

Lemma of_Z_safe z : safe z -> of_Z z = Int z.
Proof.
  unfold safe, of_Z. intros Hz.
  rewrite round_magnitude_safe by lia.
  destruct (Z.ltb_spec z 0); f_equal; lia.
Qed.

(** Rounding does not take a number from [2^53] on below [2^53]. *)
Lemma round_magnitude_large m m' :
  9007199254740992 <= m -> round_magnitude m = Some m' ->
  9007199254740992 <= m'.
Proof.
  intros Hm. unfold round_magnitude.
  destruct (Z.ltb_spec m 9007199254740992) as [|_]; [lia|].
  set (e := Z.log2 m - 52).
  assert (He : 1 <= e).
  { unfold e. assert (53 <= Z.log2 m); [|lia].
    change 53 with (Z.log2 9007199254740992). now apply Z.log2_le_mono. }
  assert (Hq : 4503599627370496 <= m / 2 ^ e).
  { pose proof (Z.log2_spec m ltac:(lia)) as [Hlo _].
    replace (Z.log2 m) with (52 + e) in Hlo by (unfold e; lia).
    rewrite Z.pow_add_r in Hlo by lia.
    apply Z.div_le_lower_bound; [apply Z.pow_pos_nonneg; lia|].
    change (2 ^ 52) with 4503599627370496 in Hlo. lia. }
  assert (Hp : 2 <= 2 ^ e).
  { change 2 with (2 ^ 1) at 1. apply Z.pow_le_mono_r; lia. }
  cbv zeta. fold e. set (q := m / 2 ^ e) in *.
  match goal with
  | |- context [if ?b then q + 1 else q] =>
      set (q' := if b then q + 1 else q);
      assert (Hq' : q <= q') by (unfold q'; destruct b; lia)
  end.
  destruct (q' * 2 ^ e <? 2 ^ 1024); [|discriminate]. intros [= <-]. nia.
Qed.

Lemma rounds_to_safe c z :
  0 <= c -> 0 <= z < 9007199254740992 -> rounds_to c z = true -> c = z.
Proof.
  intros Hc Hz. unfold rounds_to, of_Z. rewrite Z.abs_eq by lia.
  destruct (round_magnitude c) as [m|] eqn:E; [|discriminate].
  destruct (Z.ltb_spec c 0); [lia|]. intros Hm. apply Z.eqb_eq in Hm. subst m.
  destruct (Z.le_gt_cases 9007199254740992 c) as [Hbig|Hsmall].
  - pose proof (round_magnitude_large _ _ Hbig E). lia.
  - rewrite round_magnitude_safe in E by lia. congruence.
Qed.

Lemma shortest_from_nonneg fuel : forall scale z,
  0 <= scale -> 0 <= z -> 0 <= shortest_from fuel scale z.
Proof.
  induction fuel as [|f IH]; intros scale z Hs Hz; cbn [shortest_from];
    [exact Hz|].
  assert (Hlo : 0 <= z / scale * scale).
  { destruct (Z.eq_dec scale 0) as [->|]; [rewrite Z.mul_0_r; lia|].
    apply Z.mul_nonneg_nonneg; [apply Z.div_pos; lia | lia]. }
  destruct (_ && _); [exact Hlo|].
  destruct (rounds_to _ _); [lia|].
  apply IH; [|exact Hz].
  destruct (Z.eq_dec scale 0) as [->|]; [reflexivity|]. apply Z.div_pos; lia.
Qed.

Lemma shortest_from_safe fuel : forall scale z,
  0 <= scale -> 0 <= z < 9007199254740992 -> shortest_from fuel scale z = z.
Proof.
  induction fuel as [|f IH]; intros scale z Hs Hz; cbn [shortest_from];
    [reflexivity|].
  assert (Hlo : 0 <= z / scale * scale).
  { destruct (Z.eq_dec scale 0) as [->|]; [rewrite Z.mul_0_r; lia|].
    apply Z.mul_nonneg_nonneg; [apply Z.div_pos; lia | lia]. }
  destruct (rounds_to (z / scale * scale) z) eqn:E1; cbn [andb].
  - apply rounds_to_safe in E1; [|exact Hlo|exact Hz].
    destruct (_ || _); [exact E1|].
    destruct (rounds_to (z / scale * scale + scale) z) eqn:E2.
    + apply rounds_to_safe in E2; lia.
    + apply IH; [|exact Hz].
      destruct (Z.eq_dec scale 0) as [->|]; [reflexivity|]. apply Z.div_pos; lia.
  - destruct (rounds_to (z / scale * scale + scale) z) eqn:E2.
    + apply rounds_to_safe in E2; lia.
    + apply IH; [|exact Hz].
      destruct (Z.eq_dec scale 0) as [->|]; [reflexivity|]. apply Z.div_pos; lia.
Qed.

Lemma shortest_safe z : 0 <= z < 9007199254740992 -> shortest z = z.
Proof.
  intros Hz. unfold shortest. apply shortest_from_safe; [|exact Hz].
  apply Z.pow_nonneg. lia.
Qed.

Lemma shortest_nonneg z : 0 <= z -> 0 <= shortest z.
Proof.
  intros Hz. unfold shortest. apply shortest_from_nonneg; [|exact Hz].
  apply Z.pow_nonneg. lia.
Qed.

(** A double below [2^53] comes from that integer only. *)
Lemma of_Z_below x x' :
  0 <= x -> of_Z x = Int x' -> x' < 9007199254740992 -> x' = x.
Proof.
  intros Hx Ex Hlt.
  destruct (Z.le_gt_cases x 9007199254740992) as [Hs|Hl].
  - rewrite of_Z_safe in Ex by (unfold safe; lia). congruence.
  - exfalso. unfold of_Z in Ex. rewrite Z.abs_eq in Ex by lia.
    destruct (round_magnitude x) as [y|] eqn:Ey; [|discriminate].
    pose proof (round_magnitude_large x y ltac:(lia) Ey).
    destruct (Z.ltb_spec x 0); [lia|]. injection Ex as Ex. lia.
Qed.

(** Up to [2^53] a number is written with all its digits. *)
Lemma num_to_string_safe n :
  0 <= n <= 9007199254740992 -> num_to_string (Int n) = digits_of n.
Proof.
  intros Hn. destruct (Z.eq_dec n 9007199254740992) as [->|Hne].
  { vm_compute. reflexivity. }
  unfold num_to_string, magnitude_to_string.
  destruct (Z.ltb_spec n 0); [lia|]. rewrite (shortest_safe n) by lia.
  destruct (Z.ltb_spec n 1000000000000000000000); [reflexivity | lia].
Qed.

Lemma num_succ_safe z :
  - 9007199254740992 <= z < 9007199254740992 -> num_succ (Int z) = Int (z + 1).
Proof. intros Hz. cbn [num_succ]. apply of_Z_safe. unfold safe. lia. Qed.

(** What rounding gives from [2^53] on: a significand of 53 bits times a
    power of two. *)
Lemma round_magnitude_shape m m' :
  9007199254740992 <= m -> round_magnitude m = Some m' ->
  exists q e,
    m' = q * 2 ^ e /\ 1 <= e /\
    4503599627370496 <= q <= 9007199254740992 /\
    m / 2 ^ e <= q /\ m' < 2 ^ 1024.
Proof.
  intros Hm. unfold round_magnitude.
  destruct (Z.ltb_spec m 9007199254740992) as [|_]; [lia|].
  set (e := Z.log2 m - 52).
  assert (He : 1 <= e).
  { unfold e. assert (53 <= Z.log2 m); [|lia].
    change 53 with (Z.log2 9007199254740992). now apply Z.log2_le_mono. }
  pose proof (Z.log2_spec m ltac:(lia)) as [Hlo Hhi].
  replace (Z.log2 m) with (52 + e) in Hlo by (unfold e; lia).
  replace (Z.succ (Z.log2 m)) with (53 + e) in Hhi by (unfold e; lia).
  rewrite Z.pow_add_r in Hlo, Hhi by lia.
  change (2 ^ 52) with 4503599627370496 in Hlo.
  change (2 ^ 53) with 9007199254740992 in Hhi.
  assert (Hp : 0 < 2 ^ e) by (apply Z.pow_pos_nonneg; lia).
  assert (Hq : 4503599627370496 <= m / 2 ^ e < 9007199254740992).
  { split; [apply Z.div_le_lower_bound; lia|].
    apply Z.div_lt_upper_bound; lia. }
  cbv zeta. fold e. set (q := m / 2 ^ e) in *.
  match goal with
  | |- context [if ?b then q + 1 else q] =>
      set (q' := if b then q + 1 else q);
      assert (Hq' : q <= q' <= q + 1) by (unfold q'; destruct b; lia)
  end.
  destruct (Z.ltb_spec (q' * 2 ^ e) (2 ^ 1024)); [|discriminate].
  intros [= <-]. exists q', e. repeat split; lia.
Qed.

(** A double rounds to itself. *)
Lemma round_magnitude_idem m m' :
  0 <= m -> round_magnitude m = Some m' -> round_magnitude m' = Some m'.
Proof.
  intros Hm E.
  destruct (Z.lt_ge_cases m 9007199254740992) as [Hs|Hl].
  { rewrite round_magnitude_safe in E by lia. injection E as <-.
    apply round_magnitude_safe. lia. }
  destruct (round_magnitude_shape _ _ Hl E) as (q & e & -> & He & Hq & _ & Hmax).
  assert (Hp : 2 <= 2 ^ e).
  { change 2 with (2 ^ 1) at 1. apply Z.pow_le_mono_r; lia. }
  unfold round_magnitude.
  destruct (Z.ltb_spec (q * 2 ^ e) 9007199254740992) as [Hlt|_]; [nia|].
  destruct (Z.eq_dec q 9007199254740992) as [->|Hne].
  - assert (El : Z.log2 (9007199254740992 * 2 ^ e) = 53 + e).
    { change 9007199254740992 with (2 ^ 53). rewrite <- Z.pow_add_r by lia.
      apply Z.log2_pow2. lia. }
    rewrite El. replace (53 + e - 52) with (e + 1) by lia.
    assert (Ev : 9007199254740992 * 2 ^ e = 4503599627370496 * 2 ^ (e + 1)).
    { rewrite Z.pow_add_r by lia. lia. }
    rewrite Ev in *. rewrite Z.div_mul, Z.mod_mul by (apply Z.pow_nonzero; lia).
    assert (Hp' : 0 < 2 ^ (e + 1)) by (apply Z.pow_pos_nonneg; lia).
    destruct (Z.ltb_spec (2 ^ (e + 1)) (2 * 0)) as [|_]; [lia|].
    destruct (Z.eqb_spec (2 * 0) (2 ^ (e + 1))) as [|_]; [lia|].
    cbn [orb andb].
    destruct (Z.ltb_spec (4503599627370496 * 2 ^ (e + 1)) (2 ^ 1024));
      [reflexivity | lia].
  - assert (El : Z.log2 (q * 2 ^ e) = 52 + e).
    { apply Z.log2_unique; [lia|].
      replace (Z.succ (52 + e)) with (53 + e) by lia.
      rewrite !Z.pow_add_r by lia.
      change (2 ^ 52) with 4503599627370496.
      change (2 ^ 53) with 9007199254740992. nia. }
    rewrite El. replace (52 + e - 52) with e by lia.
    rewrite Z.div_mul, Z.mod_mul by lia.
    destruct (Z.ltb_spec (2 ^ e) (2 * 0)) as [|_]; [lia|].
    destruct (Z.eqb_spec (2 * 0) (2 ^ e)) as [|_]; [lia|].
    cbn [orb andb].
    destruct (Z.ltb_spec (q * 2 ^ e) (2 ^ 1024)); [reflexivity | lia].
Qed.

Lemma round_magnitude_nonneg m m' :
  0 <= m -> round_magnitude m = Some m' -> 0 <= m'.
Proof.
  intros Hm E.
  destruct (Z.lt_ge_cases m 9007199254740992) as [Hs|Hl].
  - rewrite round_magnitude_safe in E by lia. injection E as <-. lia.
  - pose proof (round_magnitude_large _ _ Hl E). lia.
Qed.

(** [z] is the value of a double. *)
Definition representable (z : Z) : Prop := of_Z z = Int z.

Lemma of_Z_representable z n : of_Z z = Int n -> representable n.
Proof.
  unfold representable, of_Z.
  destruct (round_magnitude (Z.abs z)) as [m|] eqn:E; [|discriminate].
  pose proof (round_magnitude_nonneg _ _ (Z.abs_nonneg z) E) as Hm.
  pose proof (round_magnitude_idem _ _ (Z.abs_nonneg z) E) as Hi.
  intros [= <-].
  destruct (Z.ltb_spec z 0).
  - rewrite Z.abs_opp, Z.abs_eq, Hi by lia.
    destruct (Z.ltb_spec (- m) 0); [reflexivity | f_equal; lia].
  - rewrite Z.abs_eq, Hi by lia.
    destruct (Z.ltb_spec m 0); [lia | reflexivity].
Qed.

Lemma representable_opp n : representable n -> representable (- n).
Proof.
  unfold representable, of_Z. rewrite Z.abs_opp.
  destruct (round_magnitude (Z.abs n)) as [m|] eqn:E; [|discriminate].
  pose proof (round_magnitude_nonneg _ _ (Z.abs_nonneg n) E) as Hm.
  destruct (Z.ltb_spec n 0), (Z.ltb_spec (- n) 0); intros [= Hn]; f_equal; lia.
Qed.

Lemma safe_representable z : safe z -> representable z.
Proof. apply of_Z_safe. Qed.

(** Rounding does not take a number from [10^21] on below [10^21]. *)
Lemma round_magnitude_e21 m m' :
  1000000000000000000000 <= m -> round_magnitude m = Some m' ->
  1000000000000000000000 <= m'.
Proof.
  intros Hm E.
  destruct (round_magnitude_shape m m' ltac:(lia) E)
    as (q & e & -> & He & Hq & Hdiv & _).
  assert (Hp : 0 < 2 ^ e) by (apply Z.pow_pos_nonneg; lia).
  destruct (Z.le_gt_cases e 21) as [Hsmall|Hbig].
  - (* 10^21 is a multiple of 2^e *)
    assert (Hmul : 1000000000000000000000
                   = 476837158203125 * 2 ^ (21 - e) * 2 ^ e).
    { rewrite <- Z.mul_assoc, <- Z.pow_add_r by lia.
      replace (21 - e + e) with 21 by lia. reflexivity. }
    assert (476837158203125 * 2 ^ (21 - e) <= m / 2 ^ e).
    { apply Z.div_le_lower_bound; lia. }
    nia.
  - assert (2 ^ 22 <= 2 ^ e) by (apply Z.pow_le_mono_r; lia).
    change (2 ^ 22) with 4194304 in *. nia.
Qed.

Lemma shortest_from_rounds fuel : forall scale z,
  rounds_to z z = true -> rounds_to (shortest_from fuel scale z) z = true.
Proof.
  induction fuel as [|f IH]; intros scale z Hz; cbn [shortest_from];
    [exact Hz|].
  destruct (rounds_to (z / scale * scale) z) eqn:E1; cbn [andb].
  - destruct (_ || _); [exact E1|].
    destruct (rounds_to (z / scale * scale + scale) z) eqn:E2; [exact E2|].
    now apply IH.
  - destruct (rounds_to (z / scale * scale + scale) z) eqn:E2; [exact E2|].
    now apply IH.
Qed.

Lemma rounds_to_spec c z : rounds_to c z = true <-> of_Z c = Int z.
Proof.
  unfold rounds_to. destruct (of_Z c) as [z'| |]; split; try discriminate.
  - intros E. apply Z.eqb_eq in E. now subst.
  - intros [= ->]. apply Z.eqb_refl.
Qed.

(** The numeral written for a double reads back as that double. *)
Lemma shortest_reads_back z :
  representable z -> 0 <= z ->
  0 <= shortest z /\ of_Z (shortest z) = Int z.
Proof.
  intros Hr Hz. split; [now apply shortest_nonneg|].
  apply rounds_to_spec. unfold shortest. apply shortest_from_rounds.
  now apply rounds_to_spec.
Qed.

Lemma shortest_below_e21 z :
  representable z -> 0 <= z < 1000000000000000000000 ->
  shortest z < 1000000000000000000000.
Proof.
  intros Hr Hz. destruct (shortest_reads_back z Hr ltac:(lia)) as (Hc & E).
  destruct (Z.lt_ge_cases (shortest z) 1000000000000000000000) as [|Hbig];
    [assumption|].
  exfalso. unfold of_Z in E. rewrite Z.abs_eq in E by lia.
  destruct (round_magnitude (shortest z)) as [m|] eqn:Em; [|discriminate].
  pose proof (round_magnitude_e21 _ _ Hbig Em).
  destruct (Z.ltb_spec (shortest z) 0); [lia|]. injection E as E. lia.
Qed.

(** Below [10^21] a double is written as a numeral that [parseInt] reads
    back as the same double. *)
Lemma num_to_string_reads_back z :
  representable z -> 0 <= z < 1000000000000000000000 ->
  exists c, num_to_string (Int z) = digits_of c /\ 0 <= c /\ of_Z c = Int z.
Proof.
  intros Hr Hz. exists (shortest z).
  destruct (shortest_reads_back z Hr ltac:(lia)) as (Hc & E).
  pose proof (shortest_below_e21 z Hr Hz) as Hlt.
  split; [|now split].
  unfold num_to_string, magnitude_to_string.
  destruct (Z.ltb_spec z 0); [lia|].
  destruct (Z.ltb_spec (shortest z) 1000000000000000000000); [reflexivity|lia].
Qed.

(** A numeral does not start with [0x]. *)
Lemma parse_unsigned_digits s :
  all_chars is_digit s = true -> s <> EmptyString ->
  parse_unsigned s = of_Z (digits_value 0 s).
Proof.
  intros Hall Hne.
  assert (Hspan : span is_digit s = (s, EmptyString)).
  { rewrite <- (append_nil_r s) at 1.
    apply span_complete; [exact Hall | exact I]. }
  assert (Hdec :
    (let '(run, _) := span is_digit s in
     match run with EmptyString => NaN | _ => of_Z (digits_value 0 run) end)
    = of_Z (digits_value 0 s)).
  { rewrite Hspan. destruct s; [congruence | reflexivity]. }
  unfold parse_unsigned.
  destruct s as [|c0 [|c1 r]]; try exact Hdec.
  cbn [all_chars] in Hall.
  apply andb_prop in Hall as [_ Hall]. apply andb_prop in Hall as [H1 _].
  apply is_digit_range in H1.
  destruct (Ascii.eqb_spec c1 "x") as [->|_]; [cbn in H1; lia|].
  destruct (Ascii.eqb_spec c1 "X") as [->|_]; [cbn in H1; lia|].
  rewrite andb_false_r. exact Hdec.
Qed.

(** [parseInt] reads a run of decimal digits as its value, rounded to a
    double. *)
Lemma parseInt_digits s :
  all_chars is_digit s = true -> s <> EmptyString ->
  parseInt_string s = of_Z (digits_value 0 s).
Proof.
  intros Hall Hne. pose proof (parse_unsigned_digits s Hall Hne) as P.
  destruct s as [|c s]; [congruence|].
  simpl in Hall. apply andb_prop in Hall as [Hc Hs].
  destruct (digit_not_space c Hc) as [Hsp Hlt].
  unfold parseInt_string. rewrite (span_space_stop c s Hsp Hlt).
  apply is_digit_range in Hc.
  destruct (Ascii.eqb_spec c "-") as [->|_]; [cbn in Hc; lia|].
  destruct (Ascii.eqb_spec c "+") as [->|_]; [cbn in Hc; lia|].
  exact P.
Qed.

(** Every number [parseInt] returns is a double. *)
Lemma parse_unsigned_representable s n :
  parse_unsigned s = Int n -> representable n.
Proof.
  unfold parse_unsigned.
  assert (Hdec :
    (let '(run, _) := span is_digit s in
     match run with EmptyString => NaN | _ => of_Z (digits_value 0 run) end)
    = Int n -> representable n).
  { destruct (span is_digit s) as [[|c run] ?]; [discriminate|].
    apply of_Z_representable. }
  destruct s as [|c0 [|c1 r]]; try exact Hdec.
  destruct (_ && _); [|exact Hdec].
  destruct (span _ r) as [[|c run] ?]; [discriminate|].
  apply of_Z_representable.
Qed.

Lemma parseInt_representable s n :
  parseInt_string s = Int n -> representable n.
Proof.
  unfold parseInt_string. destruct (span_space s) as [w t].
  destruct t as [|c r]; [apply parse_unsigned_representable|].
  destruct (Ascii.eqb c "-").
  - destruct (parse_unsigned r) as [z| |] eqn:E; try discriminate.
    cbn [num_neg]. intros [= <-]. apply representable_opp.
    eapply parse_unsigned_representable, E.
  - destruct (Ascii.eqb c "+"); apply parse_unsigned_representable.
Qed.

Lemma num_succ_representable k n : num_succ k = Int n -> representable n.
Proof.
  destruct k as [z| |]; try discriminate. cbn [num_succ].
  apply of_Z_representable.
Qed.

Lemma digits_value_nonneg s acc :
  all_chars is_digit s = true -> 0 <= acc -> 0 <= digits_value acc s.
Proof.
  revert acc. induction s as [|c s IH]; simpl; intros acc Hall Hacc; [lia|].
  apply andb_prop in Hall as [Hc Hs]. apply IH; [exact Hs|].
  apply is_digit_range in Hc. unfold digit_val. lia.
Qed.

(** Within the safe integers [parseInt] is exact on numerals. *)
Lemma parseInt_digits_safe s :
  all_chars is_digit s = true -> s <> EmptyString ->
  digits_value 0 s <= 9007199254740992 ->
  parseInt_string s = Int (digits_value 0 s).
Proof.
  intros Hall Hne Hv. rewrite (parseInt_digits s Hall Hne).
  apply of_Z_safe. unfold safe.
  pose proof (digits_value_nonneg s 0 Hall ltac:(lia)). lia.
Qed.

(** A double below [10^21] in magnitude is read back by [parseInt] from
    the text written for it. *)
Lemma parseInt_num_to_string z :
  representable z -> Z.abs z < 1000000000000000000000 ->
  parseInt_string (num_to_string (Int z)) = Int z.
Proof.
  intros Hr Hz. destruct (Z.ltb_spec z 0) as [Hneg|Hpos].
  - destruct (num_to_string_reads_back (- z) (representable_opp _ Hr)
                ltac:(lia)) as (c & E & Hc & Hback).
    assert (En : num_to_string (Int z) = String "-" (digits_of c)).
    { revert E. unfold num_to_string.
      destruct (Z.ltb_spec z 0); [|lia]. destruct (Z.ltb_spec (- z) 0); [lia|].
      now intros ->. }
    rewrite En.
    destruct (digits_of_spec c Hc) as (Hall & Hne & Hval).
    unfold parseInt_string.
    rewrite (span_space_stop "-" (digits_of c)) by (cbn; try reflexivity; lia).
    cbn [Ascii.eqb Bool.eqb].
    rewrite (parse_unsigned_digits _ Hall Hne), Hval, Hback.
    cbn [num_neg]. f_equal. lia.
  - destruct (num_to_string_reads_back z Hr ltac:(lia))
      as (c & E & Hc & Hback).
    rewrite E. destruct (digits_of_spec c Hc) as (Hall & Hne & Hval).
    now rewrite (parseInt_digits _ Hall Hne), Hval.
Qed.

End TextFacts.

(** ** Version arithmetic *)

Module VersionFacts.
Import Text JS Version TextFacts.

(** A numeral: a non-empty run of decimal digits. *)
Definition numeral (s : string) : Prop :=
  all_chars is_digit s = true /\ s <> EmptyString.

(** [v] is the text [a.b.c] for three numerals: the valid version strings of
    the specification. *)
Definition valid_version (v a b c : string) : Prop :=
  numeral a /\ numeral b /\ numeral c /\ v = a ++ "." ++ b ++ "." ++ c.

Definition unparseable (v : string) : Prop :=
  ~ exists a b c, valid_version v a b c.

Definition unrecognized (kind : string) : Prop :=
  kind <> "major" /\ kind <> "minor" /\ kind <> "patch".

(** [parseSemanticVersion(incrementSemanticVersion(v, kind))] *)
Definition increment_then_parse (v kind : string) : exn + SemanticVersion :=
  match incrementSemanticVersion v kind with
  | inl e => inl e
  | inr s => parseSemanticVersion s
  end.

Lemma dot_not_digit : is_digit "." = false.
Proof. reflexivity. Qed.

Lemma match_version_complete a b c :
  numeral a -> numeral b -> numeral c ->
  match_version (a ++ "." ++ b ++ "." ++ c) = Some (a, b, c).
Proof.
  intros [Ha Hna] [Hb Hnb] [Hc Hnc]. unfold match_version.
  rewrite (span_complete is_digit a ("." ++ b ++ "." ++ c) Ha)
    by (simpl; exact dot_not_digit).
  destruct a as [|x a]; [congruence|]. cbn [append].
  rewrite (span_complete is_digit b (String "." c) Hb) by exact dot_not_digit.
  destruct b as [|y b]; [congruence|].
  rewrite <- (append_nil_r c) at 1.
  rewrite (span_complete is_digit c EmptyString Hc) by exact I.
  destruct c as [|z c]; [congruence|]. reflexivity.
Qed.

Lemma match_version_sound v a b c :
  match_version v = Some (a, b, c) -> valid_version v a b c.
Proof.
  unfold match_version, valid_version, numeral. intros E.
  destruct (span is_digit v) as [a' r1] eqn:E1.
  destruct a' as [|x a']; [discriminate|].
  destruct r1 as [|d1 r1]; [discriminate|].
  destruct (Ascii.eqb_spec d1 ".") as [->|Hd1].
  2:{ exfalso. revert E.
      destruct d1 as [[] [] [] [] [] [] [] []]; try discriminate.
      congruence. }
  destruct (span is_digit r1) as [b' r2] eqn:E2.
  destruct b' as [|y b']; [discriminate|].
  destruct r2 as [|d2 r2]; [discriminate|].
  destruct (Ascii.eqb_spec d2 ".") as [->|Hd2].
  2:{ exfalso. revert E.
      destruct d2 as [[] [] [] [] [] [] [] []]; try discriminate.
      congruence. }
  destruct (span is_digit r2) as [c' r3] eqn:E3.
  destruct c' as [|z c']; [discriminate|].
  destruct r3; [|discriminate].
  inversion E; subst a b c.
  apply span_sound in E1 as (-> & H1 & _).
  apply span_sound in E2 as (-> & H2 & _).
  apply span_sound in E3 as (-> & H3 & _).
  rewrite append_nil_r.
  repeat split; try assumption; discriminate.
Qed.

Lemma match_version_None v : unparseable v -> match_version v = None.
Proof.
  intros Hu. destruct (match_version v) as [[[a b] c]|] eqn:E; [|reflexivity].
  exfalso. apply Hu. exists a, b, c. now apply match_version_sound.
Qed.

Lemma numeral_digits_of n : 0 <= n -> numeral (digits_of n).
Proof. intros Hn. destruct (digits_of_spec n Hn) as (? & ? & ?). now split. Qed.

Lemma parse_numeral s : numeral s -> parseInt_string s = of_Z (digits_value 0 s).
Proof. intros [Ha Hn]. now apply parseInt_digits. Qed.

Lemma numeral_nonneg s : numeral s -> 0 <= digits_value 0 s.
Proof. intros [Ha _]. apply digits_value_nonneg; [exact Ha | lia]. Qed.

(** Parsing the rendering of three safe non-negative integers gives them
    back. *)
Lemma parse_render x y z :
  0 <= x <= 9007199254740992 -> 0 <= y <= 9007199254740992 ->
  0 <= z <= 9007199254740992 ->
  parseSemanticVersion
    (num_to_string (Int x) ++ "." ++ num_to_string (Int y) ++ "."
       ++ num_to_string (Int z))
  = inr {| major := Int x; minor := Int y; patch := Int z |}.
Proof.
  intros Hx Hy Hz. unfold parseSemanticVersion.
  rewrite !num_to_string_safe by assumption.
  rewrite match_version_complete by (apply numeral_digits_of; lia).
  rewrite !parse_numeral by (apply numeral_digits_of; lia).
  destruct (digits_of_spec x ltac:(lia)) as (_ & _ & ->).
  destruct (digits_of_spec y ltac:(lia)) as (_ & _ & ->).
  destruct (digits_of_spec z ltac:(lia)) as (_ & _ & ->).
  rewrite !of_Z_safe by (unfold safe; lia).
  reflexivity.
Qed.

Lemma parse_valid v a b c :
  valid_version v a b c ->
  parseSemanticVersion v
  = inr {| major := of_Z (digits_value 0 a); minor := of_Z (digits_value 0 b);
           patch := of_Z (digits_value 0 c) |}.
Proof.
  intros (Ha & Hb & Hc & ->). unfold parseSemanticVersion.
  rewrite match_version_complete by assumption.
  now rewrite !parse_numeral by assumption.
Qed.

(** Parsing the rendering of three numbers gives them back when each is a
    JavaScript number below [10^21], where the rendering is still the plain
    decimal numeral. *)
Definition kept (n : Z) : Prop := representable n /\ n < 10 ^ 21.

Lemma safe_kept n : 0 <= n <= 9007199254740992 -> kept n.
Proof.
  intros Hn. split; [apply safe_representable; unfold safe; lia|].
  change (10 ^ 21) with 1000000000000000000000. lia.
Qed.

Lemma parse_render_kept x y z :
  0 <= x -> 0 <= y -> 0 <= z -> kept x -> kept y -> kept z ->
  parseSemanticVersion
    (num_to_string (Int x) ++ "." ++ num_to_string (Int y) ++ "."
       ++ num_to_string (Int z))
  = inr {| major := Int x; minor := Int y; patch := Int z |}.
Proof.
  unfold kept. change (10 ^ 21) with 1000000000000000000000.
  intros Hx Hy Hz [Rx Bx] [Ry By] [Rz Bz]. unfold parseSemanticVersion.
  destruct (num_to_string_reads_back x Rx ltac:(lia)) as (cx & -> & Hcx & Ex).
  destruct (num_to_string_reads_back y Ry ltac:(lia)) as (cy & -> & Hcy & Ey).
  destruct (num_to_string_reads_back z Rz ltac:(lia)) as (cz & -> & Hcz & Ez).
  rewrite match_version_complete by (apply numeral_digits_of; lia).
  rewrite !parse_numeral by (apply numeral_digits_of; lia).
  destruct (digits_of_spec cx Hcx) as (_ & _ & ->).
  destruct (digits_of_spec cy Hcy) as (_ & _ & ->).
  destruct (digits_of_spec cz Hcz) as (_ & _ & ->).
  now rewrite Ex, Ey, Ez.
Qed.

(** C5 as amended. Let [v = a.b.c] be a valid version string with the
    numbers [M], [m], [p]. [parseSemanticVersion(incrementSemanticVersion(v,
    kind))] is [{M, m, p+1}] for [patch], [{M, m+1, 0}] for [minor] and
    [{M+1, 0, 0}] for [major] when the incremented number is below [2^53],
    the range in which a JavaScript number counts the integers one by one,
    and each number that is kept is a JavaScript number below [10^21], so
    that it is read and written as it stands; every number below [2^53] is
    one. An unrecognised kind fails with an error naming the kind, and a
    string that is not a valid version fails with an error naming the
    string. *)
Theorem increment_one_step (v kind : string) :
  (forall a b c, valid_version v a b c ->
     let M := digits_value 0 a in
     let m := digits_value 0 b in
     let p := digits_value 0 c in
     (kept M -> kept m -> p < 2 ^ 53 ->
      increment_then_parse v "patch"
        = inr {| major := Int M; minor := Int m; patch := Int (p + 1) |}) /\
     (kept M -> m < 2 ^ 53 ->
      increment_then_parse v "minor"
        = inr {| major := Int M; minor := Int (m + 1); patch := Int 0 |}) /\
     (M < 2 ^ 53 ->
      increment_then_parse v "major"
        = inr {| major := Int (M + 1); minor := Int 0; patch := Int 0 |}) /\
     (forall n, 0 <= n < 2 ^ 53 -> kept n) /\
     (unrecognized kind ->
        incrementSemanticVersion v kind
          = inl ("Invalid increment type: " ++ kind))) /\
  (unparseable v ->
     incrementSemanticVersion v kind = inl ("Invalid version format: " ++ v)).
Proof.
  split.
  - intros a b c Hv M m p.
    pose proof (parse_valid _ _ _ _ Hv) as Hp.
    destruct Hv as (Ha & Hb & Hc & _).
    apply numeral_nonneg in Ha, Hb, Hc. fold M in Ha. fold m in Hb.
    fold p in Hc.
    unfold increment_then_parse, incrementSemanticVersion. rewrite Hp.
    fold M m p. change (2 ^ 53) with 9007199254740992.
    split; [|split; [|split; [|split]]].
    + intros HM Hm Hpp. rewrite (proj1 HM), (proj1 Hm).
      rewrite (of_Z_safe p) by (unfold safe; lia).
      cbn [major minor patch String.eqb Ascii.eqb Bool.eqb].
      rewrite num_succ_safe by lia.
      apply parse_render_kept; try assumption; try lia.
      apply safe_kept; lia.
    + intros HM Hm. rewrite (proj1 HM).
      rewrite (of_Z_safe m) by (unfold safe; lia).
      cbn [major minor patch String.eqb Ascii.eqb Bool.eqb].
      rewrite num_succ_safe by lia.
      apply parse_render_kept; try assumption; try lia;
        apply safe_kept; lia.
    + intros HM. rewrite (of_Z_safe M) by (unfold safe; lia).
      cbn [major minor patch String.eqb Ascii.eqb Bool.eqb].
      rewrite num_succ_safe by lia.
      apply parse_render_kept; try lia; apply safe_kept; lia.
    + intros n Hn. apply safe_kept. lia.
    + intros (H1 & H2 & H3).
      apply String.eqb_neq in H1, H2, H3. now rewrite H1, H2, H3.
  - intros Hu. unfold incrementSemanticVersion, parseSemanticVersion.
    now rewrite (match_version_None _ Hu).
Qed.

Lemma increment_one_step_witness :
  valid_version "1.2.3" "1" "2" "3" /\
  increment_then_parse "1.2.3" "patch"
    = inr {| major := Int 1; minor := Int 2; patch := Int 4 |} /\
  increment_then_parse "1.2.3" "minor"
    = inr {| major := Int 1; minor := Int 3; patch := Int 0 |} /\
  increment_then_parse "1.2.3" "major"
    = inr {| major := Int 2; minor := Int 0; patch := Int 0 |} /\
  valid_version "1152921504606846976.2.3" "1152921504606846976" "2" "3" /\
  kept 1152921504606846976 /\
  increment_then_parse "1152921504606846976.2.3" "patch"
    = inr {| major := Int 1152921504606846976; minor := Int 2;
             patch := Int 4 |}.
Proof.
  assert (Hv : valid_version "1.2.3" "1" "2" "3").
  { repeat split; try reflexivity; discriminate. }
  assert (Hw : valid_version "1152921504606846976.2.3" "1152921504606846976"
                 "2" "3").
  { repeat split; try reflexivity; discriminate. }
  assert (Hk : kept 1152921504606846976).
  { split; [vm_compute; reflexivity | reflexivity]. }
  destruct (increment_one_step "1.2.3" "patch") as [H _].
  destruct (H "1" "2" "3" Hv) as (Hpatch & Hminor & Hmajor & Hsafe & _).
  destruct (increment_one_step "1152921504606846976.2.3" "patch") as [H' _].
  destruct (H' "1152921504606846976" "2" "3" Hw) as (Hpatch' & _).
  split; [exact Hv|].
  split; [apply Hpatch; [apply Hsafe | apply Hsafe | ]; now vm_compute|].
  split; [apply Hminor; [apply Hsafe | ]; now vm_compute|].
  split; [apply Hmajor; now vm_compute|].
  split; [exact Hw|]. split; [exact Hk|].
  apply Hpatch'; [exact Hk | apply Hsafe; now vm_compute | now vm_compute].
Defined.

(** C5 as stated fails from [2^53] on: [9007199254740992 + 1] is not a
    JavaScript number and the sum is [9007199254740992] again, so
    incrementing the patch of [1.2.9007199254740992] gives the same
    version back. (From [10^21] on the incremented number is written in
    exponent notation and the result is not a version string at all.) *)
Lemma increment_stalls_at_2_53 :
  ~ (forall v a b c, valid_version v a b c ->
       increment_then_parse v "patch"
       = inr {| major := Int (digits_value 0 a);
                minor := Int (digits_value 0 b);
                patch := Int (digits_value 0 c + 1) |}).
Proof.
  intros Hclaim.
  specialize (Hclaim "1.2.9007199254740992" "1" "2" "9007199254740992").
  assert (Hv : valid_version "1.2.9007199254740992" "1" "2"
                 "9007199254740992").
  { repeat split; try reflexivity; discriminate. }
  specialize (Hclaim Hv).
  assert (E : increment_then_parse "1.2.9007199254740992" "patch"
              = inr {| major := Int 1; minor := Int 2;
                       patch := Int 9007199254740992 |})
    by (vm_compute; reflexivity).
  rewrite E in Hclaim. vm_compute in Hclaim. discriminate Hclaim.
Qed.

(** From [10^21] on the incremented version is not a version string. *)
Lemma increment_leaves_the_format :
  incrementSemanticVersion "1.2.1000000000000000000000" "patch"
    = inr "1.2.1e+21" /\
  increment_then_parse "1.2.1000000000000000000000" "patch"
    = inl "Invalid version format: 1.2.1e+21".
Proof. vm_compute. split; reflexivity. Qed.

(** C3 as amended. [calculateNewBuildNumber] returns the parsed integer of
    [userValue] exactly when [userValue] is truthy and is not [true]: a
    non-empty string (so the string "0") and a non-zero number are
    overrides, while [true], the empty string, [false], [null], [undefined]
    and the number zero all give [parseInt(currentValue) + 1], a sum of
    JavaScript numbers (it is [9007199254740992] again for the current value
    [9007199254740992]). A number given as override comes back as it is
    when it is a double below [10^21] in magnitude. *)
Theorem build_number_policy (currentValue : value) :
  (forall u, truthy u = true -> u <> VBool true ->
             calculateNewBuildNumber u currentValue = parseInt u) /\
  (forall u, truthy u = false \/ u = VBool true ->
             calculateNewBuildNumber u currentValue
             = num_succ (parseInt currentValue)) /\
  (forall s, calculateNewBuildNumber (VStr s) currentValue
             = if String.eqb s EmptyString
               then num_succ (parseInt currentValue)
               else parseInt_string s) /\
  (forall z, representable z -> Z.abs z < 10 ^ 21 ->
             calculateNewBuildNumber (VNum (Int z)) currentValue
             = if z =? 0 then num_succ (parseInt currentValue) else Int z) /\
  (forall u, In u [VBool true; VBool false; VNull; VUndefined; VNum NaN] ->
             calculateNewBuildNumber u currentValue
             = num_succ (parseInt currentValue)) /\
  calculateNewBuildNumber (VBool true) (VStr "41") = Int 42 /\
  calculateNewBuildNumber (VStr "99") (VStr "41") = Int 99 /\
  calculateNewBuildNumber (VStr "0") (VStr "10") = Int 0 /\
  calculateNewBuildNumber (VStr "") (VStr "10") = Int 11 /\
  calculateNewBuildNumber (VBool false) (VStr "10") = Int 11 /\
  calculateNewBuildNumber (VBool true) (VStr "9007199254740992")
    = Int 9007199254740992.
Proof.
  split; [|split; [|split; [|split; [|split]]]].
  - intros u Ht Hne. unfold calculateNewBuildNumber, is_explicit. rewrite Ht.
    destruct u as [| |[]| | | |]; try reflexivity. congruence.
  - intros u [Hf | ->]; [|reflexivity].
    unfold calculateNewBuildNumber, is_explicit. now rewrite Hf.
  - intros s. unfold calculateNewBuildNumber, is_explicit.
    cbn [truthy]. rewrite andb_true_r. now destruct (String.eqb s EmptyString).
  - intros z Hr Hz. unfold calculateNewBuildNumber, is_explicit.
    cbn [truthy]. rewrite andb_true_r. destruct (z =? 0); [reflexivity|].
    cbn [negb]. unfold parseInt. cbn [JS.to_string].
    apply parseInt_num_to_string; [exact Hr|].
    change (10 ^ 21) with 1000000000000000000000 in Hz. exact Hz.
  - intros u Hu. simpl in Hu.
    repeat (destruct Hu as [<- | Hu]; [reflexivity|]). destruct Hu.
  - vm_compute. repeat split; reflexivity.
Qed.

Lemma build_number_policy_witness :
  In (VBool false) [VBool true; VBool false; VNull; VUndefined; VNum NaN] /\
  calculateNewBuildNumber (VBool false) (VStr "10")
    = num_succ (parseInt (VStr "10")) /\
  representable 5 /\ Z.abs 5 < 10 ^ 21 /\
  calculateNewBuildNumber (VNum (Int 5)) (VStr "10") = Int 5.
Proof.
  assert (Hin : In (VBool false)
                  [VBool true; VBool false; VNull; VUndefined; VNum NaN]).
  { simpl. auto. }
  assert (Hr : representable 5) by reflexivity.
  assert (Hb : Z.abs 5 < 10 ^ 21) by reflexivity.
  destruct (build_number_policy (VStr "10")) as (_ & _ & _ & Hn & H & _).
  split; [exact Hin|]. split; [exact (H (VBool false) Hin)|].
  split; [exact Hr|]. split; [exact Hb|]. exact (Hn 5 Hr Hb).
Defined.

(** C3 as stated fails on the number zero: it is supplied and is not
    [true], nor the empty string, [false], [null] or [undefined], yet the
    result is the incremented current value and not the parsed zero. *)
Lemma numeric_zero_auto_increments :
  ~ (forall userValue currentValue,
       userValue <> VBool true -> userValue <> VStr EmptyString ->
       userValue <> VBool false -> userValue <> VUndefined ->
       userValue <> VNull ->
       calculateNewBuildNumber userValue currentValue = parseInt userValue).
Proof.
  intros Hclaim.
  specialize (Hclaim (VNum (Int 0)) (VStr "10")).
  assert (E : calculateNewBuildNumber (VNum (Int 0)) (VStr "10") = Int 11)
    by (vm_compute; reflexivity).
  rewrite E in Hclaim.
  assert (P : parseInt (VNum (Int 0)) = Int 0) by (vm_compute; reflexivity).
  rewrite P in Hclaim.
  specialize (Hclaim ltac:(discriminate) ltac:(discriminate)
                ltac:(discriminate) ltac:(discriminate) ltac:(discriminate)).
  discriminate Hclaim.
Qed.

End VersionFacts.

(** ** The mutators on concrete projects *)

Module Examples.
Import Text JS Version Regex Path Run.

Definition gradle_path : path := ["app"; "android"; "app"; "build.gradle"].
Definition pbxproj_path : path :=
  ["app"; "ios"; "App.xcodeproj"; "project.pbxproj"].
Definition package_path : path := ["app"; "package.json"].

Definition gradle_text (code name : string) : string :=
  "versionCode " ++ code ++ Json.nl ++ "versionName " ++ quoted name.

(** Two build configurations, as in a project file with Debug and
    Release. *)
Definition pbxproj_text (build marketing : string) : string :=
  "CURRENT_PROJECT_VERSION = " ++ build ++ ";" ++ Json.nl
  ++ "MARKETING_VERSION = " ++ marketing ++ ";" ++ Json.nl
  ++ "CURRENT_PROJECT_VERSION = " ++ build ++ ";" ++ Json.nl
  ++ "MARKETING_VERSION = " ++ marketing ++ ";".

Definition run_options (dry : bool) (pkg : option path) : options :=
  {| projectRoot := Some ["app"]; dryRun := dry; increment := Some "major";
     changes := []; packageJsonPath := pkg; packageJsonUpdated := false |}.

Definition project (fs : gmap path node) (dry : bool) (pkg : option path)
  : state :=
  {| files := fs; cwd := ["app"]; console := [];
     opts := run_options dry pkg |}.

Definition android_only : gmap path node :=
  {[ gradle_path := File (gradle_text "1" "1.0.0") ]}.

End Examples.

Module AndroidSkip.
Import Text JS Version Regex Path Run Examples.

(** C1 at the failing input: [updateAndroidVersions([build.gradle], null,
    true, options)] on a file holding [versionCode 1] and
    [versionName "1.0.0"]. The request for [versionCode] is [null], yet the
    file is rewritten with [versionCode 2] and a [versionCode] change record
    [1 -> 2] is appended. *)
Theorem android_versionCode_skip_ignored `{Platform} :
  let st := project android_only false None in
  let r := updateAndroidVersions [gradle_path] VNull (VBool true) st in
  r.1 = inr [{| a_filePath := gradle_path; a_versionCode := Int 2;
                a_versionName := VStr "2.0.0" |}] /\
  files st !! gradle_path = Some (File (gradle_text "1" "1.0.0")) /\
  files r.2 !! gradle_path = Some (File (gradle_text "2" "2.0.0")) /\
  changes (opts r.2)
  = [{| platform := "Android"; file := "android/app/build.gradle";
        item := "versionCode"; oldValue := VStr "1";
        newValue := VNum (Int 2) |};
     {| platform := "Android"; file := "android/app/build.gradle";
        item := "versionName"; oldValue := VStr "1.0.0";
        newValue := VStr "2.0.0" |}].
Proof. vm_compute. repeat split; reflexivity. Qed.

End AndroidSkip.

(** ** Files that are missing or carry no version fields *)

Section Stepping.
Import Run.

Lemma bind_eq {A B} (m : M A) (k : A -> M B) st :
  (m ≫= k) st =
  match m st with
  | (inl e, st') => (inl e, st')
  | (inr a, st') => k a st'
  end.
Proof. reflexivity. Qed.

End Stepping.

(** Run a monadic computation one bind at a time, using the facts at hand
    about the files. *)
Ltac mstep :=
  first
    [ rewrite bind_eq
    | progress cbv beta iota
    | progress cbn [negb andb orb fst snd present default from_option id
                    Run.files Run.cwd Run.console Run.opts Run.projectRoot
                    Run.dryRun Run.increment Run.changes Run.packageJsonPath
                    Run.packageJsonUpdated Run.set_files Run.set_console
                    Run.set_opts Run.set_changes Run.set_dryRun
                    Run.set_packageJsonUpdated]
    | progress unfold Run.existsSync, Run.readFileSync, Run.gets, Run.modify,
        Run.lift, Run.console_warn, Run.console_log, mret, M_ret, Run.ret,
        Run.throw
    | match goal with
      | E : Run.files ?st !! ?p = _ |- context [Run.files ?st !! ?p] => rewrite E
      | E : @lookup _ _ (gmap _ _) _ ?p ?m = _
        |- context [@lookup _ _ (gmap _ _) _ ?p ?m] => rewrite E
      end ].
Ltac mrun := repeat mstep.

(** Normal form of a state built from explicit records. *)
Ltac snorm :=
  cbv beta iota zeta delta
    [Run.files Run.cwd Run.console Run.opts Run.projectRoot Run.dryRun
     Run.increment Run.changes Run.packageJsonPath Run.packageJsonUpdated
     Run.set_files Run.set_console Run.set_opts Run.set_changes
     Run.set_dryRun Run.set_packageJsonUpdated].
Ltac snorm_in Hyp :=
  cbv beta iota zeta delta
    [Run.files Run.cwd Run.console Run.opts Run.projectRoot Run.dryRun
     Run.increment Run.changes Run.packageJsonPath Run.packageJsonUpdated
     Run.set_files Run.set_console Run.set_opts Run.set_changes
     Run.set_dryRun Run.set_packageJsonUpdated] in Hyp.
Ltac srun := repeat first [mstep | progress snorm].

(** Close a goal about a final state given in full. *)
Ltac leaf :=
  cbn in *; repeat split; intros; subst; try reflexivity; try discriminate;
  try congruence.

(** Open a state into its fields. *)
Ltac split_state sw :=
  let fw := fresh "fw" in let c := fresh "c" in let l := fresh "l" in
  let pr := fresh "pr" in let d := fresh "d" in let inc := fresh "inc" in
  let ch := fresh "ch" in let pk := fresh "pk" in let pu := fresh "pu" in
  destruct sw as [fw c l [pr d inc ch pk pu]].



Section Unusable.
Context `{Platform}.
Import Text JS Version Regex Path Run.

(** The state after one more warning. *)
Definition warned (w : string) (st : state) : state :=
  set_console (console st ++ [Warn w])%list st.

(** A pattern is entirely absent from a text when no position matches. *)
Definition absent (re : regex) (content : string) : Prop :=
  exec re content = None.

Definition android_unusable (st : state) (f : path) : Prop :=
  files st !! f = None \/
  exists content,
    files st !! f = Some (File content) /\
    (absent re_versionCode_cap content \/ absent re_versionName_cap content).

Definition ios_unusable (st : state) (f : path) : Prop :=
  files st !! f = None \/
  exists content,
    files st !! f = Some (File content) /\
    (absent re_currentProjectVersion_cap content \/
     absent re_marketingVersion_cap content).

Lemma absent_first_capture re content :
  absent re content -> first_capture re content = None.
Proof. unfold absent, first_capture, str_match. now intros ->. Qed.

Lemma absent_match_g re content :
  absent re content -> str_match_g re content = None.
Proof.
  unfold absent, str_match_g, exec_all. intros E. simpl. now rewrite E.
Qed.

Lemma processAndroidFile_unusable f vc vn st :
  android_unusable st f ->
  exists w, processAndroidFile f vc vn st = (inr None, warned w st).
Proof.
  intros [Hnone | (content & Hfile & Habs)];
    eexists; unfold processAndroidFile; mrun; [reflexivity|].
  destruct Habs as [Ha | Ha]; rewrite (absent_first_capture _ _ Ha); mrun.
  - reflexivity.
  - rewrite orb_true_r. mrun. reflexivity.
Qed.

Lemma processIOSFile_unusable f cpv mv st :
  ios_unusable st f ->
  exists w, processIOSFile f cpv mv st = (inr None, warned w st).
Proof.
  intros [Hnone | (content & Hfile & Habs)];
    eexists; unfold processIOSFile; mrun; [reflexivity|].
  destruct Habs as [Ha | Ha]; rewrite (absent_match_g _ _ Ha); mrun.
  - reflexivity.
  - destruct (str_match_g re_currentProjectVersion_cap content); mrun;
      reflexivity.
Qed.

Lemma android_loop_app l1 l2 vc vn : forall results st,
  android_loop (l1 ++ l2) vc vn results st =
  match android_loop l1 vc vn results st with
  | (inl e, st') => (inl e, st')
  | (inr results', st') => android_loop l2 vc vn results' st'
  end.
Proof.
  induction l1 as [|f l1 IH]; intros results st; [reflexivity|].
  cbn [app android_loop]. rewrite !bind_eq.
  destruct (processAndroidFile f vc vn st) as [[e|r] st']; [reflexivity|].
  apply IH.
Qed.

Lemma ios_loop_app l1 l2 cpv mv : forall results st,
  ios_loop (l1 ++ l2) cpv mv results st =
  match ios_loop l1 cpv mv results st with
  | (inl e, st') => (inl e, st')
  | (inr results', st') => ios_loop l2 cpv mv results' st'
  end.
Proof.
  induction l1 as [|f l1 IH]; intros results st; [reflexivity|].
  cbn [app ios_loop]. rewrite !bind_eq.
  destruct (processIOSFile f cpv mv st) as [[e|r] st']; [reflexivity|].
  apply IH.
Qed.

(** C8. A resolved file that does not exist, or whose content lacks one of
    the two field patterns entirely, is warned about and skipped: the file
    processor returns [null], writes no file and records no change, so the
    file is left out of the result list; and the batch goes on with the
    remaining files, keeping the results of the files before it. *)
Theorem unusable_file_is_skipped (f : path) (st : state) :
  (android_unusable st f ->
   forall versionCode versionName, exists w,
     processAndroidFile f versionCode versionName st = (inr None, warned w st)
     /\ files (warned w st) = files st /\ opts (warned w st) = opts st
     /\ (forall rest,
          updateAndroidVersions (f :: rest) versionCode versionName st
          = updateAndroidVersions rest versionCode versionName (warned w st))
     /\ (forall before after st0 results,
          updateAndroidVersions before versionCode versionName st0
            = (inr results, st) ->
          updateAndroidVersions (before ++ f :: after) versionCode
            versionName st0
          = android_loop after versionCode versionName results (warned w st)))
  /\
  (ios_unusable st f ->
   forall currentProjectVersion marketingVersion, exists w,
     processIOSFile f currentProjectVersion marketingVersion st
       = (inr None, warned w st)
     /\ files (warned w st) = files st /\ opts (warned w st) = opts st
     /\ (forall rest,
          updateIOSVersions (f :: rest) currentProjectVersion
            marketingVersion st
          = updateIOSVersions rest currentProjectVersion marketingVersion
              (warned w st))
     /\ (forall before after st0 results,
          updateIOSVersions before currentProjectVersion marketingVersion st0
            = (inr results, st) ->
          updateIOSVersions (before ++ f :: after) currentProjectVersion
            marketingVersion st0
          = ios_loop after currentProjectVersion marketingVersion results
              (warned w st))).
Proof.
  split.
  - intros Hu vc vn.
    destruct (processAndroidFile_unusable f vc vn st Hu) as [w Hw].
    exists w. split; [exact Hw|]. split; [reflexivity|]. split; [reflexivity|].
    split.
    + intros rest. unfold updateAndroidVersions. cbn [android_loop].
      rewrite bind_eq, Hw. reflexivity.
    + intros before after st0 results Hb. unfold updateAndroidVersions in *.
      rewrite android_loop_app, Hb. cbn [android_loop].
      rewrite bind_eq, Hw. reflexivity.
  - intros Hu cpv mv.
    destruct (processIOSFile_unusable f cpv mv st Hu) as [w Hw].
    exists w. split; [exact Hw|]. split; [reflexivity|]. split; [reflexivity|].
    split.
    + intros rest. unfold updateIOSVersions. cbn [ios_loop].
      rewrite bind_eq, Hw. reflexivity.
    + intros before after st0 results Hb. unfold updateIOSVersions in *.
      rewrite ios_loop_app, Hb. cbn [ios_loop].
      rewrite bind_eq, Hw. reflexivity.
Qed.

End Unusable.

(** ** Dry runs *)

Section DryRun.
Context `{Platform}.
Import Text JS Version Regex Path Run.

(** The state of a dry run that has come as far as the real run [sw], the
    files on disk still being [fs]. *)
Definition ghost (fs : gmap path node) (sw : state) : state :=
  {| files := fs; cwd := cwd sw; console := console sw;
     opts := set_dryRun true (opts sw) |}.

(** A computation behaves in a dry run as in a real one, but for the files:
    started where the real run starts, with files [fs] in place of the real
    ones, it gives the same result, console, change log and guard, and
    leaves [fs] as it is. *)
Definition dry_like {A} (m : M A) (fs : gmap path node) (sw : state) : Prop :=
  m (ghost fs sw) = let '(r, sw') := m sw in (r, ghost fs sw').

Lemma updatePackageJsonVersion_dry_like p v fs sw :
  dryRun (opts sw) = false -> fs !! p = files sw !! p ->
  dry_like (updatePackageJsonVersion p v) fs sw.
Proof.
  split_state sw. cbn [dryRun opts files]. intros -> E.
  unfold dry_like, ghost, updatePackageJsonVersion.
  srun.
  destruct (fw !! p) as [[content|]|] eqn:Ep; srun; try reflexivity.
  destruct (JSON_parse content) as [e|packageData]; srun; [reflexivity|].
  destruct (Obj.get_prop packageData "version") as [e|cv]; srun; [reflexivity|].
  destruct (truthy cv); srun; [|reflexivity].
  unfold writeFileSync, recordPackageJsonChange, relative_to_root, push_change.
  srun. reflexivity.
Qed.

(** The manifest is read only while the guard is unset. *)
Definition manifest_agrees (fs : gmap path node) (sw : state) : Prop :=
  packageJsonUpdated (opts sw) = false ->
  forall p, packageJsonPath (opts sw) = Some p -> fs !! p = files sw !! p.

Lemma syncPackageJson_dry_like enabled v fs sw :
  dryRun (opts sw) = false -> manifest_agrees fs sw ->
  dry_like (syncPackageJson enabled v) fs sw.
Proof.
  intros Hd Hm. unfold manifest_agrees in Hm.
  split_state sw. cbn [dryRun opts files packageJsonUpdated packageJsonPath] in *.
  subst d.
  unfold dry_like, ghost, syncPackageJson. srun.
  destruct pk as [p|]; [|reflexivity].
  destruct pu; [reflexivity|]. destruct enabled; [|reflexivity]. srun.
  pose proof (updatePackageJsonVersion_dry_like p v fs
    {| files := fw; cwd := c; console := l;
       opts := {| projectRoot := pr; dryRun := false; increment := inc;
                  changes := ch; packageJsonPath := Some p;
                  packageJsonUpdated := false |} |}
    eq_refl (Hm eq_refl p eq_refl)) as Hsim.
  unfold dry_like, ghost in Hsim. snorm_in Hsim.
  rewrite Hsim. clear Hsim.
  match goal with
  | |- context [updatePackageJsonVersion p v ?s] =>
      destruct (updatePackageJsonVersion p v s) as [[e|r] sw']
  end; srun; reflexivity.
Qed.

(** The shared-manifest step, rewritten on explicit records. *)
Ltac sync_step fs Hm :=
  match goal with
  | |- context [syncPackageJson ?e ?v
                  {| files := fs; cwd := ?c; console := ?l;
                     opts := {| projectRoot := ?pr; dryRun := true;
                                increment := ?inc; changes := ?ch;
                                packageJsonPath := ?pk;
                                packageJsonUpdated := ?pu |} |}] =>
      match goal with
      | |- context [syncPackageJson e v
                      {| files := ?fw'; cwd := c; console := l;
                         opts := {| projectRoot := pr; dryRun := false;
                                    increment := inc; changes := ch;
                                    packageJsonPath := pk;
                                    packageJsonUpdated := pu |} |}] =>
          let Hsim := fresh "Hsim" in
          assert (Hsim : dry_like (syncPackageJson e v) fs
                    {| files := fw'; cwd := c; console := l;
                       opts := {| projectRoot := pr; dryRun := false;
                                  increment := inc; changes := ch;
                                  packageJsonPath := pk;
                                  packageJsonUpdated := pu |} |});
          [ apply syncPackageJson_dry_like; [reflexivity | exact Hm]
          | unfold dry_like, ghost in Hsim; snorm_in Hsim;
            rewrite Hsim; clear Hsim;
            let e' := fresh "e" in let sw' := fresh "sw'" in
            destruct (syncPackageJson e v
                        {| files := fw'; cwd := c; console := l;
                           opts := {| projectRoot := pr; dryRun := false;
                                      increment := inc; changes := ch;
                                      packageJsonPath := pk;
                                      packageJsonUpdated := pu |} |})
              as [[e'|[]] sw'] ]
      end
  end.

Lemma processAndroidFile_dry_like f vc vn fs sw :
  dryRun (opts sw) = false ->
  fs !! f = files sw !! f ->
  packageJsonPath (opts sw) <> Some f ->
  manifest_agrees fs sw ->
  dry_like (processAndroidFile f vc vn) fs sw.
Proof.
  intros Hd Hf Hne Hm. unfold manifest_agrees in Hm.
  split_state sw. cbn [dryRun opts files packageJsonUpdated packageJsonPath] in *.
  subst d.
  unfold dry_like, ghost, processAndroidFile. srun.
  destruct (fw !! f) as [[content|]|] eqn:Ef; srun; try reflexivity.
  destruct (negb _ || negb _); srun; [reflexivity|].
  unfold relative_to_root. srun.
  assert (Hm' : forall x, manifest_agrees fs
            {| files := <[f := x]> fw; cwd := c; console := l;
               opts := {| projectRoot := pr; dryRun := false;
                          increment := inc; changes := ch;
                          packageJsonPath := pk;
                          packageJsonUpdated := pu |} |}).
  { intros x Hpu p Hp. cbn in *. rewrite lookup_insert_ne by congruence. auto. }
  destruct (not_null vn); srun.
  - destruct (calculateNewSemanticVersion vn _ _) as [e|newVersionName];
      srun; [reflexivity|].
    unfold writeFileSync, recordAndroidChanges, relative_to_root, push_change.
    srun. sync_step fs (Hm' (File (updateAndroidFileContent content
      (calculateNewBuildNumber vc
         (VStr (default EmptyString (first_capture re_versionCode_cap content))))
      newVersionName true))); srun; reflexivity.
  - unfold writeFileSync, recordAndroidChanges, relative_to_root, push_change.
    srun. sync_step fs (Hm' (File (updateAndroidFileContent content
      (calculateNewBuildNumber vc
         (VStr (default EmptyString (first_capture re_versionCode_cap content))))
      (VStr (default EmptyString (first_capture re_versionName_cap content)))
      false))); srun; reflexivity.
Qed.

Lemma capture_of_first_pure re ms :
  exists r, forall st : state, capture_of_first re ms st = (r, st).
Proof.
  unfold capture_of_first.
  destruct ms as [|m0 ?]; [|destruct (first_capture re m0)];
    eexists; intros st; reflexivity.
Qed.

Lemma processIOSFile_dry_like f cpv mv fs sw :
  dryRun (opts sw) = false ->
  fs !! f = files sw !! f ->
  packageJsonPath (opts sw) <> Some f ->
  manifest_agrees fs sw ->
  dry_like (processIOSFile f cpv mv) fs sw.
Proof.
  intros Hd Hf Hne Hm. unfold manifest_agrees in Hm.
  split_state sw. cbn [dryRun opts files packageJsonUpdated packageJsonPath] in *.
  subst d.
  unfold dry_like, ghost, processIOSFile. srun.
  destruct (fw !! f) as [[content|]|] eqn:Ef; srun; try reflexivity.
  destruct (str_match_g re_currentProjectVersion_cap content) as [ms1|];
    [|srun; reflexivity].
  destruct (str_match_g re_marketingVersion_cap content) as [ms2|];
    [|srun; reflexivity].
  srun.
  destruct (capture_of_first_pure re_digits ms1) as [[e|v1] E1];
    rewrite !E1; srun; [reflexivity|].
  destruct (capture_of_first_pure re_marketingVersion_cap ms2) as [[e|v2] E2];
    rewrite !E2; srun; [reflexivity|].
  unfold relative_to_root. srun.
  assert (Hm' : forall x, manifest_agrees fs
            {| files := <[f := x]> fw; cwd := c; console := l;
               opts := {| projectRoot := pr; dryRun := false;
                          increment := inc; changes := ch;
                          packageJsonPath := pk;
                          packageJsonUpdated := pu |} |}).
  { intros x Hpu p Hp. cbn in *. rewrite lookup_insert_ne by congruence. auto. }
  destruct (not_null mv); srun.
  - destruct (calculateNewSemanticVersion mv _ _) as [e|newMarketingVersion];
      srun; [reflexivity|].
    unfold writeFileSync, recordIOSChanges, relative_to_root, push_change.
    srun.
    destruct (not_null cpv); srun;
      match goal with
      | |- context [insert f ?x fw] => sync_step fs (Hm' x)
      end; srun; reflexivity.
  - unfold writeFileSync, recordIOSChanges, relative_to_root, push_change.
    srun.
    destruct (not_null cpv); srun;
      match goal with
      | |- context [insert f ?x fw] => sync_step fs (Hm' x)
      end; srun; reflexivity.
Qed.

(** What a mutator may change: it keeps the dry-run flag and the manifest
    path, never unsets the guard, writes nothing in a dry run, and writes no
    file outside [written]. *)
Definition footprint {A} (m : M A) (written : path -> Prop) (st : state)
  : Prop :=
  let st' := (m st).2 in
  dryRun (opts st') = dryRun (opts st) /\
  packageJsonPath (opts st') = packageJsonPath (opts st) /\
  (packageJsonUpdated (opts st) = true ->
   packageJsonUpdated (opts st') = true) /\
  (dryRun (opts st) = true -> files st' = files st) /\
  (forall q, ~ written q -> files st' !! q = files st !! q).

(** While the guard stays unset after a normal return, only [f] may have
    been written. *)
Definition guard_unset_means_unwritten {A} (m : M A) (f : option path)
    (st : state) : Prop :=
  let st' := (m st).2 in
  (exists a, (m st).1 = inr a) ->
  packageJsonUpdated (opts st') = false ->
  forall q, f <> Some q -> files st' !! q = files st !! q.

Lemma updatePackageJsonVersion_footprint p v st :
  footprint (updatePackageJsonVersion p v) (fun q => q = p) st /\
  packageJsonUpdated (opts (updatePackageJsonVersion p v st).2)
  = packageJsonUpdated (opts st).
Proof.
  split_state st. unfold footprint, updatePackageJsonVersion. srun.
  destruct (fw !! p) as [[content|]|] eqn:Ep; srun; try solve [leaf].
  destruct (JSON_parse content) as [e|packageData]; srun; [leaf|].
  destruct (Obj.get_prop packageData "version") as [e|cv]; srun; [leaf|].
  destruct (truthy cv); srun; [|leaf].
  unfold writeFileSync, recordPackageJsonChange, relative_to_root, push_change.
  destruct d; srun; leaf.
  rewrite lookup_insert_ne by congruence. reflexivity.
Qed.

Lemma syncPackageJson_footprint enabled v st :
  footprint (syncPackageJson enabled v)
    (fun q => packageJsonPath (opts st) = Some q) st /\
  guard_unset_means_unwritten (syncPackageJson enabled v) None st.
Proof.
  split_state st.
  unfold footprint, guard_unset_means_unwritten, syncPackageJson. srun.
  destruct pk as [p|]; [|leaf].
  destruct pu; [leaf|]. destruct enabled; [|leaf]. srun.
  match goal with
  | |- context [updatePackageJsonVersion p v ?s] =>
      pose proof (updatePackageJsonVersion_footprint p v s) as Hfp;
      destruct (updatePackageJsonVersion p v s)
        as [[e|r] [fw' c' l' [pr' d' inc' ch' pk' pu']]] eqn:Eu
  end; unfold footprint in Hfp; rewrite Eu in Hfp; srun; cbn in Hfp;
    destruct Hfp as ((Hd & Hp & Hg & Hdry & Hfr) & Hpu); subst.
  - repeat split; try reflexivity; try discriminate; try assumption.
    + intros q Hq. apply Hfr. congruence.
    + intros [a Ha]. discriminate.
  - repeat split; try reflexivity; try discriminate; try assumption.
    intros q Hq. apply Hfr. congruence.
Qed.

(** Close a footprint goal at the shared-manifest step. *)
Ltac frame_lookup Hfr Hg :=
  first
    [ rewrite Hfr by tauto
    | rewrite Hg by (eauto; congruence) ];
  first
    [ reflexivity
    | rewrite lookup_insert_ne by (intros ->; tauto || congruence);
      reflexivity ].

Ltac after_sync :=
  match goal with
  | |- context [syncPackageJson ?en ?v ?s] =>
      let Hfp := fresh "Hfp" in let Hg := fresh "Hg" in
      let Es := fresh "Es" in
      pose proof (syncPackageJson_footprint en v s) as [Hfp Hg];
      unfold footprint, guard_unset_means_unwritten in Hfp, Hg;
      destruct (syncPackageJson en v s) as [[?|[]] [? ? ? [? ? ? ? ? ?]]] eqn:Es;
      snorm_in Hfp; snorm_in Hg; cbn [fst snd] in Hfp, Hg;
      destruct Hfp as (Hd & Hp & Hgd & Hdry & Hfr); srun;
      repeat split; intros;
      first
        [ assumption
        | discriminate
        | solve [auto]
        | match goal with
          | Hx : exists _, inl _ = inr _ |- _ =>
              destruct Hx as [? Hx]; discriminate Hx
          end
        | frame_lookup Hfr Hg ]
  end.

Lemma processAndroidFile_footprint f vc vn st :
  footprint (processAndroidFile f vc vn)
    (fun q => q = f \/ packageJsonPath (opts st) = Some q) st /\
  guard_unset_means_unwritten (processAndroidFile f vc vn) (Some f) st.
Proof.
  split_state st.
  unfold footprint, guard_unset_means_unwritten, processAndroidFile. srun.
  destruct (fw !! f) as [[content|]|] eqn:Ef; srun; try solve [leaf].
  destruct (negb _ || negb _); srun; [leaf|].
  unfold relative_to_root. srun.
  destruct (not_null vn); srun.
  - destruct (calculateNewSemanticVersion vn _ _) as [e|newVersionName];
      srun; [leaf|].
    unfold writeFileSync, recordAndroidChanges, relative_to_root, push_change.
    destruct d; srun; after_sync.
  - unfold writeFileSync, recordAndroidChanges, relative_to_root, push_change.
    destruct d; srun; after_sync.
Qed.

Lemma processIOSFile_footprint f cpv mv st :
  footprint (processIOSFile f cpv mv)
    (fun q => q = f \/ packageJsonPath (opts st) = Some q) st /\
  guard_unset_means_unwritten (processIOSFile f cpv mv) (Some f) st.
Proof.
  split_state st.
  unfold footprint, guard_unset_means_unwritten, processIOSFile. srun.
  destruct (fw !! f) as [[content|]|] eqn:Ef; srun; try solve [leaf].
  destruct (str_match_g re_currentProjectVersion_cap content) as [ms1|];
    [|srun; leaf].
  destruct (str_match_g re_marketingVersion_cap content) as [ms2|];
    [|srun; leaf].
  srun.
  destruct (capture_of_first_pure re_digits ms1) as [[e|v1] E1];
    rewrite !E1; srun; [leaf|].
  destruct (capture_of_first_pure re_marketingVersion_cap ms2) as [[e|v2] E2];
    rewrite !E2; srun; [leaf|].
  unfold relative_to_root. srun.
  destruct (not_null mv); srun.
  - destruct (calculateNewSemanticVersion mv _ _) as [e|newMarketingVersion];
      srun; [leaf|].
    unfold writeFileSync, recordIOSChanges, relative_to_root, push_change.
    destruct d; srun; destruct (not_null cpv); srun; after_sync.
  - unfold writeFileSync, recordIOSChanges, relative_to_root, push_change.
    destruct d; srun; destruct (not_null cpv); srun; after_sync.
Qed.

(** *** Batches *)

Lemma android_loop_dry_frame files vc vn : forall results st,
  dryRun (opts st) = true ->
  Run.files (android_loop files vc vn results st).2 = Run.files st.
Proof.
  induction files as [|f rest IH]; intros results st Hd; [reflexivity|].
  cbn [android_loop]. rewrite bind_eq.
  destruct (processAndroidFile_footprint f vc vn st) as [(Hd' & _ & _ & Hfs & _) _].
  destruct (processAndroidFile f vc vn st) as [[e|r] st1]; cbn [snd] in *.
  - auto.
  - rewrite IH by congruence. auto.
Qed.

Lemma ios_loop_dry_frame files cpv mv : forall results st,
  dryRun (opts st) = true ->
  Run.files (ios_loop files cpv mv results st).2 = Run.files st.
Proof.
  induction files as [|f rest IH]; intros results st Hd; [reflexivity|].
  cbn [ios_loop]. rewrite bind_eq.
  destruct (processIOSFile_footprint f cpv mv st) as [(Hd' & _ & _ & Hfs & _) _].
  destruct (processIOSFile f cpv mv st) as [[e|r] st1]; cbn [snd] in *.
  - auto.
  - rewrite IH by congruence. auto.
Qed.

(** The files still to come are as the dry run sees them. *)
Definition batch_agrees (files : list path) (fs : gmap path node)
    (sw : state) : Prop :=
  dryRun (opts sw) = false /\
  NoDup files /\
  (forall p, packageJsonPath (opts sw) = Some p -> p ∉ files) /\
  (forall q, q ∈ files -> fs !! q = Run.files sw !! q) /\
  manifest_agrees fs sw.

Lemma android_loop_dry_like files vc vn : forall results fs sw,
  batch_agrees files fs sw ->
  dry_like (android_loop files vc vn results) fs sw.
Proof.
  induction files as [|f rest IH];
    intros results fs sw (Hd & Hnd & Hpk & Hag & Hm); [reflexivity|].
  apply NoDup_cons in Hnd as [Hf Hnd].
  assert (Hne : packageJsonPath (opts sw) <> Some f).
  { intros Hp. apply (Hpk f Hp). left. }
  pose proof (processAndroidFile_dry_like f vc vn fs sw Hd
                (Hag f ltac:(left)) Hne Hm) as Hsim.
  destruct (processAndroidFile_footprint f vc vn sw)
    as [(Hd' & Hp' & Hg' & _ & Hfr) Hgu].
  unfold dry_like in *. cbn [android_loop]. rewrite !bind_eq, Hsim.
  unfold guard_unset_means_unwritten in Hgu.
  destruct (processAndroidFile f vc vn sw) as [[e|r] sw1]; cbn [fst snd] in *;
    [reflexivity|].
  apply IH. repeat split.
  - congruence.
  - exact Hnd.
  - intros p Hp Hin. apply (Hpk p); [congruence | now right].
  - intros q Hq. rewrite Hfr; [apply Hag; now right|].
    intros [-> | Hp]; [contradiction|]. apply (Hpk q Hp). now right.
  - intros Hpu p Hp. rewrite Hgu; eauto.
    + apply Hm; [|congruence].
      destruct (packageJsonUpdated (opts sw)) eqn:E; [|reflexivity].
      rewrite Hg' in Hpu by reflexivity. discriminate.
    + intros [= <-]. apply (Hpk f); [congruence | left].
Qed.

Lemma ios_loop_dry_like files cpv mv : forall results fs sw,
  batch_agrees files fs sw ->
  dry_like (ios_loop files cpv mv results) fs sw.
Proof.
  induction files as [|f rest IH];
    intros results fs sw (Hd & Hnd & Hpk & Hag & Hm); [reflexivity|].
  apply NoDup_cons in Hnd as [Hf Hnd].
  assert (Hne : packageJsonPath (opts sw) <> Some f).
  { intros Hp. apply (Hpk f Hp). left. }
  pose proof (processIOSFile_dry_like f cpv mv fs sw Hd
                (Hag f ltac:(left)) Hne Hm) as Hsim.
  destruct (processIOSFile_footprint f cpv mv sw)
    as [(Hd' & Hp' & Hg' & _ & Hfr) Hgu].
  unfold dry_like in *. cbn [ios_loop]. rewrite !bind_eq, Hsim.
  unfold guard_unset_means_unwritten in Hgu.
  destruct (processIOSFile f cpv mv sw) as [[e|r] sw1]; cbn [fst snd] in *;
    [reflexivity|].
  apply IH. repeat split.
  - congruence.
  - exact Hnd.
  - intros p Hp Hin. apply (Hpk p); [congruence | now right].
  - intros q Hq. rewrite Hfr; [apply Hag; now right|].
    intros [-> | Hp]; [contradiction|]. apply (Hpk q Hp). now right.
  - intros Hpu p Hp. rewrite Hgu; eauto.
    + apply Hm; [|congruence].
      destruct (packageJsonUpdated (opts sw)) eqn:E; [|reflexivity].
      rewrite Hg' in Hpu by reflexivity. discriminate.
    + intros [= <-]. apply (Hpk f); [congruence | left].
Qed.

(** The run [st] with the dry-run flag set, and with it cleared. *)
Definition dry (st : state) : state := set_opts (set_dryRun true (opts st)) st.
Definition real (st : state) : state := set_opts (set_dryRun false (opts st)) st.

End DryRun.

(** ** The shared package manifest *)

Section ObjFacts.
Import JS Obj.

Lemma lookup_replace_field k v fs : forall k',
  lookup_field k' (replace_field k v fs)
  = if String.eqb k' k
    then match lookup_field k fs with Some _ => Some v | None => None end
    else lookup_field k' fs.
Proof.
  induction fs as [|[k0 v0] fs IH]; intros x; cbn [replace_field lookup_field].
  - now destruct (String.eqb x k).
  - destruct (String.eqb k k0) eqn:Ek; cbn [lookup_field].
    + apply String.eqb_eq in Ek. subst k0.
      now destruct (String.eqb x k).
    + rewrite IH. destruct (String.eqb x k0) eqn:Ex; [|reflexivity].
      apply String.eqb_eq in Ex. subst k0.
      rewrite String.eqb_sym in Ek. now rewrite Ek.
Qed.

Lemma keys_replace_field k v fs :
  List.map fst (replace_field k v fs) = List.map fst fs.
Proof.
  induction fs as [|[k0 v0] fs IH]; cbn [replace_field]; [reflexivity|].
  destruct (String.eqb k k0); cbn [List.map fst]; [reflexivity|].
  now rewrite IH.
Qed.

(** Assigning to a property the object already has keeps every key in its
    place and every other value as it was. *)
Lemma set_existing_field k v fs old :
  lookup_field k fs = Some old ->
  List.map fst (set_field k v fs) = List.map fst fs /\
  lookup_field k (set_field k v fs) = Some v /\
  forall k', k' <> k -> lookup_field k' (set_field k v fs) = lookup_field k' fs.
Proof.
  intros Hk. unfold set_field. rewrite Hk. split; [apply keys_replace_field|].
  split.
  - rewrite lookup_replace_field, String.eqb_refl, Hk. reflexivity.
  - intros k' Hne. rewrite lookup_replace_field.
    destruct (String.eqb_spec k' k); [congruence | reflexivity].
Qed.

End ObjFacts.

Section Manifest.
Context `{Platform}.
Import Text JS Version Regex Obj Json Path Run.

(** The change record of a manifest update. *)
Definition manifest_record (st : state) (p : path) (old new : value)
  : ChangeRecord :=
  {| platform := "Package.json";
     file := Path.relative (default (cwd st) (projectRoot (opts st))) p;
     item := "version"; oldValue := old; newValue := new |}.

(** The manifest at [p] can be updated: the file exists, parses to an object
    and that object has a truthy [version]. *)
Definition manifest_at (st : state) (p : path) (doc : fields) (cv : value)
  : Prop :=
  exists content,
    files st !! p = Some (File content) /\
    JSON_parse content = inr (VObj doc) /\
    lookup_field "version" doc = Some cv /\ truthy cv = true.

(** The text written for a document: [JSON.stringify(doc, null, 2) + '\n']. *)
Definition manifest_text (doc : fields) : string :=
  default "undefined" (stringify2 (VObj doc)) ++ nl.

Lemma updatePackageJsonVersion_success p v st doc cv :
  manifest_at st p doc cv ->
  updatePackageJsonVersion p v st
  = (inr (Some v),
     set_opts
       (set_changes (changes (opts st) ++ [manifest_record st p cv v])%list
          (opts st))
       (set_console
          (console st ++ [Log "Processing package.json version..."])%list
          (if dryRun (opts st) then st
           else set_files
                  (<[p := File (manifest_text (set_field "version" v doc))]>
                     (files st)) st))).
Proof.
  intros (content & Hf & Hp & Hv & Ht).
  split_state st. cbn [files] in Hf.
  unfold updatePackageJsonVersion, manifest_record, manifest_text. srun.
  rewrite Hp. srun. unfold get_prop. rewrite Hv. srun. rewrite Ht. srun.
  unfold writeFileSync, recordPackageJsonChange, relative_to_root, push_change.
  destruct d; srun; reflexivity.
Qed.

(** C7 as amended. When the manifest exists, parses to an object and has a
    truthy [version], [updatePackageJsonVersion] returns
    [{ version: newVersion }], appends exactly one change record, and (unless
    in a dry run) rewrites the file as [JSON.stringify(doc', null, 2)] plus
    a newline, where [doc'] has the keys of the parsed document in the same
    order, the new [version], and every other value unchanged. The text is
    always laid out with two-space indentation and one trailing newline,
    whatever the layout of the original. *)
Theorem manifest_rewrite (p : path) (newVersion : value) (st : state)
    (doc : fields) (cv : value) :
  manifest_at st p doc cv ->
  dryRun (opts st) = false ->
  let doc' := set_field "version" newVersion doc in
  let r := updatePackageJsonVersion p newVersion st in
  r.1 = inr (Some newVersion) /\
  files r.2 = <[p := File (manifest_text doc')]> (files st) /\
  changes (opts r.2)
    = (changes (opts st) ++ [manifest_record st p cv newVersion])%list /\
  List.map fst doc' = List.map fst doc /\
  lookup_field "version" doc' = Some newVersion /\
  (forall k, k <> "version" -> lookup_field k doc' = lookup_field k doc).
Proof.
  intros Hm Hd doc' r. subst r.
  rewrite (updatePackageJsonVersion_success p newVersion st doc cv Hm), Hd.
  destruct Hm as (content & _ & _ & Hv & _).
  destruct (set_existing_field "version" newVersion doc cv Hv) as (Hk & Hl & Ho).
  repeat split; assumption.
Qed.

(** *** At most one update of the manifest in a run *)

(** The records of the change log that are against the manifest. *)
Definition manifest_records (log : list ChangeRecord) : list ChangeRecord :=
  List.filter (fun r => String.eqb (platform r) "Package.json") log.

(** A step of the run that respects the one-shot guard: it appends at most
    one record against the manifest, none when the guard is already set, and
    sets the guard when it appends one; it never unsets the guard. *)
Definition once_step (st st' : state) : Prop :=
  exists extra,
    manifest_records (changes (opts st'))
      = (manifest_records (changes (opts st)) ++ extra)%list /\
    (List.length extra <= 1)%nat /\
    (packageJsonUpdated (opts st) = true ->
     extra = [] /\ packageJsonUpdated (opts st') = true) /\
    (extra <> [] -> packageJsonUpdated (opts st') = true).

Definition once {A} (m : M A) : Prop := forall st, once_step st (m st).2.

Lemma once_step_refl st st' :
  opts st' = opts st -> once_step st st'.
Proof.
  intros E. exists []. rewrite E, app_nil_r.
  split; [reflexivity|]. split; [cbn; lia|]. split; [auto | congruence].
Qed.

Lemma once_step_trans st1 st2 st3 :
  once_step st1 st2 -> once_step st2 st3 -> once_step st1 st3.
Proof.
  intros (e1 & E1 & L1 & G1 & N1) (e2 & E2 & L2 & G2 & N2).
  exists (e1 ++ e2)%list. rewrite E2, E1, app_assoc.
  split; [reflexivity|].
  destruct e1 as [|r1 e1].
  - cbn [app]. split; [exact L2|]. split.
    + intros Hg. destruct (G1 Hg) as [_ Hg2]. exact (G2 Hg2).
    + exact N2.
  - assert (Hg2 : packageJsonUpdated (opts st2) = true) by (apply N1; discriminate).
    destruct (G2 Hg2) as [-> Hg3]. rewrite app_nil_r.
    split; [exact L1|]. split; [|auto].
    intros Hg. destruct (G1 Hg) as [? _]. discriminate.
Qed.

Lemma once_bind {A B} (m : M A) (k : A -> M B) :
  once m -> (forall a, once (k a)) -> once (m ≫= k).
Proof.
  intros Hm Hk st. rewrite bind_eq. specialize (Hm st).
  destruct (m st) as [[e|a] st1]; cbn [snd] in *; [exact Hm|].
  eapply once_step_trans; [exact Hm | apply Hk].
Qed.

Lemma once_pure {A} (m : M A) :
  (forall st, opts (m st).2 = opts st) -> once m.
Proof. intros Hm st. apply once_step_refl, Hm. Qed.

Lemma once_ret {A} (a : A) : once (mret a).
Proof. apply once_pure. reflexivity. Qed.

Lemma once_existsSync p : once (existsSync p).
Proof. apply once_pure. reflexivity. Qed.

Lemma once_readFileSync p : once (readFileSync p).
Proof.
  apply once_pure. intros st. unfold readFileSync.
  destruct (files st !! p) as [[?|]|]; reflexivity.
Qed.

Lemma once_writeFileSync p c : once (writeFileSync p c).
Proof.
  apply once_pure. intros st. unfold writeFileSync.
  destruct (files st !! p) as [[?|]|]; reflexivity.
Qed.

Lemma once_lift {A} (r : exn + A) : once (lift r).
Proof. apply once_pure. reflexivity. Qed.

Lemma once_gets {A} (f : state -> A) : once (gets f).
Proof. apply once_pure. reflexivity. Qed.

Lemma once_console_warn w : once (console_warn w).
Proof. apply once_pure. reflexivity. Qed.

Lemma once_console_log w : once (console_log w).
Proof. apply once_pure. reflexivity. Qed.

Lemma once_relative_to_root p : once (relative_to_root p).
Proof. apply once_pure. reflexivity. Qed.

Lemma manifest_records_snoc log r :
  manifest_records (log ++ [r])
  = (manifest_records log
       ++ if String.eqb (platform r) "Package.json" then [r] else [])%list.
Proof. unfold manifest_records. now rewrite List.filter_app. Qed.

(** A record of a platform file is no record against the manifest. *)
Lemma once_push_change r :
  String.eqb (platform r) "Package.json" = false -> once (push_change r).
Proof.
  intros Hr st. exists []. unfold push_change, modify. cbn.
  rewrite manifest_records_snoc, Hr.
  split; [reflexivity|]. split; [lia|]. split; [auto | congruence].
Qed.

Lemma once_capture_of_first re ms : once (capture_of_first re ms).
Proof.
  destruct (capture_of_first_pure re ms) as [r Hr].
  apply once_pure. intros st. now rewrite Hr.
Qed.

(** What the manifest mutator does to the options: it may append one record
    against the manifest, and nothing else changes. *)
Lemma updatePackageJsonVersion_log p v st :
  let st' := (updatePackageJsonVersion p v st).2 in
  cwd st' = cwd st /\
  (opts st' = opts st \/
   exists cv,
     (updatePackageJsonVersion p v st).1 = inr (Some v) /\
     opts st'
     = set_changes (changes (opts st) ++ [manifest_record st p cv v])%list
         (opts st)).
Proof.
  split_state st. unfold updatePackageJsonVersion, manifest_record. srun.
  destruct (fw !! p) as [[content|]|] eqn:Ep; srun; try solve [leaf; auto].
  destruct (JSON_parse content) as [e|packageData]; srun; [leaf; auto|].
  destruct (Obj.get_prop packageData "version") as [e|cv]; srun; [leaf; auto|].
  destruct (truthy cv); srun; [|leaf; auto].
  unfold writeFileSync, recordPackageJsonChange, relative_to_root, push_change.
  destruct d; srun; (split; [reflexivity|]); right; exists cv; split; reflexivity.
Qed.

Lemma once_syncPackageJson enabled v : once (syncPackageJson enabled v).
Proof.
  intros st. unfold syncPackageJson. rewrite bind_eq. unfold gets. cbv beta iota.
  destruct (packageJsonPath (opts st)) as [p|] eqn:Ep;
    [|apply once_step_refl; reflexivity].
  destruct (packageJsonUpdated (opts st)) eqn:Eg;
    [apply once_step_refl; reflexivity|].
  destruct enabled; [|apply once_step_refl; reflexivity].
  cbn [negb andb]. rewrite bind_eq.
  destruct (updatePackageJsonVersion_log p v st) as [_ Hl].
  destruct (updatePackageJsonVersion p v st) as [[e|r] st1]; cbn [fst snd] in *.
  - destruct Hl as [Ho | (cv & Hr & _)]; [|discriminate].
    apply once_step_refl. exact Ho.
  - unfold modify. cbn [snd opts set_opts changes set_packageJsonUpdated
                        packageJsonUpdated].
    destruct Hl as [Ho | (cv & _ & Ho)]; rewrite Ho.
    + exists []. rewrite app_nil_r.
      split; [reflexivity|]. split; [cbn; lia|]. split; [congruence | auto].
    + exists [manifest_record st p cv v].
      cbn [opts set_opts changes set_changes set_packageJsonUpdated
           packageJsonUpdated].
      rewrite manifest_records_snoc. cbn.
      split; [reflexivity|]. split; [lia|]. split; [congruence | auto].
Qed.

Ltac once_tac :=
  repeat
    first
      [ apply once_ret | apply once_existsSync | apply once_readFileSync
      | apply once_writeFileSync | apply once_lift | apply once_gets
      | apply once_console_warn | apply once_console_log
      | apply once_relative_to_root | apply once_capture_of_first
      | apply once_syncPackageJson
      | apply once_push_change; reflexivity
      | apply once_bind; [|intros]
      | match goal with
        | |- once (if ?b then _ else _) => destruct b
        | |- once (match ?x with _ => _ end) => destruct x
        end ].

Lemma once_recordAndroidChanges f oc nc on nn u :
  once (recordAndroidChanges f oc nc on nn u).
Proof. unfold recordAndroidChanges. once_tac. Qed.

Lemma once_recordIOSChanges f oc nc om nm u1 u2 :
  once (recordIOSChanges f oc nc om nm u1 u2).
Proof. unfold recordIOSChanges. once_tac. Qed.

Lemma once_processAndroidFile f vc vn : once (processAndroidFile f vc vn).
Proof.
  unfold processAndroidFile. once_tac.
  all: try apply once_recordAndroidChanges; once_tac.
Qed.

Lemma once_processIOSFile f cpv mv : once (processIOSFile f cpv mv).
Proof.
  unfold processIOSFile. once_tac.
  all: try apply once_recordIOSChanges; once_tac.
Qed.

Lemma once_android_loop files vc vn : forall results,
  once (android_loop files vc vn results).
Proof.
  induction files as [|f rest IH]; intros results; cbn [android_loop].
  - apply once_ret.
  - apply once_bind; [apply once_processAndroidFile | intros; apply IH].
Qed.

Lemma once_ios_loop files cpv mv : forall results,
  once (ios_loop files cpv mv results).
Proof.
  induction files as [|f rest IH]; intros results; cbn [ios_loop].
  - apply once_ret.
  - apply once_bind; [apply once_processIOSFile | intros; apply IH].
Qed.

Lemma once_when {A} (c : bool) (m : M A) : once m -> once (when c m).
Proof.
  intros Hm. unfold when. destruct c; [|apply once_ret].
  apply once_bind; [exact Hm | intros; apply once_ret].
Qed.

Lemma once_executePlatformUpdates platforms androidFiles iosFiles o :
  once (executePlatformUpdates platforms androidFiles iosFiles o).
Proof.
  unfold executePlatformUpdates, updateAndroidVersions, updateIOSVersions.
  repeat first
    [ apply once_android_loop | apply once_ios_loop
    | apply once_when | apply once_bind; [|intros] ].
Qed.

(** *** The update carries the version of the first file processed *)

(** How a file processor ends: it skips the file with a warning, or throws,
    or reaches the shared-manifest step with its result [res] computed, the
    guard and the manifest records still as they were and no file but its
    own written. *)
Definition reaches_sync {R} (version_of : R -> value) (enabled : bool)
    (f : path) (st : state) (outcome : (exn + option R) * state) : Prop :=
  (exists w, outcome = (inr None, warned w st)) \/
  (exists e st1, outcome = (inl e, st1)) \/
  (exists res st1,
     cwd st1 = cwd st /\
     projectRoot (opts st1) = projectRoot (opts st) /\
     packageJsonPath (opts st1) = packageJsonPath (opts st) /\
     packageJsonUpdated (opts st1) = packageJsonUpdated (opts st) /\
     manifest_records (changes (opts st1))
       = manifest_records (changes (opts st)) /\
     (forall q, q <> f -> files st1 !! q = files st !! q) /\
     outcome
     = match syncPackageJson enabled (version_of res) st1 with
       | (inl e, st2) => (inl e, st2)
       | (inr _, st2) => (inr (Some res), st2)
       end).

Ltac at_sync f :=
  right; right;
  match goal with
  | |- context [syncPackageJson ?en ?v ?s] =>
      match goal with
      | |- context [@inr exn _ (Some ?res)] => exists res, s
      end
  end;
  cbn [a_versionName i_marketingVersion];
  repeat (split; [first [ reflexivity
                        | rewrite !manifest_records_snoc;
                          cbn [platform String.eqb Ascii.eqb Bool.eqb];
                          rewrite !app_nil_r; reflexivity
                        | intros q Hq; srun;
                          first [reflexivity
                                | rewrite lookup_insert_ne by congruence;
                                  reflexivity] ]|]);
  try reflexivity.

Lemma processAndroidFile_shape f vc vn st :
  reaches_sync a_versionName (not_null vn) f st (processAndroidFile f vc vn st).
Proof.
  split_state st. unfold reaches_sync, processAndroidFile. srun.
  destruct (fw !! f) as [[content|]|] eqn:Ef; srun.
  2:{ right; left. eauto. }
  2:{ left. eexists. reflexivity. }
  destruct (negb _ || negb _); srun; [left; eexists; reflexivity|].
  unfold relative_to_root. srun.
  destruct (not_null vn); srun.
  - destruct (calculateNewSemanticVersion vn _ _) as [e|newVersionName];
      srun; [right; left; eauto|].
    unfold writeFileSync, recordAndroidChanges, relative_to_root, push_change.
    destruct d; srun; at_sync f.
  - unfold writeFileSync, recordAndroidChanges, relative_to_root, push_change.
    destruct d; srun; at_sync f.
Qed.

Lemma processIOSFile_shape f cpv mv st :
  reaches_sync i_marketingVersion (not_null mv) f st
    (processIOSFile f cpv mv st).
Proof.
  split_state st. unfold reaches_sync, processIOSFile. srun.
  destruct (fw !! f) as [[content|]|] eqn:Ef; srun.
  2:{ right; left. eauto. }
  2:{ left. eexists. reflexivity. }
  destruct (str_match_g re_currentProjectVersion_cap content) as [ms1|];
    [|srun; left; eexists; reflexivity].
  destruct (str_match_g re_marketingVersion_cap content) as [ms2|];
    [|srun; left; eexists; reflexivity].
  srun.
  destruct (capture_of_first_pure re_digits ms1) as [[e|v1] E1];
    rewrite !E1; srun; [right; left; eauto|].
  destruct (capture_of_first_pure re_marketingVersion_cap ms2) as [[e|v2] E2];
    rewrite !E2; srun; [right; left; eauto|].
  unfold relative_to_root. srun.
  destruct (not_null mv); srun.
  - destruct (calculateNewSemanticVersion mv _ _) as [e|newMarketingVersion];
      srun; [right; left; eauto|].
    unfold writeFileSync, recordIOSChanges, relative_to_root, push_change.
    destruct d; srun; destruct (not_null cpv); srun; at_sync f.
  - unfold writeFileSync, recordIOSChanges, relative_to_root, push_change.
    destruct d; srun; destruct (not_null cpv); srun; at_sync f.
Qed.

Lemma syncPackageJson_enabled v st p :
  packageJsonPath (opts st) = Some p ->
  packageJsonUpdated (opts st) = false ->
  syncPackageJson true v st
  = match updatePackageJsonVersion p v st with
    | (inl e, st1) => (inl e, st1)
    | (inr _, st1) =>
        (inr tt, set_opts (set_packageJsonUpdated true (opts st1)) st1)
    end.
Proof.
  intros Hp Hg. unfold syncPackageJson. rewrite bind_eq. unfold gets.
  cbv beta iota. rewrite Hp, Hg. cbn [negb andb]. rewrite bind_eq.
  destruct (updatePackageJsonVersion p v st) as [[e|r] st1]; reflexivity.
Qed.

(** The records against the manifest after a step that may have updated it
    to [v]: the same as before, or one more, for the version [v]. *)
Definition at_most_record (st : state) (p : path) (v : value)
    (st' : state) : Prop :=
  manifest_records (changes (opts st'))
    = manifest_records (changes (opts st)) \/
  exists cv,
    manifest_records (changes (opts st'))
    = (manifest_records (changes (opts st))
         ++ [manifest_record st p cv v])%list.

(** One batch, generically: a loop over [files] that runs [process] on each
    and collects the results. *)
Section Batch.
Variable R : Type.
Variable version_of : R -> value.
Variable enabled : bool.
Variable process : path -> M (option R).
Variable loop : list path -> list R -> M (list R).
Hypothesis loop_nil : forall results, loop [] results = mret results.
Hypothesis loop_cons : forall f rest results,
  loop (f :: rest) results
  = (result ← process f;
     loop rest (match result with
                | Some r => (results ++ [r])%list
                | None => results
                end)).
Hypothesis process_shape : forall f st,
  reaches_sync version_of enabled f st (process f st).
Hypothesis once_loop : forall files results, once (loop files results).

Lemma loop_extends files : forall results st res st',
  loop files results st = (inr res, st') ->
  exists news, res = (results ++ news)%list.
Proof.
  induction files as [|f rest IH]; intros results st res st' E.
  - rewrite loop_nil in E. inversion E. exists []. now rewrite app_nil_r.
  - rewrite loop_cons, bind_eq in E.
    destruct (process f st) as [[e|[r|]] st1]; [discriminate| |].
    + destruct (IH _ _ _ _ E) as [news ->].
      exists (r :: news). now rewrite <- app_assoc.
    + exact (IH _ _ _ _ E).
Qed.

(** A batch that adds no result has skipped every file: it leaves the
    files, the options and the working directory as they were. *)
Lemma loop_idle batch : forall results st st',
  loop batch results st = (inr results, st') ->
  files st' = files st /\ opts st' = opts st /\ cwd st' = cwd st.
Proof.
  induction batch as [|f rest IH]; intros results st st' E.
  - rewrite loop_nil in E. inversion E; subst. auto.
  - rewrite loop_cons, bind_eq in E.
    destruct (process_shape f st)
      as [(w & Hs) | [(e & st1 & Hs) | (r & st1 & _ & _ & _ & _ & _ & _ & Hs)]];
      rewrite Hs in E.
    + exact (IH _ _ _ E).
    + discriminate.
    + exfalso.
      destruct (syncPackageJson enabled (version_of r) st1) as [[e|u] st2];
        [discriminate|].
      destruct (loop_extends _ _ _ _ _ E) as [news Hn].
      apply (f_equal (@List.length R)) in Hn.
      rewrite !List.length_app in Hn. cbn [List.length] in Hn. lia.
Qed.

Lemma loop_first p files : forall results st res st',
  loop files results st = (inr res, st') ->
  packageJsonPath (opts st) = Some p ->
  packageJsonUpdated (opts st) = false ->
  enabled = true ->
  exists news, res = (results ++ news)%list /\
    match news with
    | [] =>
        manifest_records (changes (opts st'))
        = manifest_records (changes (opts st))
    | r :: _ =>
        packageJsonUpdated (opts st') = true /\
        at_most_record st p (version_of r) st' /\
        (forall doc cv,
           manifest_at st p doc cv -> p ∉ files ->
           manifest_records (changes (opts st'))
           = (manifest_records (changes (opts st))
                ++ [manifest_record st p cv (version_of r)])%list)
    end.
Proof.
  induction files as [|f rest IH]; intros results st res st' E Hp Hg He.
  - rewrite loop_nil in E. inversion E; subst. exists [].
    now rewrite app_nil_r.
  - rewrite loop_cons, bind_eq in E.
    destruct (process_shape f st)
      as [(w & Hs) | [(e & st1 & Hs) | (r & st1 & Hc & Hr & Hp1 & Hg1 & Hm1 & Hf1 & Hs)]];
      rewrite Hs in E.
    + (* skipped *)
      destruct (IH _ _ _ _ E Hp Hg He) as (news & -> & Hn).
      exists news. split; [reflexivity|].
      destruct news as [|r0 ?]; [exact Hn|].
      destruct Hn as (Hg' & Ha & Hv). split; [exact Hg'|]. split; [exact Ha|].
      intros doc cv Hm Hin. apply (Hv doc cv Hm).
      intros Hin'. apply Hin. now right.
    + discriminate.
    + (* the first file processed *)
      subst enabled.
      rewrite (syncPackageJson_enabled _ st1 p) in E by congruence.
      pose proof (updatePackageJsonVersion_log p (version_of r) st1) as [Hcw Hl].
      pose proof (updatePackageJsonVersion_footprint p (version_of r) st1)
        as [_ Hgu].
      destruct (updatePackageJsonVersion p (version_of r) st1)
        as [[e|r1] st2] eqn:Eu; [discriminate|].
      cbn [fst snd] in *.
      set (st3 := set_opts (set_packageJsonUpdated true (opts st2)) st2) in E.
      destruct (loop_extends _ _ _ _ _ E) as [news ->].
      destruct (once_loop rest (results ++ [r])%list st3)
        as (extra & Hx & _ & Hgd & _).
      rewrite E in Hx, Hgd. cbn [snd] in Hx, Hgd.
      destruct (Hgd eq_refl) as [-> Hg3]. rewrite app_nil_r in Hx.
      assert (Hrec : manifest_record st1 p = manifest_record st p).
      { unfold manifest_record. now rewrite Hc, Hr. }
      exists (r :: news). split; [now rewrite <- app_assoc|].
      split; [exact Hg3|]. split.
      * unfold at_most_record. rewrite Hx. subst st3. cbn [opts set_opts changes set_packageJsonUpdated].
        destruct Hl as [Ho | (cv & _ & Ho)]; rewrite Ho.
        -- left. exact Hm1.
        -- right. exists cv. cbn [changes set_changes].
           now rewrite manifest_records_snoc, Hm1, Hrec.
      * intros doc cv (content & Hfile & Hparse & Hv & Ht) Hin.
        assert (Hne : p <> f) by (intros ->; apply Hin; left).
        assert (Hm : manifest_at st1 p doc cv).
        { exists content. rewrite (Hf1 p Hne). auto. }
        rewrite (updatePackageJsonVersion_success p _ st1 doc cv Hm) in Eu.
        inversion Eu; subst st2. rewrite Hx. subst st3.
        cbn [opts set_opts changes set_changes set_packageJsonUpdated].
        now rewrite manifest_records_snoc, Hm1, Hrec.
Qed.

End Batch.

(** What a batch does to the manifest when it starts with the guard unset,
    a manifest path configured and the semantic-version field enabled: no
    record when no file was processed; otherwise the guard is set and there
    is at most one record, for the version computed for the first file
    processed; and exactly that record when the manifest can be updated and
    is not one of the batch's files. *)
Definition first_file_syncs {R} (version_of : R -> value) (batch : list path)
    (st : state) (res : list R) (st' : state) : Prop :=
  forall p,
    packageJsonPath (opts st) = Some p ->
    packageJsonUpdated (opts st) = false ->
    match res with
    | [] =>
        manifest_records (changes (opts st'))
        = manifest_records (changes (opts st))
    | r :: _ =>
        packageJsonUpdated (opts st') = true /\
        at_most_record st p (version_of r) st' /\
        (forall doc cv,
           manifest_at st p doc cv -> p ∉ batch ->
           manifest_records (changes (opts st'))
           = (manifest_records (changes (opts st))
                ++ [manifest_record st p cv (version_of r)])%list)
    end.

(** X2. In one run the shared manifest is updated at most once:
    every mutator, and the update step of the orchestrator as a whole,
    appends at most one change record against the manifest, none once the
    guard is set, and sets the guard when it appends one. The record carries
    the new semantic version computed for the first platform file processed.
    There is exactly one record when the manifest exists, parses and has a
    truthy version; when it does not, the guard is set all the same and no
    record is produced. *)
Theorem shared_manifest_synced_once :
  (forall batch v1 v2, once (updateAndroidVersions batch v1 v2)) /\
  (forall batch v1 v2, once (updateIOSVersions batch v1 v2)) /\
  (forall platforms androidFiles iosFiles o,
     once (executePlatformUpdates platforms androidFiles iosFiles o)) /\
  (forall batch versionCode versionName st res st',
     not_null versionName = true ->
     updateAndroidVersions batch versionCode versionName st = (inr res, st') ->
     first_file_syncs a_versionName batch st res st') /\
  (forall batch currentProjectVersion marketingVersion st res st',
     not_null marketingVersion = true ->
     updateIOSVersions batch currentProjectVersion marketingVersion st
       = (inr res, st') ->
     first_file_syncs i_marketingVersion batch st res st').
Proof.
  split; [|split; [|split; [|split]]].
  - intros. apply once_android_loop.
  - intros. apply once_ios_loop.
  - apply once_executePlatformUpdates.
  - intros batch vc vn st res st' Hn E p Hp Hg.
    destruct (loop_first _ a_versionName (not_null vn)
                (fun f => processAndroidFile f vc vn)
                (fun files results => android_loop files vc vn results)
                ltac:(reflexivity) ltac:(reflexivity)
                (fun f st => processAndroidFile_shape f vc vn st)
                (fun files results => once_android_loop files vc vn results)
                p batch [] st res st' E Hp Hg Hn) as (news & -> & Hfirst).
    exact Hfirst.
  - intros batch cpv mv st res st' Hn E p Hp Hg.
    destruct (loop_first _ i_marketingVersion (not_null mv)
                (fun f => processIOSFile f cpv mv)
                (fun files results => ios_loop files cpv mv results)
                ltac:(reflexivity) ltac:(reflexivity)
                (fun f st => processIOSFile_shape f cpv mv st)
                (fun files results => once_ios_loop files cpv mv results)
                p batch [] st res st' E Hp Hg Hn) as (news & -> & Hfirst).
    exact Hfirst.
Qed.

End Manifest.

(** ** Replacing the occurrences of a field *)

Module RegexFacts.
Import Text JS Regex TextFacts.

Lemma match_here_sound re : forall s m caps rest,
  match_here re s = Some (m, caps, rest) -> s = m ++ rest.
Proof.
  induction re as [|a re IH]; intros s m caps rest E; cbn [match_here] in E.
  - now inversion E.
  - destruct a as [l|k|k|].
    + destruct (strip_prefix l s) as [r|] eqn:El; [|discriminate].
      destruct (match_here re r) as [[[m' caps'] rest']|] eqn:Er; [|discriminate].
      inversion E; subst. apply strip_prefix_sound in El as ->.
      rewrite (IH _ _ _ _ Er). now rewrite append_assoc.
    + destruct (span (in_class k) s) as [run r] eqn:Es.
      destruct run as [|c run]; [discriminate|].
      destruct (match_here re r) as [[[m' caps'] rest']|] eqn:Er; [|discriminate].
      inversion E; subst. apply span_sound in Es as (-> & _ & _).
      rewrite (IH _ _ _ _ Er). cbn [append]. now rewrite append_assoc.
    + destruct (span (in_class k) s) as [run r] eqn:Es.
      destruct run as [|c run]; [discriminate|].
      destruct (match_here re r) as [[[m' caps'] rest']|] eqn:Er; [|discriminate].
      inversion E; subst. apply span_sound in Es as (-> & _ & _).
      rewrite (IH _ _ _ _ Er). cbn [append]. now rewrite append_assoc.
    + destruct (span_space s) as [run r] eqn:Es.
      destruct run as [|c run]; [discriminate|].
      destruct (match_here re r) as [[[m' caps'] rest']|] eqn:Er; [|discriminate].
      inversion E; subst. apply span_space_sound in Es as (-> & _ & _).
      rewrite (IH _ _ _ _ Er). cbn [append]. now rewrite append_assoc.
Qed.

(** A pattern that starts with a non-empty literal or a repetition never
    matches the empty text. *)
Definition never_empty (re : regex) : bool :=
  match re with
  | Lit (String _ _) :: _ | Plus _ :: _ | Group _ :: _ | Spaces :: _ => true
  | _ => false
  end.

Lemma match_here_nonempty re s m caps rest :
  never_empty re = true ->
  match_here re s = Some (m, caps, rest) -> m <> EmptyString.
Proof.
  destruct re as [|[l|k|k|] re]; cbn [never_empty match_here]; try discriminate.
  - destruct l as [|c l]; [discriminate|]. intros _.
    destruct (strip_prefix (String c l) s); [|discriminate].
    destruct (match_here re s0) as [[[m' ?] ?]|]; [|discriminate].
    intros [= <- _ _]. discriminate.
  - intros _. destruct (span (in_class k) s) as [[|c run] r]; [discriminate|].
    destruct (match_here re r) as [[[m' ?] ?]|]; [|discriminate].
    intros [= <- _ _]. discriminate.
  - intros _. destruct (span (in_class k) s) as [[|c run] r]; [discriminate|].
    destruct (match_here re r) as [[[m' ?] ?]|]; [|discriminate].
    intros [= <- _ _]. discriminate.
  - intros _. destruct (span_space s) as [[|c run] r]; [discriminate|].
    destruct (match_here re r) as [[[m' ?] ?]|]; [|discriminate].
    intros [= <- _ _]. discriminate.
Qed.

(** [r] is the leftmost occurrence of the pattern in [s]. *)
Definition leftmost (re : regex) (s : string) (r : match_result) : Prop :=
  s = before r ++ matched r ++ after r /\
  match_here re (matched r ++ after r)
    = Some (matched r, captures r, after r) /\
  forall pre post,
    before r = pre ++ post -> post <> EmptyString ->
    match_here re (post ++ matched r ++ after r) = None.

Lemma exec_leftmost re : forall s r, exec re s = Some r -> leftmost re s r.
Proof.
  induction s as [|c s IH]; intros r E; cbn [exec] in E.
  - destruct (match_here re EmptyString) as [[[m caps] rest]|] eqn:Em;
      [|discriminate].
    inversion E; subst; clear E. unfold leftmost. cbn.
    pose proof (match_here_sound _ _ _ _ _ Em) as Hs.
    split; [exact Hs|]. split; [now rewrite <- Hs|].
    intros [|? ?] post Hp Hne; [cbn in Hp; congruence | discriminate].
  - destruct (match_here re (String c s)) as [[[m caps] rest]|] eqn:Em.
    + inversion E; subst; clear E. unfold leftmost. cbn.
      pose proof (match_here_sound _ _ _ _ _ Em) as Hs.
      split; [exact Hs|]. split; [now rewrite <- Hs|].
      intros [|? ?] post Hp Hne; [cbn in Hp; congruence | discriminate].
    + destruct (exec re s) as [r'|] eqn:Er; [|discriminate].
      inversion E; subst; clear E.
      destruct (IH r' eq_refl) as (Hs & Hm & Hl).
      unfold leftmost. cbn [before matched captures after].
      split; [cbn; now rewrite <- Hs|]. split; [exact Hm|].
      intros pre post Hp Hne. destruct pre as [|c' pre].
      * cbn in Hp. subst post. cbn. now rewrite <- Hs.
      * cbn in Hp. inversion Hp; subst. now apply (Hl pre post).
Qed.

Lemma exec_None_tail re c s : exec re (String c s) = None -> exec re s = None.
Proof.
  cbn [exec]. destruct (match_here re (String c s)) as [[[? ?] ?]|]; [discriminate|].
  now destruct (exec re s).
Qed.

(** The original text, read back from the occurrences found in it. *)
Fixpoint original_text (rs : list match_result) (tail : string) : string :=
  match rs with
  | [] => tail
  | r :: rs' => before r ++ matched r ++ original_text rs' tail
  end.

(** The same text with every occurrence replaced by [new_text]. *)
Fixpoint replaced_text (new_text : string) (rs : list match_result)
    (tail : string) : string :=
  match rs with
  | [] => tail
  | r :: rs' => before r ++ new_text ++ replaced_text new_text rs' tail
  end.

(** [rs] are the successive occurrences of the pattern in [s], each the
    leftmost one in what follows the one before it, and [tail], which holds
    no occurrence, is what follows the last. *)
Fixpoint occurrences (re : regex) (s : string) (rs : list match_result)
    (tail : string) : Prop :=
  match rs with
  | [] => s = tail /\ exec re tail = None
  | r :: rs' => leftmost re s r /\ occurrences re (after r) rs' tail
  end.

Lemma occurrences_original re : forall rs s tail,
  occurrences re s rs tail -> s = original_text rs tail.
Proof.
  induction rs as [|r rs IH]; intros s tail Ho; cbn in *.
  - tauto.
  - destruct Ho as ((Hs & _ & _) & Hr). now rewrite <- (IH _ _ Hr).
Qed.

Lemma exec_all_fuel_occurrences re :
  never_empty re = true ->
  forall fuel s rs tail,
    (String.length s < fuel)%nat ->
    exec_all_fuel fuel re s = (rs, tail) ->
    occurrences re s rs tail.
Proof.
  intros Hne. induction fuel as [|fuel IH]; intros s rs tail Hlen E; [lia|].
  cbn [exec_all_fuel] in E.
  destruct (exec re s) as [r|] eqn:Er.
  - pose proof (exec_leftmost _ _ _ Er) as Hl.
    destruct Hl as (Hs & Hm & Hl).
    pose proof (match_here_nonempty _ _ _ _ _ Hne Hm) as Hnem.
    assert (Hshort : (String.length (after r) < fuel)%nat).
    { assert (0 < String.length (matched r))%nat
        by (destruct (matched r); [congruence | cbn; lia]).
      rewrite Hs, !length_app in Hlen. lia. }
    destruct (matched r) as [|c m] eqn:Emr; [congruence|].
    destruct (exec_all_fuel fuel re (after r)) as [rs' tail'] eqn:Ea.
    inversion E; subst rs tail'. cbn [occurrences]. split.
    + unfold leftmost. rewrite Emr. auto.
    + apply (IH _ _ _ Hshort Ea).
  - inversion E; subst. cbn. auto.
Qed.

Lemma exec_all_occurrences re s rs tail :
  never_empty re = true ->
  exec_all re s = (rs, tail) -> occurrences re s rs tail.
Proof.
  intros Hne E.
  apply (exec_all_fuel_occurrences re Hne (S (String.length s))); [lia|].
  exact E.
Qed.

(** *** Replacement texts without [$] patterns *)

Definition no_dollar (s : string) : bool :=
  all_chars (fun c => negb (Ascii.eqb c "$")) s.

Lemma expand_no_dollar repl position m tail caps :
  no_dollar repl = true -> expand repl position m tail caps = repl.
Proof.
  induction repl as [|c repl IH]; cbn [expand no_dollar all_chars];
    [reflexivity|].
  intros Hd. apply andb_prop in Hd as [Hc Hr]. rewrite Hc.
  now rewrite (IH Hr).
Qed.

Lemma rebuild_no_dollar repl : forall rs pre tail,
  no_dollar repl = true ->
  rebuild repl pre rs tail = replaced_text repl rs tail.
Proof.
  induction rs as [|r rs IH]; intros pre tail Hd; cbn; [reflexivity|].
  now rewrite expand_no_dollar, IH.
Qed.

Lemma no_dollar_app a b : no_dollar (a ++ b) = no_dollar a && no_dollar b.
Proof. apply all_chars_app. Qed.

Lemma no_dollar_digits s : all_chars is_digit s = true -> no_dollar s = true.
Proof.
  unfold no_dollar.
  induction s as [|c s IH]; cbn [all_chars]; [reflexivity|]. intros Hs.
  apply andb_prop in Hs as [Hc Hs]. rewrite (IH Hs), andb_true_r.
  apply is_digit_range in Hc.
  destruct (Ascii.eqb_spec c "$") as [->|]; [cbn in Hc; lia | reflexivity].
Qed.

Lemma no_dollar_drop_trailing_zeros s :
  no_dollar s = true -> no_dollar (drop_trailing_zeros s) = true.
Proof.
  unfold no_dollar.
  induction s as [|c s IH]; cbn [all_chars drop_trailing_zeros];
    [reflexivity|].
  intros Hs. apply andb_prop in Hs as [Hc Hs]. specialize (IH Hs).
  destruct (drop_trailing_zeros s) as [|d t].
  - destruct (Ascii.eqb c "0"); [reflexivity|]. cbn [all_chars].
    now rewrite Hc.
  - cbn [all_chars] in *. now rewrite Hc, IH.
Qed.

Lemma no_dollar_exponential ds :
  no_dollar ds = true -> no_dollar (exponential ds) = true.
Proof.
  intros Hd. unfold exponential.
  pose proof (no_dollar_drop_trailing_zeros ds Hd) as Hz.
  set (e := digits_of _).
  assert (He : no_dollar e = true).
  { apply no_dollar_digits.
    unfold e. destruct ds as [|c ds]; [reflexivity|].
    apply digits_of_spec. cbn [String.length]. lia. }
  destruct (drop_trailing_zeros ds) as [|h t]; [exact Hd|].
  unfold no_dollar in Hz. cbn [all_chars] in Hz.
  apply andb_prop in Hz as [Hh Ht].
  destruct t as [|t0 t].
  - change (String h ("e+" ++ e)) with (String h "e+" ++ e).
    rewrite no_dollar_app, He, andb_true_r.
    unfold no_dollar. cbn [all_chars]. now rewrite Hh.
  - change (String h ("." ++ String t0 t ++ "e+" ++ e))
      with (String h "." ++ (String t0 t ++ ("e+" ++ e))).
    rewrite !no_dollar_app, He, andb_true_r.
    fold (no_dollar (String t0 t)) in Ht. rewrite Ht.
    unfold no_dollar. cbn [all_chars]. now rewrite Hh.
Qed.

Lemma no_dollar_magnitude z : 0 <= z -> no_dollar (magnitude_to_string z) = true.
Proof.
  intros Hz. unfold magnitude_to_string.
  assert (Hd : no_dollar (digits_of (shortest z)) = true).
  { apply no_dollar_digits. apply digits_of_spec. now apply shortest_nonneg. }
  destruct (_ <? _); [exact Hd | now apply no_dollar_exponential].
Qed.

Lemma no_dollar_num n : no_dollar (num_to_string n) = true.
Proof.
  destruct n as [z|[]|]; try reflexivity. unfold num_to_string.
  destruct (Z.ltb_spec z 0).
  - change ("-" ++ magnitude_to_string (- z))
      with (String "-" (magnitude_to_string (- z))).
    cbn [no_dollar all_chars]. cbn [Ascii.eqb Bool.eqb negb andb].
    apply no_dollar_magnitude. lia.
  - apply no_dollar_magnitude. lia.
Qed.

(** Global replacement by a text without [$] patterns. *)
Lemma str_replace_g_spec re repl s rs tail :
  never_empty re = true -> no_dollar repl = true ->
  exec_all re s = (rs, tail) ->
  occurrences re s rs tail /\
  str_replace_g re repl s = replaced_text repl rs tail.
Proof.
  intros Hne Hd E. split; [now apply exec_all_occurrences|].
  unfold str_replace_g. rewrite E. now apply rebuild_no_dollar.
Qed.

(** Replacement of the first occurrence only. *)
Lemma str_replace_spec re repl s :
  no_dollar repl = true ->
  match exec re s with
  | Some r =>
      leftmost re s r /\
      str_replace re repl s = before r ++ repl ++ after r
  | None => str_replace re repl s = s
  end.
Proof.
  intros Hd. unfold str_replace. destruct (exec re s) as [r|] eqn:E.
  - split; [now apply exec_leftmost|]. now rewrite expand_no_dollar.
  - reflexivity.
Qed.

(** *** Patterns with and without their capture groups *)

Definition erase_atom (a : atom) : atom :=
  match a with Group k => Plus k | _ => a end.

(** The pattern with its groups turned into plain repetitions: the pattern
    used for replacing, from the pattern used for reading. *)
Definition erase (re : regex) : regex := List.map erase_atom re.

Definition without_captures (r : match_result) : match_result :=
  {| before := before r; matched := matched r; captures := [];
     after := after r |}.

Lemma match_here_erase re : forall s,
  match_here (erase re) s
  = match match_here re s with
    | Some (m, _, rest) => Some (m, [], rest)
    | None => None
    end.
Proof.
  induction re as [|a re IH]; intros s; [reflexivity|].
  destruct a as [l|k|k|]; cbn [erase List.map erase_atom match_here];
    fold (erase re).
  - destruct (strip_prefix l s) as [r|]; [|reflexivity].
    rewrite IH. now destruct (match_here re r) as [[[? ?] ?]|].
  - destruct (span (in_class k) s) as [[|c run] r]; [reflexivity|].
    rewrite IH. now destruct (match_here re r) as [[[? ?] ?]|].
  - destruct (span (in_class k) s) as [[|c run] r]; [reflexivity|].
    rewrite IH. now destruct (match_here re r) as [[[? ?] ?]|].
  - destruct (span_space s) as [[|c run] r]; [reflexivity|].
    rewrite IH. now destruct (match_here re r) as [[[? ?] ?]|].
Qed.

Lemma exec_erase re : forall s,
  exec (erase re) s = option_map without_captures (exec re s).
Proof.
  induction s as [|c s IH]; cbn [exec]; rewrite match_here_erase.
  - now destruct (match_here re EmptyString) as [[[? ?] ?]|].
  - destruct (match_here re (String c s)) as [[[? ?] ?]|]; [reflexivity|].
    rewrite IH. now destruct (exec re s).
Qed.

Lemma exec_all_fuel_erase re : forall fuel s,
  exec_all_fuel fuel (erase re) s
  = (List.map without_captures (exec_all_fuel fuel re s).1,
     (exec_all_fuel fuel re s).2).
Proof.
  induction fuel as [|fuel IH]; intros s; [reflexivity|].
  cbn [exec_all_fuel]. rewrite exec_erase.
  destruct (exec re s) as [r|]; [|reflexivity]. cbn [option_map].
  cbn [without_captures matched after].
  destruct (matched r); [reflexivity|].
  rewrite IH. now destruct (exec_all_fuel fuel re (after r)).
Qed.

(** The occurrences counted by [content.match(/.../g)] with the reading
    pattern are those replaced with the replacing pattern. *)
Lemma str_match_g_erase re s :
  str_match_g re s
  = match (exec_all (erase re) s).1 with
    | [] => None
    | rs => Some (List.map matched rs)
    end.
Proof.
  unfold str_match_g, exec_all. rewrite exec_all_fuel_erase. cbn [fst].
  destruct (exec_all_fuel _ re s).1 as [|r rs]; [reflexivity|].
  cbn [List.map without_captures matched]. f_equal. f_equal.
  induction rs as [|r' rs IH]; [reflexivity|]. cbn. now rewrite IH.
Qed.

End RegexFacts.

Section Occurrences.
Import Text JS Regex TextFacts RegexFacts.

(** C2 as amended. In an iOS project file every occurrence of an updated
    field is replaced by the same new text: with [rs] the [N] successive
    occurrences that [content.match(/.../g)] counts, the rewritten content is
    the original with each of them replaced by [FIELD = <new value>;]. In an
    Android build file only the first occurrence of an updated field is
    replaced and what follows it is left as it is. (A new value that holds a
    [$] is expanded as a replacement pattern; numbers never do.) *)
Theorem occurrences_replaced (content : string) (n : num) (v : value) :
  (forall rs tail,
     exec_all re_currentProjectVersion content = (rs, tail) ->
     occurrences re_currentProjectVersion content rs tail /\
     str_match_g re_currentProjectVersion_cap content
       = match rs with [] => None | _ => Some (List.map matched rs) end /\
     updateIOSFileContent content n v true false
       = replaced_text
           ("CURRENT_PROJECT_VERSION = " ++ num_to_string n ++ ";") rs tail) /\
  (no_dollar (JS.to_string v) = true ->
   forall rs tail,
     exec_all re_marketingVersion content = (rs, tail) ->
     occurrences re_marketingVersion content rs tail /\
     str_match_g re_marketingVersion_cap content
       = match rs with [] => None | _ => Some (List.map matched rs) end /\
     updateIOSFileContent content n v false true
       = replaced_text ("MARKETING_VERSION = " ++ JS.to_string v ++ ";")
           rs tail) /\
  updateIOSFileContent content n v true true
    = updateIOSFileContent (updateIOSFileContent content n v true false)
        n v false true /\
  match exec re_versionCode content with
  | Some r =>
      leftmost re_versionCode content r /\
      updateAndroidFileContent content n v false
        = before r ++ ("versionCode " ++ num_to_string n) ++ after r
  | None => updateAndroidFileContent content n v false = content
  end /\
  (no_dollar (JS.to_string v) = true ->
   let content1 := updateAndroidFileContent content n v false in
   match exec re_versionName content1 with
   | Some r =>
       leftmost re_versionName content1 r /\
       updateAndroidFileContent content n v true
         = before r ++ ("versionName " ++ quoted (JS.to_string v)) ++ after r
   | None => updateAndroidFileContent content n v true = content1
   end).
Proof.
  assert (Hn : no_dollar (num_to_string n) = true) by apply no_dollar_num.
  split; [|split; [|split; [|split]]].
  - intros rs tail E.
    destruct (str_replace_g_spec re_currentProjectVersion
                ("CURRENT_PROJECT_VERSION = " ++ num_to_string n ++ ";")
                content rs tail eq_refl) as [Ho Hr]; [|exact E|].
    { rewrite !no_dollar_app, Hn. reflexivity. }
    split; [exact Ho|]. split; [|exact Hr].
    rewrite str_match_g_erase.
    change (erase re_currentProjectVersion_cap) with re_currentProjectVersion.
    rewrite E. now destruct rs.
  - intros Hv rs tail E.
    destruct (str_replace_g_spec re_marketingVersion
                ("MARKETING_VERSION = " ++ JS.to_string v ++ ";")
                content rs tail eq_refl) as [Ho Hr]; [|exact E|].
    { rewrite !no_dollar_app, Hv. reflexivity. }
    split; [exact Ho|]. split; [|exact Hr].
    rewrite str_match_g_erase.
    change (erase re_marketingVersion_cap) with re_marketingVersion.
    rewrite E. now destruct rs.
  - reflexivity.
  - unfold updateAndroidFileContent.
    apply (str_replace_spec re_versionCode
             ("versionCode " ++ num_to_string n) content).
    rewrite no_dollar_app, Hn. reflexivity.
  - intros Hv content1. subst content1. unfold updateAndroidFileContent.
    apply (str_replace_spec re_versionName
             ("versionName " ++ quoted (JS.to_string v))).
    unfold quoted.
    change (String dquote (JS.to_string v ++ String dquote EmptyString))
      with (String dquote EmptyString
              ++ (JS.to_string v ++ String dquote EmptyString)).
    rewrite !no_dollar_app, Hv. reflexivity.
Qed.

End Occurrences.

(** ** Project detection *)

Section ObjLookup.
Import JS Obj.

Lemma lookup_app k (a b : fields) :
  lookup_field k (a ++ b)%list
  = match lookup_field k a with
    | Some v => Some v
    | None => lookup_field k b
    end.
Proof.
  induction a as [|[k0 v0] a IH]; cbn [app lookup_field]; [reflexivity|].
  now destruct (String.eqb k k0).
Qed.

Lemma lookup_insert_index i k' v fs : forall k,
  lookup_field k' fs = None ->
  lookup_field k (insert_index i k' v fs)
  = if String.eqb k k' then Some v else lookup_field k fs.
Proof.
  induction fs as [|[k0 v0] fs IH]; intros k Hn; cbn [insert_index lookup_field].
  - reflexivity.
  - cbn [lookup_field] in Hn.
    destruct (String.eqb k' k0) eqn:E0; [discriminate|].
    assert (Hsplit : lookup_field k ((k', v) :: (k0, v0) :: fs)
                     = if String.eqb k k' then Some v
                       else if String.eqb k k0 then Some v0
                            else lookup_field k fs) by reflexivity.
    destruct (index_key k0) as [j|]; [destruct (j <? i)|]; try exact Hsplit.
    cbn [lookup_field]. rewrite (IH k Hn).
    destruct (String.eqb k k0) eqn:Ek; [|reflexivity].
    apply String.eqb_eq in Ek. subst k0.
    rewrite String.eqb_sym in E0. now rewrite E0.
Qed.

(** Reading back after an assignment. *)
Lemma lookup_set_field k' v fs k :
  lookup_field k (set_field k' v fs)
  = if String.eqb k k' then Some v else lookup_field k fs.
Proof.
  unfold set_field. destruct (lookup_field k' fs) as [old|] eqn:E.
  - rewrite lookup_replace_field, E. reflexivity.
  - destruct (index_key k') as [i|].
    + now apply lookup_insert_index.
    + rewrite lookup_app. cbn [lookup_field].
      destruct (String.eqb k k') eqn:Ek.
      * apply String.eqb_eq in Ek. subst k'. now rewrite E.
      * now destruct (lookup_field k fs).
Qed.

(** The binding of [k] that wins when the properties [l] are assigned in
    turn: the last one. *)
Definition last_binding (k : string) (l : fields) : option value :=
  lookup_field k (List.rev l).

Lemma lookup_assign_all l : forall init k,
  lookup_field k (fold_left (fun acc kv => set_field kv.1 kv.2 acc) l init)
  = match last_binding k l with
    | Some v => Some v
    | None => lookup_field k init
    end.
Proof.
  unfold last_binding.
  induction l as [|[k0 v0] l IH]; intros init k; cbn [fold_left List.rev];
    [reflexivity|].
  rewrite IH, lookup_app, lookup_set_field. cbn [lookup_field fst snd].
  destruct (lookup_field k (List.rev l)); [reflexivity|].
  now destruct (String.eqb k k0).
Qed.

(** A property of [{...a, ...b}] is that of [b] when [b] has it, and that
    of [a] otherwise. *)
Lemma lookup_spread2 a b k :
  lookup_field k (spread2 a b)
  = match last_binding k (spread_fields b) with
    | Some v => Some v
    | None => last_binding k (spread_fields a)
    end.
Proof.
  unfold spread2. rewrite lookup_assign_all. unfold last_binding.
  rewrite List.rev_app_distr, lookup_app. cbn [lookup_field].
  destruct (lookup_field k (List.rev (spread_fields b))); [reflexivity|].
  now destruct (lookup_field k (List.rev (spread_fields a))).
Qed.

End ObjLookup.

Section DetectFacts.
Context `{Platform}.
Import Text JS Obj Path Run.










End DetectFacts.

(** ** More on version arithmetic *)

Module VersionOrder.
Import Text JS Version TextFacts VersionFacts.

(** [`${p.major}.${p.minor}.${p.patch}`] *)
Definition render (p : SemanticVersion) : string :=
  num_to_string (major p) ++ "." ++ num_to_string (minor p) ++ "."
    ++ num_to_string (patch p).

(** Precedence of semantic versions: major, then minor, then patch. *)
Definition version_lt (x y : SemanticVersion) : Prop :=
  match major x, minor x, patch x, major y, minor y, patch y with
  | Int a, Int b, Int c, Int a', Int b', Int c' =>
      a < a' \/ (a = a' /\ (b < b' \/ (b = b' /\ c < c')))
  | _, _, _, _, _, _ => False
  end.

(** The three numbers of a version are below [2^53], where a JavaScript
    number still counts the integers one by one. *)
Definition safe_version (p : SemanticVersion) : Prop :=
  match major p, minor p, patch p with
  | Int a, Int b, Int c => a < 2 ^ 53 /\ b < 2 ^ 53 /\ c < 2 ^ 53
  | _, _, _ => False
  end.

(** X4. Whenever [incrementSemanticVersion(v, kind)] returns, [kind] is one
    of the three kinds and [v] is a version string; when its three numbers
    are below [2^53], the result is again a version string, of strictly
    higher precedence than [v], and it is written canonically: parsing it
    and rendering the components gives the same text back, whatever leading
    zeros [v] had. *)
Theorem increment_increases (v kind s : string) :
  incrementSemanticVersion v kind = inr s ->
  exists old,
    parseSemanticVersion v = inr old /\
    (kind = "major" \/ kind = "minor" \/ kind = "patch") /\
    (safe_version old ->
     exists new,
       parseSemanticVersion s = inr new /\
       version_lt old new /\
       render new = s).
Proof.
  intros E. unfold incrementSemanticVersion in E.
  destruct (parseSemanticVersion v) as [e|old] eqn:Ep; [discriminate|].
  assert (Hv : exists a b c, valid_version v a b c).
  { unfold parseSemanticVersion in Ep.
    destruct (match_version v) as [[[a b] c]|] eqn:Em; [|discriminate].
    exists a, b, c. now apply match_version_sound. }
  destruct Hv as (a & b & c & Hv).
  rewrite (parse_valid _ _ _ _ Hv) in Ep. injection Ep as <-.
  destruct Hv as (Ha & Hb & Hc & _).
  apply numeral_nonneg in Ha as HM, Hb as Hm, Hc as Hpp.
  cbn [major minor patch] in E.
  set (M := digits_value 0 a) in *. set (m := digits_value 0 b) in *.
  set (p := digits_value 0 c) in *.
  eexists. split; [reflexivity|].
  assert (Hk : kind = "major" \/ kind = "minor" \/ kind = "patch").
  { destruct (String.eqb_spec kind "major"); [auto|].
    destruct (String.eqb_spec kind "minor"); [auto|].
    destruct (String.eqb_spec kind "patch"); [auto | discriminate E]. }
  split; [exact Hk|].
  unfold safe_version. cbn [major minor patch].
  destruct (of_Z M) as [M'| |] eqn:EM; try tauto.
  destruct (of_Z m) as [m'| |] eqn:Em; try tauto.
  destruct (of_Z p) as [p'| |] eqn:Epp; try tauto.
  change (2 ^ 53) with 9007199254740992. intros (HM' & Hm' & Hp').
  assert (M' = M /\ m' = m /\ p' = p) as (-> & -> & ->).
  { repeat split; eapply of_Z_below; eauto. }
  destruct Hk as [-> | [-> | ->]]; simpl (String.eqb _ _) in E;
    cbv beta iota zeta in E; cbn [major minor patch num_succ] in E;
    rewrite ?of_Z_safe in E by (unfold safe; lia).
  - exists {| major := Int (M + 1); minor := Int 0; patch := Int 0 |}.
    assert (Es : s = render {| major := Int (M + 1); minor := Int 0;
                               patch := Int 0 |})
      by (unfold render; cbn [major minor patch]; congruence).
    rewrite Es.
    split; [apply parse_render; lia|]. split; [cbn; lia | reflexivity].
  - exists {| major := Int M; minor := Int (m + 1); patch := Int 0 |}.
    assert (Es : s = render {| major := Int M; minor := Int (m + 1);
                               patch := Int 0 |})
      by (unfold render; cbn [major minor patch]; congruence).
    rewrite Es.
    split; [apply parse_render; lia|]. split; [cbn; lia | reflexivity].
  - exists {| major := Int M; minor := Int m; patch := Int (p + 1) |}.
    assert (Es : s = render {| major := Int M; minor := Int m;
                               patch := Int (p + 1) |})
      by (unfold render; cbn [major minor patch]; congruence).
    rewrite Es.
    split; [apply parse_render; lia|]. split; [cbn; lia | reflexivity].
Qed.

Lemma increment_increases_witness :
  incrementSemanticVersion "01.9.9" "minor" = inr "1.10.0" /\
  exists old new,
    parseSemanticVersion "01.9.9" = inr old /\ safe_version old /\
    parseSemanticVersion "1.10.0" = inr new /\
    version_lt old new /\ render new = "1.10.0".
Proof.
  split; [reflexivity|].
  destruct (increment_increases "01.9.9" "minor" "1.10.0" eq_refl)
    as (old & Hold & _ & Hnew).
  assert (Hs : safe_version old).
  { assert (E : parseSemanticVersion "01.9.9"
                = inr {| major := Int 1; minor := Int 9; patch := Int 9 |})
      by reflexivity.
    rewrite E in Hold. injection Hold as <-. repeat split. }
  destruct (Hnew Hs) as (new & Hparse & Hlt & Hrender).
  exists old, new. auto.
Defined.

(** X5. [calculateNewSemanticVersion(userValue, currentValue, type)]: a
    truthy [userValue] other than [true] is returned as it is, without being
    parsed or validated and without looking at [currentValue]; for [true]
    and for every falsy value the result is
    [incrementSemanticVersion(currentValue, type)]. An error can therefore
    only arise on the increment path, and it is one of the two errors of
    [incrementSemanticVersion]. *)
Theorem semantic_version_policy (currentValue incrementType : string) :
  (forall u, truthy u = true -> u <> VBool true ->
     calculateNewSemanticVersion u currentValue incrementType = inr u) /\
  (forall u, truthy u = false \/ u = VBool true ->
     calculateNewSemanticVersion u currentValue incrementType
     = match incrementSemanticVersion currentValue incrementType with
       | inl e => inl e
       | inr s => inr (VStr s)
       end) /\
  (forall u e,
     calculateNewSemanticVersion u currentValue incrementType = inl e ->
     (truthy u = false \/ u = VBool true) /\
     (e = "Invalid version format: " ++ currentValue \/
      e = "Invalid increment type: " ++ incrementType)) /\
  (forall u r,
     calculateNewSemanticVersion u currentValue incrementType = inr r ->
     r = u \/
     exists s, r = VStr s /\
               incrementSemanticVersion currentValue incrementType = inr s).
Proof.
  assert (Hexp : forall u, is_explicit u = true <->
                           truthy u = true /\ u <> VBool true).
  { intros u. unfold is_explicit. split.
    - intros Hu. apply andb_prop in Hu as [Ht Hb]. split; [exact Ht|].
      intros ->. discriminate.
    - intros [Ht Hne]. rewrite Ht.
      destruct u as [| |[]| | | |]; try reflexivity. congruence. }
  assert (Herr : forall e,
            incrementSemanticVersion currentValue incrementType = inl e ->
            e = "Invalid version format: " ++ currentValue \/
            e = "Invalid increment type: " ++ incrementType).
  { intros e. unfold incrementSemanticVersion, parseSemanticVersion.
    destruct (match_version currentValue) as [[[a b] c]|];
      [|intros [= <-]; now left].
    repeat (destruct (String.eqb _ _); [discriminate|]).
    intros [= <-]. now right. }
  split; [|split; [|split]].
  - intros u Ht Hne. unfold calculateNewSemanticVersion.
    now rewrite (proj2 (Hexp u) (conj Ht Hne)).
  - intros u Hu. unfold calculateNewSemanticVersion.
    destruct (is_explicit u) eqn:Eu; [|reflexivity].
    apply Hexp in Eu as [Ht Hne]. destruct Hu as [Hf | ->]; congruence.
  - intros u e. unfold calculateNewSemanticVersion.
    destruct (is_explicit u) eqn:Eu; [discriminate|].
    destruct (incrementSemanticVersion currentValue incrementType) as [e'|s]
      eqn:Ei; [|discriminate].
    intros [= <-]. split; [|now apply Herr].
    destruct (truthy u) eqn:Ht; [|now left]. right.
    destruct u as [| |[]| | | |]; try reflexivity;
      exfalso; unfold is_explicit in Eu; rewrite Ht in Eu; discriminate.
  - intros u r. unfold calculateNewSemanticVersion.
    destruct (is_explicit u); [intros [= <-]; now left|].
    destruct (incrementSemanticVersion currentValue incrementType) as [e'|s];
      [discriminate|].
    intros [= <-]. right. now exists s.
Qed.

End VersionOrder.

(** ** Loading the configuration *)

Section ConfigFacts.
Context `{Platform}.
Import Text JS Obj Path Run.

(** The configuration object the file at [p] yields: the default export of
    a [.js] module, the parsed text of any other file; none when the file is
    missing or is a directory, when loading it fails, and when what it
    yields is not a plain object. *)
Definition config_at (st : state) (p : path) : option value :=
  match files st !! p with
  | Some (File src) =>
      match (if ends_with ".js" (Path.to_string p)
             then import_default src else JSON_parse src) with
      | inr (VObj fs) => Some (VObj fs)
      | _ => None
      end
  | _ => None
  end.

(** The files [loadProjectConfiguration] tries, in the order it tries
    them. *)
Definition candidates (projectRoot : path) (customConfigPath : option path)
  : list path :=
  (match customConfigPath with Some p => [p] | None => [] end
   ++ List.map (join1 projectRoot) configFiles)%list.

Fixpoint first_config (st : state) (l : list path) : option value :=
  match l with
  | [] => None
  | p :: rest =>
      match config_at st p with
      | Some c => Some c
      | None => first_config st rest
      end
  end.

(** The two warnings of [loadConfigFromPath], naming the file. *)
Definition load_warning (p : path) (w : string) : Prop :=
  w = "Warning: Invalid configuration in " ++ basename p
        ++ ": must be an object"
  \/ exists error,
       w = "Warning: Could not load config from " ++ basename p ++ ": "
             ++ error.

(** The candidates that are tried and rejected with a warning: those in
    front of the first one that yields a configuration which exist. *)
Fixpoint rejected (st : state) (l : list path) : list path :=
  match l with
  | [] => []
  | p :: rest =>
      match config_at st p with
      | Some _ => []
      | None =>
          match files st !! p with
          | Some _ => p :: rejected st rest
          | None => rejected st rest
          end
      end
  end.

Definition warn_all (ws : list string) (st : state) : state :=
  set_console (console st ++ List.map Warn ws)%list st.

Lemma config_at_warn_all ws st p : config_at (warn_all ws st) p = config_at st p.
Proof. reflexivity. Qed.

Lemma first_config_warn_all ws st l :
  first_config (warn_all ws st) l = first_config st l.
Proof. induction l as [|p l IH]; cbn; [reflexivity|]. now rewrite IH. Qed.

Lemma warn_all_nil st : warn_all [] st = st.
Proof.
  destruct st. unfold warn_all, set_console. cbn. now rewrite app_nil_r.
Qed.

Lemma warn_all_app ws1 ws2 st :
  warn_all ws2 (warn_all ws1 st) = warn_all (ws1 ++ ws2) st.
Proof.
  destruct st. unfold warn_all, set_console. cbn.
  now rewrite List.map_app, app_assoc.
Qed.

Lemma rejected_warn_all ws st l : rejected (warn_all ws st) l = rejected st l.
Proof. induction l as [|p l IH]; cbn; [reflexivity|]. now rewrite IH. Qed.

Lemma loadConfigFromPath_outcome p st :
  exists ws,
    loadConfigFromPath p st = (inr (config_at st p), warn_all ws st) /\
    Forall2 load_warning (rejected st [p]) ws.
Proof.
  assert (Hquiet : forall c,
            (inr c : exn + option value, st) = (inr c, warn_all [] st))
    by (intros; now rewrite warn_all_nil).
  unfold loadConfigFromPath, import_config, try_catch.
  cbn [rejected]. unfold config_at.
  mrun.
  destruct (files st !! p) as [[src|]|] eqn:Ep; mrun.
  - destruct (ends_with ".js" (Path.to_string p)); mrun; rewrite ?Ep; mrun.
    + destruct (import_default src) as [e|[]]; mrun;
        first [ exists []; split; [apply Hquiet | constructor]
              | eexists [_]; split; [reflexivity|];
                constructor; [|constructor]; unfold load_warning;
                first [left; reflexivity | right; eexists; reflexivity] ].
    + destruct (JSON_parse src) as [e|[]]; mrun;
        first [ exists []; split; [apply Hquiet | constructor]
              | eexists [_]; split; [reflexivity|];
                constructor; [|constructor]; unfold load_warning;
                first [left; reflexivity | right; eexists; reflexivity] ].
  - destruct (ends_with ".js" (Path.to_string p)); mrun; rewrite ?Ep; mrun;
      (eexists [_]; split; [reflexivity|];
       constructor; [|constructor]; unfold load_warning;
                first [left; reflexivity | right; eexists; reflexivity]).
  - exists []. split; [apply Hquiet | constructor].
Qed.

Definition configuration_of (found : option value) : value :=
  match found with
  | Some c => mergeConfigs DEFAULT_CONFIG c
  | None => getDefaultConfig
  end.

Lemma rejected_cons st p l :
  rejected st (p :: l)
  = (rejected st [p]
       ++ match config_at st p with Some _ => [] | None => rejected st l end)%list.
Proof.
  cbn [rejected]. destruct (config_at st p); [reflexivity|].
  now destruct (files st !! p).
Qed.

Lemma search_config_outcome root names : forall st,
  exists ws,
    search_config root names st
    = (inr (configuration_of
              (first_config st (List.map (join1 root) names))),
       warn_all ws st) /\
    Forall2 load_warning (rejected st (List.map (join1 root) names)) ws.
Proof.
  induction names as [|name names IH]; intros st; cbn [search_config List.map].
  - exists []. rewrite warn_all_nil. split; [reflexivity | constructor].
  - rewrite bind_eq.
    destruct (loadConfigFromPath_outcome (join1 root name) st)
      as (ws1 & -> & Hw1).
    rewrite rejected_cons. cbn [first_config].
    destruct (config_at st (join1 root name)) as [c|] eqn:Ec.
    + exists ws1. split; [reflexivity|]. now rewrite app_nil_r.
    + destruct (IH (warn_all ws1 st)) as (ws2 & -> & Hw2).
      rewrite first_config_warn_all, rejected_warn_all in *.
      rewrite warn_all_app. exists (ws1 ++ ws2)%list.
      split; [reflexivity|]. now apply Forall2_app.
Qed.

(** X6. [loadProjectConfiguration] never raises and never fails: it returns
    the defaults merged with the first candidate that yields a configuration
    object - the custom path when one is given, then [vbump.config.js],
    [vbump.config.json], [.vbump.config.js], [.vbump.config.json] under the
    project root - and plain defaults when none does. A candidate that does
    not exist is passed over silently, the custom path included; one that
    exists but cannot be loaded or is not a plain object costs one warning
    naming it. Nothing but the console changes, and the handler of the outer
    [try] never runs. *)
Theorem configuration_always_loads (projectRoot : path)
    (customConfigPath : option path) (st : state) :
  exists ws,
    loadProjectConfiguration projectRoot customConfigPath st
    = (inr (configuration_of
              (first_config st (candidates projectRoot customConfigPath))),
       warn_all ws st) /\
    Forall2 load_warning
      (rejected st (candidates projectRoot customConfigPath)) ws /\
    files (warn_all ws st) = files st /\
    opts (warn_all ws st) = opts st /\
    cwd (warn_all ws st) = cwd st.
Proof.
  unfold loadProjectConfiguration, try_catch, candidates.
  destruct customConfigPath as [p|]; cbn [app]; rewrite bind_eq.
  - destruct (loadConfigFromPath_outcome p st) as (ws1 & -> & Hw1).
    rewrite rejected_cons. cbn [first_config].
    destruct (config_at st p) as [c|] eqn:Ec.
    + exists ws1. split; [reflexivity|]. rewrite app_nil_r. now split.
    + destruct (search_config_outcome projectRoot configFiles (warn_all ws1 st))
        as (ws2 & -> & Hw2).
      rewrite first_config_warn_all, rejected_warn_all in *.
      rewrite warn_all_app. exists (ws1 ++ ws2)%list.
      split; [reflexivity|]. split; [now apply Forall2_app | now split].
  - unfold mret, M_ret, ret.
    destruct (search_config_outcome projectRoot configFiles st)
      as (ws & -> & Hw).
    exists ws. split; [reflexivity|]. now split.
Qed.

End ConfigFacts.

(** ** Merging a configuration with the defaults *)

Section MergeFacts.
Import Text JS Obj.

(** An object literal or a parsed object has each key once. *)
Definition distinct_keys (fs : fields) : Prop := NoDup (List.map fst fs).

Lemma lookup_field_None k fs :
  lookup_field k fs = None <-> k ∉ List.map fst fs.
Proof.
  induction fs as [|[k0 v0] fs IH]; cbn [lookup_field List.map fst].
  - split; [intros _ Hin; inversion Hin | reflexivity].
  - destruct (String.eqb_spec k k0) as [->|Hne].
    + split; [discriminate|]. intros Hn. exfalso. apply Hn. constructor.
    + rewrite IH. split.
      * intros Hn Hin. apply elem_of_cons in Hin as [?|?]; [congruence|auto].
      * intros Hn Hin. apply Hn. now constructor.
Qed.

Lemma last_binding_distinct k fs :
  distinct_keys fs -> last_binding k fs = lookup_field k fs.
Proof.
  unfold last_binding, distinct_keys.
  induction fs as [|[k0 v0] fs IH]; cbn [List.rev List.map fst lookup_field];
    intros Hnd; [reflexivity|].
  apply NoDup_cons in Hnd as [Hnin Hnd].
  rewrite lookup_app, (IH Hnd). cbn [lookup_field].
  destruct (String.eqb_spec k k0) as [->|Hne].
  - apply lookup_field_None in Hnin. now rewrite Hnin.
  - now destruct (lookup_field k fs).
Qed.

(** The value [mergeConfigs] gives a key of the defaults. *)
Definition merged_entry (d : value) (u : option value) : value :=
  match u with
  | Some (VObj uf) => VObj (spread2 d (VObj uf))
  | Some VUndefined | None => copy_default d
  | Some x => x
  end.

Lemma first_loop user d : forall init k,
  distinct_keys d ->
  lookup_field k
    (fold_left
       (fun result kv =>
          let key := kv.1 in
          if truthy (user key) && is_plain_object (user key) then
            set_field key (VObj (spread2 kv.2 (user key))) result
          else if negb (is_undefined (user key)) then
            set_field key (user key) result
          else set_field key (copy_default kv.2) result) d init)
  = match lookup_field k d with
    | Some dv =>
        Some (if truthy (user k) && is_plain_object (user k)
              then VObj (spread2 dv (user k))
              else if negb (is_undefined (user k)) then user k
                   else copy_default dv)
    | None => lookup_field k init
    end.
Proof.
  induction d as [|[k0 v0] d IH]; intros init k Hnd;
    cbn [fold_left lookup_field]; [reflexivity|].
  apply NoDup_cons in Hnd as [Hnin Hnd]. rewrite (IH _ _ Hnd).
  cbn [fst snd] in *.
  destruct (String.eqb_spec k k0) as [->|Hne].
  - apply lookup_field_None in Hnin. rewrite Hnin.
    destruct (truthy (user k0) && is_plain_object (user k0));
      [|destruct (negb (is_undefined (user k0)))];
      now rewrite lookup_set_field, String.eqb_refl.
  - destruct (lookup_field k d); [reflexivity|].
    apply String.eqb_neq in Hne.
    destruct (truthy (user k0) && is_plain_object (user k0));
      [|destruct (negb (is_undefined (user k0)))];
      now rewrite lookup_set_field, Hne.
Qed.

Lemma second_loop (g : string -> bool) u : forall init k,
  distinct_keys u ->
  lookup_field k
    (fold_left
       (fun result kv =>
          if negb (g kv.1) then set_field kv.1 kv.2 result else result)
       u init)
  = match lookup_field k u with
    | Some v => if g k then lookup_field k init else Some v
    | None => lookup_field k init
    end.
Proof.
  induction u as [|[k0 v0] u IH]; intros init k Hnd;
    cbn [fold_left lookup_field]; [reflexivity|].
  apply NoDup_cons in Hnd as [Hnin Hnd]. rewrite (IH _ _ Hnd).
  cbn [fst snd] in *. apply lookup_field_None in Hnin.
  destruct (String.eqb_spec k k0) as [->|Hne].
  - rewrite Hnin. destruct (g k0); cbn [negb]; [reflexivity|].
    now rewrite lookup_set_field, String.eqb_refl.
  - apply String.eqb_neq in Hne.
    destruct (lookup_field k u); [destruct (g k)|];
      destruct (g k0); cbn [negb]; try reflexivity;
      now rewrite lookup_set_field, Hne.
Qed.

(** X7. [mergeConfigs(defaultConfig, userConfig)] key by key. A key of the
    defaults is always present in the result: with the user's plain object
    under that key it is the shallow merge [{...default, ...user}], so a
    nested property the user leaves out keeps its default; with any other
    defined user value - a string, a number, an array, [false], [null] - it
    is that value, not validated; and with no user value or [undefined] it is
    a copy of the default. A key only the user has is carried over, unless
    it is the name of a property every object inherits ([constructor],
    [toString], ...): the [in] test finds that name on the defaults and the
    key is dropped. *)
Theorem merge_key_by_key (d u : fields) :
  distinct_keys d -> distinct_keys u ->
  (forall k,
     lookup_field k (spread_fields (mergeConfigs (VObj d) (VObj u)))
     = match lookup_field k d with
       | Some dv => Some (merged_entry dv (lookup_field k u))
       | None =>
           if existsb (String.eqb k) object_prototype_keys then None
           else lookup_field k u
       end) /\
  (forall k dv df uf j,
     lookup_field k d = Some dv -> spread_fields dv = df ->
     distinct_keys df -> lookup_field k u = Some (VObj uf) ->
     distinct_keys uf ->
     exists merged,
       lookup_field k (spread_fields (mergeConfigs (VObj d) (VObj u)))
         = Some (VObj merged) /\
       lookup_field j merged
         = match lookup_field j uf with
           | Some v => Some v
           | None => lookup_field j df
           end).
Proof.
  intros Hd Hu.
  assert (Hall : forall k,
     lookup_field k (spread_fields (mergeConfigs (VObj d) (VObj u)))
     = match lookup_field k d with
       | Some dv => Some (merged_entry dv (lookup_field k u))
       | None =>
           if existsb (String.eqb k) object_prototype_keys then None
           else lookup_field k u
       end).
  { intros k. unfold mergeConfigs. cbn [spread_fields].
    rewrite (second_loop (fun key => key_in key d)) by exact Hu.
    rewrite (first_loop (fun key => default VUndefined (lookup_field key u)))
      by exact Hd.
    cbn [lookup_field]. unfold key_in.
    destruct (lookup_field k d) as [dv|] eqn:Ed.
    - cbn [orb].
      assert (Hentry :
        (if truthy (default VUndefined (lookup_field k u))
            && is_plain_object (default VUndefined (lookup_field k u))
         then VObj (spread2 dv (default VUndefined (lookup_field k u)))
         else if negb (is_undefined (default VUndefined (lookup_field k u)))
              then default VUndefined (lookup_field k u)
              else copy_default dv)
        = merged_entry dv (lookup_field k u)).
      { destruct (lookup_field k u) as [[| |[]|[z|[]|]|s|items|uf]|];
          cbn; try reflexivity.
        - now destruct (z =? 0).
        - now destruct (String.eqb s EmptyString). }
      rewrite Hentry. now destruct (lookup_field k u).
    - cbn [orb].
      destruct (lookup_field k u) as [v|];
        now destruct (existsb (String.eqb k) object_prototype_keys). }
  split; [exact Hall|].
  intros k dv df uf j Ed Edf Hdf Eu Huf.
  exists (spread2 dv (VObj uf)). rewrite Hall, Ed, Eu. split; [reflexivity|].
  rewrite lookup_spread2. cbn [spread_fields].
  rewrite (last_binding_distinct j uf Huf), Edf,
    (last_binding_distinct j df Hdf).
  reflexivity.
Qed.

End MergeFacts.


(** ** The readers against the updaters *)

Section ReaderFacts.
Context `{Platform}.
Import Text JS Version Regex Obj Json Path Run.

(** X8. [parsePackageJsonVersion] reads only, and it tells what
    [updatePackageJsonVersion] will do with the same file: where the reader
    raises "not found" the updater warns and returns [null]; on a file that
    exists the updater raises exactly the error the reader raises (a
    directory, a text that does not parse, a [null] document); where the
    reader reports [null] for the version the updater warns that it could
    not find one and returns [null]; and where the reader reports a version
    the updater succeeds and records that version as the old value. *)
Theorem manifest_reader_agrees (p : path) (newVersion : value) (st : state) :
  (forall r st', parsePackageJsonVersion p st = (r, st') -> st' = st) /\
  (files st !! p = None ->
   parsePackageJsonVersion p st
     = (inl ("package.json not found at: " ++ Path.to_string p), st) /\
   updatePackageJsonVersion p newVersion st
     = (inr None,
        warned (warning_sign ++ "package.json not found: "
                  ++ Path.to_string p) st))
  /\
  (files st !! p <> None ->
   match (parsePackageJsonVersion p st).1 with
   | inl e => updatePackageJsonVersion p newVersion st = (inl e, st)
   | inr VNull =>
       updatePackageJsonVersion p newVersion st
       = (inr None,
          warned (warning_sign
                    ++ "Could not find current version in package.json") st)
   | inr version =>
       truthy version = true /\
       exists st',
         updatePackageJsonVersion p newVersion st
           = (inr (Some newVersion), st') /\
         changes (opts st')
           = (changes (opts st)
                ++ [manifest_record st p version newVersion])%list
   end).
Proof.
  split; [|split].
  - unfold parsePackageJsonVersion. mrun.
    destruct (files st !! p) as [[content|]|] eqn:Ep; mrun;
      try (intros r st' [= <- <-]; reflexivity).
    destruct (JSON_parse content) as [e|packageData]; mrun;
      try (intros r st' [= <- <-]; reflexivity).
    destruct (get_prop packageData "version") as [e|version]; mrun;
      intros r st' [= <- <-]; reflexivity.
  - intros Hf. unfold parsePackageJsonVersion, updatePackageJsonVersion.
    mrun. split; reflexivity.
  - intros Hf. unfold parsePackageJsonVersion, updatePackageJsonVersion.
    split_state st. cbn [files] in Hf. srun.
    destruct (fw !! p) as [[content|]|] eqn:Ep; [| |congruence]; srun;
      [|reflexivity].
    destruct (JSON_parse content) as [e|packageData]; srun; [reflexivity|].
    destruct (get_prop packageData "version") as [e|version]; srun;
      [reflexivity|].
    destruct (truthy version) eqn:Ht; srun; [|reflexivity].
    unfold writeFileSync, recordPackageJsonChange, relative_to_root,
      push_change, manifest_record.
    destruct version; try discriminate Ht; (split; [exact Ht|]);
      destruct d; srun; eexists; (split; [reflexivity|]); reflexivity.
Qed.

End ReaderFacts.

Section CaptureFacts.
Import Text JS Regex TextFacts RegexFacts.

(** The classes of the capture groups of a pattern, in order. *)
Fixpoint groups (re : regex) : list cclass :=
  match re with
  | [] => []
  | Group k :: re' => k :: groups re'
  | _ :: re' => groups re'
  end.

(** A text captured by a group of class [k]. *)
Definition captured (k : cclass) (c : string) : Prop :=
  c <> EmptyString /\ all_chars (in_class k) c = true.

Lemma match_here_groups re : forall s m caps rest,
  match_here re s = Some (m, caps, rest) -> Forall2 captured (groups re) caps.
Proof.
  induction re as [|[l|k|k|] re IH]; intros s m caps rest E;
    cbn [match_here groups] in *.
  - injection E as <- <- <-. constructor.
  - destruct (strip_prefix l s) as [r|]; [|discriminate].
    destruct (match_here re r) as [[[m' caps'] rest']|] eqn:E'; [|discriminate].
    injection E as <- <- <-. eapply IH, E'.
  - destruct (span (in_class k) s) as [run r] eqn:Es.
    destruct run as [|c run]; [discriminate|].
    destruct (match_here re r) as [[[m' caps'] rest']|] eqn:E'; [|discriminate].
    injection E as <- <- <-. eapply IH, E'.
  - destruct (span (in_class k) s) as [run r] eqn:Es.
    destruct run as [|c run]; [discriminate|].
    destruct (match_here re r) as [[[m' caps'] rest']|] eqn:E'; [|discriminate].
    injection E as <- <- <-. constructor; [|eapply IH, E'].
    apply span_sound in Es as (_ & Hall & _). split; [discriminate | exact Hall].
  - destruct (span_space s) as [run r] eqn:Es.
    destruct run as [|c run]; [discriminate|].
    destruct (match_here re r) as [[[m' caps'] rest']|] eqn:E'; [|discriminate].
    injection E as <- <- <-. eapply IH, E'.
Qed.

Lemma exec_groups re s r :
  exec re s = Some r -> Forall2 captured (groups re) (captures r).
Proof.
  intros E. apply exec_leftmost in E as (_ & Hm & _).
  eapply match_here_groups, Hm.
Qed.

(** A pattern with one group captures one non-empty text. *)
Lemma one_group re k s r :
  groups re = [k] -> exec re s = Some r ->
  exists c, captures r = [c] /\ captured k c.
Proof.
  intros Hg E. apply exec_groups in E. rewrite Hg in E.
  inversion E as [|k' c ks cs Hc Hrest]; subst.
  inversion Hrest; subst. now exists c.
Qed.

(** In auto-increment mode the new build number is the current one plus
    one as JavaScript adds: the next integer while the current one is below
    [2^53] in magnitude. *)
Lemma auto_increment_next (code : string) (k : Z) :
  JS.parseInt_string code = JS.Int k -> Z.abs k < 2 ^ 53 ->
  Version.calculateNewBuildNumber (VBool true) (VStr code) = JS.Int (k + 1).
Proof.
  intros Hk Hr. change (2 ^ 53) with 9007199254740992 in Hr.
  change (Version.calculateNewBuildNumber (VBool true) (VStr code))
    with (JS.num_succ (JS.parseInt_string code)).
  rewrite Hk. apply TextFacts.num_succ_safe. lia.
Qed.

End CaptureFacts.

Section AndroidReader.
Context `{Platform}.
Import Text JS Version Regex Obj Json Path Run TextFacts RegexFacts.

(** X9. [parseAndroidVersions] reads only, and it tells what
    [processAndroidFile] will do with the same file. Where the reader raises
    "not found" the updater warns and skips the file. On a file that exists
    the reader returns; if it reports [null] for either field the updater
    warns that it could not find the values and skips the file; if it
    reports both, a build-number-only update goes through, keeps the
    reader's [versionName], records the reader's build number text as the
    old value, and in auto-increment mode sets the build number to the
    reader's [versionCode] plus one as JavaScript adds: the next integer
    while the reader's number is below [2^53]. *)
Theorem android_reader_agrees (f : path) (st : state) :
  (forall r st', parseAndroidVersions f st = (r, st') -> st' = st) /\
  (files st !! f = None ->
   parseAndroidVersions f st
     = (inl ("Android build.gradle not found at: " ++ Path.to_string f), st) /\
   forall versionCode versionName,
     processAndroidFile f versionCode versionName st
     = (inr None,
        warned (warning_sign ++ "Android build.gradle not found: "
                  ++ Path.to_string f) st))
  /\
  (forall content,
     files st !! f = Some (File content) ->
     exists r,
       parseAndroidVersions f st = (inr r, st) /\
       (pa_versionCode r = VNull \/ pa_versionName r = VNull ->
        forall versionCode versionName,
          processAndroidFile f versionCode versionName st
          = (inr None,
             warned (warning_sign ++ "Could not find version values in: "
                       ++ Path.to_string f) st)) /\
       (pa_versionCode r <> VNull -> pa_versionName r <> VNull ->
        exists code name,
          pa_versionCode r = VNum (parseInt_string code) /\
          pa_versionName r = VStr name /\
          calculateNewBuildNumber (VBool true) (VStr code)
            = num_succ (parseInt_string code) /\
          (forall k, parseInt_string code = Int k -> Z.abs k < 2 ^ 53 ->
             calculateNewBuildNumber (VBool true) (VStr code) = Int (k + 1)) /\
          forall versionCode, exists st',
            processAndroidFile f versionCode VNull st
            = (inr (Some {| a_filePath := f;
                            a_versionCode :=
                              calculateNewBuildNumber versionCode (VStr code);
                            a_versionName := VStr name |}), st') /\
            changes (opts st')
            = (changes (opts st)
                 ++ [{| platform := "Android";
                        file := Path.relative
                                  (default (cwd st) (projectRoot (opts st))) f;
                        item := "versionCode";
                        oldValue := VStr code;
                        newValue :=
                          VNum (calculateNewBuildNumber versionCode
                                  (VStr code)) |}])%list)).
Proof.
  split; [|split].
  - unfold parseAndroidVersions. mrun.
    destruct (files st !! f) as [[content|]|] eqn:Ef; mrun;
      intros r st' [= <- <-]; reflexivity.
  - intros Hf. unfold parseAndroidVersions, processAndroidFile. mrun.
    split; [reflexivity|]. intros vc vn. mrun. reflexivity.
  - intros content Hf. eexists. split.
    { unfold parseAndroidVersions. mrun. reflexivity. }
    cbn [pa_versionCode pa_versionName]. unfold str_match.
    split.
    + intros Hnull vc vn. unfold processAndroidFile, first_capture, str_match.
      mrun.
      destruct (exec re_versionCode_cap content) as [r1|] eqn:E1.
      * destruct (exec re_versionName_cap content) as [r2|] eqn:E2.
        -- exfalso. destruct Hnull as [Hn|Hn]; [discriminate Hn|].
           destruct (one_group re_versionName_cap (Not dquote) _ _ eq_refl E2)
             as (c & Hc & _).
           rewrite Hc in Hn. discriminate Hn.
        -- destruct (captures r1) as [|c1 ?]; mrun;
             [|destruct (negb _)]; reflexivity.
      * mrun. reflexivity.
    + intros Hc Hn.
      destruct (exec re_versionCode_cap content) as [r1|] eqn:E1;
        [|congruence].
      destruct (exec re_versionName_cap content) as [r2|] eqn:E2;
        [|congruence].
      destruct (one_group re_versionCode_cap Digit _ _ eq_refl E1)
        as (code & Hcode & Hne1 & _).
      destruct (one_group re_versionName_cap (Not dquote) _ _ eq_refl E2)
        as (name & Hname & Hne2 & _).
      exists code, name. rewrite Hcode, Hname. cbn [group1].
      split; [reflexivity|]. split; [reflexivity|]. split; [reflexivity|].
      split; [exact (auto_increment_next _)|].
      intros vc. split_state st. cbn [files] in Hf.
      unfold processAndroidFile, recordAndroidChanges, syncPackageJson,
        first_capture, str_match, relative_to_root, writeFileSync, push_change.
      srun. rewrite E1, E2, Hcode, Hname. srun.
      apply String.eqb_neq in Hne1, Hne2. rewrite Hne1, Hne2. srun.
      cbn [not_null]. srun.
      destruct d; srun; cbn [not_null]; srun; destruct pk; srun;
        rewrite ?andb_false_r; srun; eexists; split; reflexivity.
Qed.

End AndroidReader.

Section GlobalMatchFacts.
Import Text JS Regex TextFacts RegexFacts.

(** A match found at the start of the text is the leftmost one. *)
Lemma exec_here re s m caps rest :
  match_here re s = Some (m, caps, rest) ->
  exec re s = Some {| before := EmptyString; matched := m; captures := caps;
                      after := rest |}.
Proof. intros E. destruct s; cbn [exec]; now rewrite E. Qed.

(** The matched text, taken alone, matches again with the same captures. *)
Lemma match_here_self re : forall s m caps rest,
  match_here re s = Some (m, caps, rest) ->
  match_here re m = Some (m, caps, EmptyString).
Proof.
  induction re as [|[l|k|k|] re IH]; intros s m caps rest E;
    cbn [match_here] in *.
  - now injection E as <- <- <-.
  - destruct (strip_prefix l s) as [r|]; [|discriminate].
    destruct (match_here re r) as [[[m' caps'] rest']|] eqn:E'; [|discriminate].
    injection E as <- <- <-. rewrite strip_prefix_app, (IH _ _ _ _ E').
    reflexivity.
  - destruct (span (in_class k) s) as [run r] eqn:Es.
    destruct run as [|c run]; [discriminate|].
    destruct (match_here re r) as [[[m' caps'] rest']|] eqn:E'; [|discriminate].
    injection E as <- <- <-.
    apply span_sound in Es as (_ & Hall & Hstop).
    pose proof (match_here_sound _ _ _ _ _ E') as ->.
    assert (Hs : span (in_class k) (String c run ++ m') = (String c run, m'))
      by (apply span_complete;
          [exact Hall | destruct m'; [exact I | exact Hstop]]).
    cbn [append] in Hs |- *. rewrite Hs.
    now rewrite (IH _ _ _ _ E').
  - destruct (span (in_class k) s) as [run r] eqn:Es.
    destruct run as [|c run]; [discriminate|].
    destruct (match_here re r) as [[[m' caps'] rest']|] eqn:E'; [|discriminate].
    injection E as <- <- <-.
    apply span_sound in Es as (_ & Hall & Hstop).
    pose proof (match_here_sound _ _ _ _ _ E') as ->.
    assert (Hs : span (in_class k) (String c run ++ m') = (String c run, m'))
      by (apply span_complete;
          [exact Hall | destruct m'; [exact I | exact Hstop]]).
    cbn [append] in Hs |- *. rewrite Hs.
    now rewrite (IH _ _ _ _ E').  - destruct (span_space s) as [run r] eqn:Es.
    destruct run as [|c run]; [discriminate|].
    destruct (match_here re r) as [[[m' caps'] rest']|] eqn:E'; [|discriminate].
    injection E as <- <- <-.
    apply span_space_sound in Es as (_ & Hwhite & Hstop).
    pose proof (match_here_sound _ _ _ _ _ E') as ->.
    assert (Hs : span_space (String c run ++ m') = (String c run, m'))
      by (apply span_space_complete;
          [exact Hwhite | exact (white_space_prefix _ _ Hstop)]).
    cbn [append] in Hs |- *. rewrite Hs.
    now rewrite (IH _ _ _ _ E').
Qed.

(** The first text of a global match is the text of the leftmost match. *)
Lemma str_match_g_head re s r :
  never_empty re = true -> exec re s = Some r ->
  exists more, str_match_g re s = Some (matched r :: more).
Proof.
  intros Hne E. unfold str_match_g, exec_all. cbn [exec_all_fuel].
  rewrite E.
  pose proof (exec_leftmost _ _ _ E) as (_ & Hm & _).
  pose proof (match_here_nonempty _ _ _ _ _ Hne Hm) as Hnonempty.
  destruct (matched r) as [|c m] eqn:Em; [congruence|].
  destruct (exec_all_fuel (String.length s) re (after r)) as [rs tail].
  cbn [fst List.map]. rewrite Em. eauto.
Qed.

(** Searching a digit run past text that holds no digit. *)
Lemma exec_digits_skip pre : forall s,
  all_chars (fun c => negb (is_digit c)) pre = true ->
  exec re_digits (pre ++ s)
  = match exec re_digits s with
    | Some r => Some {| before := pre ++ before r; matched := matched r;
                        captures := captures r; after := after r |}
    | None => None
    end.
Proof.
  induction pre as [|c pre IH]; intros s Hall.
  - cbn [append]. destruct (exec re_digits s) as [[]|]; reflexivity.
  - cbn [all_chars] in Hall. apply andb_prop in Hall as [Hc Hall].
    apply negb_true_iff in Hc.
    change (String c pre ++ s) with (String c (pre ++ s)).
    cbn [exec re_digits match_here span in_class]. rewrite Hc.
    rewrite (IH s Hall). destruct (exec re_digits s) as [[]|]; reflexivity.
Qed.

End GlobalMatchFacts.

Section IOSReader.
Context `{Platform}.
Import Text JS Version Regex Obj Json Path Run TextFacts RegexFacts.

Lemma currentProjectVersion_shape s m caps rest :
  match_here re_currentProjectVersion_cap s = Some (m, caps, rest) ->
  exists c,
    caps = [c] /\ m = "CURRENT_PROJECT_VERSION = " ++ c ++ ";" /\
    all_chars is_digit c = true /\ c <> EmptyString.
Proof.
  unfold re_currentProjectVersion_cap. cbn [match_here]. intros E.
  destruct (strip_prefix "CURRENT_PROJECT_VERSION = " s) as [r|];
    [|discriminate].
  destruct (span (in_class Digit) r) as [run r'] eqn:Es.
  destruct run as [|d run]; [discriminate|].
  destruct (strip_prefix ";" r') as [r''|]; [|discriminate].
  injection E as <- <- <-. exists (String d run).
  apply span_sound in Es as (_ & Hall & _).
  split; [reflexivity|]. split; [reflexivity|]. split; [exact Hall|].
  discriminate.
Qed.

Lemma digits_of_first_match c :
  all_chars is_digit c = true -> c <> EmptyString ->
  first_capture re_digits ("CURRENT_PROJECT_VERSION = " ++ c ++ ";") = Some c.
Proof.
  intros Hall Hne. unfold first_capture, str_match.
  rewrite exec_digits_skip by reflexivity.
  assert (Hm : match_here re_digits (c ++ ";")
               = Some (c ++ EmptyString, [c], ";")).
  { unfold re_digits. cbn [match_here].
    rewrite (span_complete (in_class Digit) c ";" Hall) by reflexivity.
    destruct c; [congruence | reflexivity]. }
  rewrite (exec_here _ _ _ _ _ Hm). reflexivity.
Qed.

Lemma first_capture_of_match re s r c more :
  exec re s = Some r -> captures r = c :: more ->
  first_capture re (matched r) = Some c.
Proof.
  intros E Hc. apply exec_leftmost in E as (_ & Hm & _).
  apply match_here_self in Hm. unfold first_capture, str_match.
  rewrite (exec_here _ _ _ _ _ Hm). cbn [captures]. now rewrite Hc.
Qed.

(** X10. [parseIOSVersions] reads only, and it tells what [processIOSFile]
    will do with the same file, although the reader looks for the first
    match and the updater for all matches and then searches the first
    matched text again. Where the reader raises "not found" the updater
    warns and skips the file; where it reports [null] for either field the
    updater warns that it could not find the values and skips the file;
    where it reports both, an update that leaves the marketing version
    alone goes through, keeps the reader's [marketingVersion], and computes
    the project version from the same digits the reader parsed: in
    auto-increment mode the reader's [currentProjectVersion] plus one as
    JavaScript adds: the next integer while the reader's number is below
    [2^53]. *)
Theorem ios_reader_agrees (f : path) (st : state) :
  (forall r st', parseIOSVersions f st = (r, st') -> st' = st) /\
  (files st !! f = None ->
   parseIOSVersions f st
     = (inl ("iOS project.pbxproj not found at: " ++ Path.to_string f), st) /\
   forall currentProjectVersion marketingVersion,
     processIOSFile f currentProjectVersion marketingVersion st
     = (inr None,
        warned (warning_sign ++ "iOS project.pbxproj not found: "
                  ++ Path.to_string f) st))
  /\
  (forall content,
     files st !! f = Some (File content) ->
     exists r,
       parseIOSVersions f st = (inr r, st) /\
       (pi_currentProjectVersion r = VNull \/ pi_marketingVersion r = VNull ->
        forall currentProjectVersion marketingVersion,
          processIOSFile f currentProjectVersion marketingVersion st
          = (inr None,
             warned (warning_sign ++ "Could not find version values in: "
                       ++ Path.to_string f) st)) /\
       (pi_currentProjectVersion r <> VNull ->
        pi_marketingVersion r <> VNull ->
        exists build name,
          pi_currentProjectVersion r = VNum (parseInt_string build) /\
          pi_marketingVersion r = VStr name /\
          calculateNewBuildNumber (VBool true) (VStr build)
            = num_succ (parseInt_string build) /\
          (forall k, parseInt_string build = Int k -> Z.abs k < 2 ^ 53 ->
             calculateNewBuildNumber (VBool true) (VStr build) = Int (k + 1)) /\
          forall currentProjectVersion, exists st',
            let newBuild :=
              if not_null currentProjectVersion
              then calculateNewBuildNumber currentProjectVersion (VStr build)
              else parseInt_string build in
            processIOSFile f currentProjectVersion VNull st
            = (inr (Some {| i_filePath := f;
                            i_currentProjectVersion := newBuild;
                            i_marketingVersion := VStr name |}), st') /\
            changes (opts st')
            = (changes (opts st)
                 ++ if not_null currentProjectVersion
                    then [{| platform := "iOS";
                             file := Path.relative
                                       (default (cwd st)
                                          (projectRoot (opts st))) f;
                             item := "CURRENT_PROJECT_VERSION";
                             oldValue := VStr build;
                             newValue := VNum newBuild |}]
                    else [])%list)).
Proof.
  split; [|split].
  - unfold parseIOSVersions. mrun.
    destruct (files st !! f) as [[content|]|] eqn:Ef; mrun;
      intros r st' [= <- <-]; reflexivity.
  - intros Hf. unfold parseIOSVersions, processIOSFile. mrun.
    split; [reflexivity|]. intros cpv mv. mrun. reflexivity.
  - intros content Hf. eexists. split.
    { unfold parseIOSVersions. mrun. reflexivity. }
    cbn [pi_currentProjectVersion pi_marketingVersion]. unfold str_match.
    split.
    + intros Hnull cpv mv. unfold processIOSFile. mrun.
      destruct (exec re_currentProjectVersion_cap content) as [r1|] eqn:E1.
      * destruct (exec re_marketingVersion_cap content) as [r2|] eqn:E2.
        -- exfalso. destruct Hnull as [Hn|Hn]; [discriminate Hn|].
           destruct (one_group re_marketingVersion_cap (Not ";") _ _
                       eq_refl E2) as (c & Hc & _).
           rewrite Hc in Hn. discriminate Hn.
        -- rewrite (absent_match_g re_marketingVersion_cap content E2).
           destruct (str_match_g re_currentProjectVersion_cap content);
             mrun; reflexivity.
      * rewrite (absent_match_g re_currentProjectVersion_cap content E1).
        mrun. reflexivity.
    + intros Hc Hn.
      destruct (exec re_currentProjectVersion_cap content) as [r1|] eqn:E1;
        [|congruence].
      destruct (exec re_marketingVersion_cap content) as [r2|] eqn:E2;
        [|congruence].
      destruct (one_group re_currentProjectVersion_cap Digit _ _ eq_refl E1)
        as (build & Hbuild & _).
      destruct (one_group re_marketingVersion_cap (Not ";") _ _ eq_refl E2)
        as (name & Hname & _).
      exists build, name. rewrite Hbuild, Hname. cbn [group1].
      split; [reflexivity|]. split; [reflexivity|]. split; [reflexivity|].
      split; [exact (auto_increment_next _)|].
      destruct (str_match_g_head re_currentProjectVersion_cap _ _ eq_refl E1)
        as (more1 & G1).
      destruct (str_match_g_head re_marketingVersion_cap _ _ eq_refl E2)
        as (more2 & G2).
      pose proof (first_capture_of_match _ _ _ _ _ E2 Hname) as F2.
      assert (F1 : first_capture re_digits (matched r1) = Some build).
      { pose proof (exec_leftmost _ _ _ E1) as (_ & Hm & _).
        destruct (currentProjectVersion_shape _ _ _ _ Hm)
          as (c & Hcaps & -> & Hall & Hne).
        rewrite Hbuild in Hcaps. injection Hcaps as <-.
        now apply digits_of_first_match. }
      intros cpv. split_state st. cbn [files] in Hf.
      unfold processIOSFile, recordIOSChanges, syncPackageJson,
        capture_of_first, relative_to_root, writeFileSync, push_change.
      srun. rewrite G1, G2, F1, F2. srun. cbn [not_null]. srun.
      destruct d; srun; cbn [not_null]; srun; destruct (not_null cpv); srun;
        destruct pk; srun; rewrite ?andb_false_r; srun;
        eexists; split; try reflexivity; now rewrite ?app_nil_r.
Qed.

End IOSReader.

(** ** What a file processor computes, returns and records *)

Section Computes.
Context `{Platform}.
Import Text JS Version Regex Obj Json Path Run TextFacts RegexFacts.

(** The records [recordAndroidChanges] appends for the file [f]. *)
Definition android_changes (st : state) (f : path) (code : string)
    (newCode : num) (name : string) (newName : value) (named : bool)
  : list ChangeRecord :=
  let rel := Path.relative (default (cwd st) (projectRoot (opts st))) f in
  {| platform := "Android"; file := rel; item := "versionCode";
     oldValue := VStr code; newValue := VNum newCode |}
  :: (if named
      then [{| platform := "Android"; file := rel; item := "versionName";
               oldValue := VStr name; newValue := newName |}]
      else []).

(** The records [recordIOSChanges] appends for the file [f]. *)
Definition ios_changes (st : state) (f : path) (build : string)
    (newBuild : num) (name : string) (newName : value)
    (numbered named : bool) : list ChangeRecord :=
  let rel := Path.relative (default (cwd st) (projectRoot (opts st))) f in
  ((if numbered
    then [{| platform := "iOS"; file := rel;
             item := "CURRENT_PROJECT_VERSION";
             oldValue := VStr build; newValue := VNum newBuild |}]
    else [])
   ++ (if named
       then [{| platform := "iOS"; file := rel; item := "MARKETING_VERSION";
                oldValue := VStr name; newValue := newName |}]
       else []))%list.

(** The state in which a file processor reaches the shared-manifest step:
    the file is announced on the console, its new content is written unless
    the run is dry, and its records are appended to the change log. *)
Definition processed (st : state) (f : path) (line content' : string)
    (records : list ChangeRecord) : state :=
  set_opts (set_changes (changes (opts st) ++ records)%list (opts st))
    (set_console (console st ++ [Log line])%list
       (if dryRun (opts st) then st
        else set_files (<[f := File content']> (files st)) st)).

(** How a file processor ends once it has reached the shared-manifest step
    with the result [res]. *)
Definition after_sync {R} (enabled : bool) (newVersion : value) (res : R)
    (st1 : state) : (exn + option R) * state :=
  match syncPackageJson enabled newVersion st1 with
  | (inl e, st2) => (inl e, st2)
  | (inr _, st2) => (inr (Some res), st2)
  end.

Lemma first_capture_nonempty re k ks s c :
  groups re = k :: ks -> first_capture re s = Some c -> c <> EmptyString.
Proof.
  intros Hg. unfold first_capture, str_match.
  destruct (exec re s) as [r|] eqn:E; [|discriminate].
  apply exec_groups in E. rewrite Hg in E.
  destruct (captures r) as [|c' cs]; [discriminate|]. intros [= ->].
  inversion E as [|? ? ? ? Hc _]; subst. apply Hc.
Qed.

(** The new semantic version of a file whose current one is [name]. *)
Definition new_semantic_version (request : value) (name : string)
    (st : state) : exn + value :=
  if not_null request
  then calculateNewSemanticVersion request name (increment_or_patch (opts st))
  else inr (VStr name).

Lemma processAndroidFile_computes f v1 v2 st content code name newName :
  files st !! f = Some (File content) ->
  first_capture re_versionCode_cap content = Some code ->
  first_capture re_versionName_cap content = Some name ->
  new_semantic_version v2 name st = inr newName ->
  let newCode := calculateNewBuildNumber v1 (VStr code) in
  processAndroidFile f v1 v2 st
  = after_sync (not_null v2) newName
      {| a_filePath := f; a_versionCode := newCode;
         a_versionName := newName |}
      (processed st f
         ("Processing Android file: "
            ++ Path.relative (default (cwd st) (projectRoot (opts st))) f)
         (updateAndroidFileContent content newCode newName (not_null v2))
         (android_changes st f code newCode name newName (not_null v2))).
Proof.
  intros Hf Hcode Hname Hnew newCode. subst newCode.
  pose proof (first_capture_nonempty re_versionCode_cap Digit [] _ _
                eq_refl Hcode) as Hne1.
  pose proof (first_capture_nonempty re_versionName_cap (Not dquote) [] _ _
                eq_refl Hname) as Hne2.
  apply String.eqb_neq in Hne1, Hne2.
  unfold new_semantic_version in Hnew.
  split_state st. cbn [files] in Hf.
  unfold after_sync, processed, android_changes, processAndroidFile,
    recordAndroidChanges, relative_to_root, writeFileSync, push_change.
  srun. rewrite Hcode, Hname. srun. rewrite Hne1, Hne2. srun.
  cbn [opts increment_or_patch] in Hnew.
  destruct (not_null v2); srun.
  - rewrite Hnew. srun.
    destruct d; srun; rewrite <- ?app_assoc; cbn [app];
      match goal with
      | |- context [syncPackageJson ?e ?v ?s] =>
          destruct (syncPackageJson e v s) as [[?|[]] ?]
      end; reflexivity.
  - injection Hnew as <-.
    destruct d; srun; rewrite <- ?app_assoc; cbn [app];
      match goal with
      | |- context [syncPackageJson ?e ?v ?s] =>
          destruct (syncPackageJson e v s) as [[?|[]] ?]
      end; reflexivity.
Qed.

Lemma processIOSFile_computes f v1 v2 st content build name newName :
  files st !! f = Some (File content) ->
  first_capture re_currentProjectVersion_cap content = Some build ->
  first_capture re_marketingVersion_cap content = Some name ->
  new_semantic_version v2 name st = inr newName ->
  let newBuild :=
    if not_null v1 then calculateNewBuildNumber v1 (VStr build)
    else parseInt_string build in
  processIOSFile f v1 v2 st
  = after_sync (not_null v2) newName
      {| i_filePath := f; i_currentProjectVersion := newBuild;
         i_marketingVersion := newName |}
      (processed st f
         ("Processing iOS file: "
            ++ Path.relative (default (cwd st) (projectRoot (opts st))) f)
         (updateIOSFileContent content newBuild newName (not_null v1)
            (not_null v2))
         (ios_changes st f build newBuild name newName (not_null v1)
            (not_null v2))).
Proof.
  intros Hf Hbuild Hname Hnew newBuild. subst newBuild.
  unfold first_capture, str_match in Hbuild, Hname.
  destruct (exec re_currentProjectVersion_cap content) as [r1|] eqn:E1;
    [|discriminate].
  destruct (exec re_marketingVersion_cap content) as [r2|] eqn:E2;
    [|discriminate].
  destruct (one_group re_currentProjectVersion_cap Digit _ _ eq_refl E1)
    as (build' & Hb & _).
  destruct (one_group re_marketingVersion_cap (Not ";") _ _ eq_refl E2)
    as (name' & Hn & _).
  rewrite Hb in Hbuild. rewrite Hn in Hname.
  injection Hbuild as ->. injection Hname as ->.
  destruct (str_match_g_head re_currentProjectVersion_cap _ _ eq_refl E1)
    as (more1 & G1).
  destruct (str_match_g_head re_marketingVersion_cap _ _ eq_refl E2)
    as (more2 & G2).
  pose proof (first_capture_of_match _ _ _ _ _ E2 Hn) as F2.
  assert (F1 : first_capture re_digits (matched r1) = Some build).
  { pose proof (exec_leftmost _ _ _ E1) as (_ & Hm & _).
    destruct (currentProjectVersion_shape _ _ _ _ Hm)
      as (c & Hcaps & -> & Hall & Hne).
    rewrite Hb in Hcaps. injection Hcaps as <-.
    now apply digits_of_first_match. }
  unfold new_semantic_version in Hnew.
  split_state st. cbn [files] in Hf.
  unfold after_sync, processed, ios_changes, processIOSFile,
    recordIOSChanges, capture_of_first, relative_to_root, writeFileSync,
    push_change.
  srun. rewrite G1, G2, F1, F2. srun.
  cbn [opts increment_or_patch] in Hnew.
  destruct (not_null v2); srun.
  - rewrite Hnew. srun.
    destruct d; srun; destruct (not_null v1); srun;
      rewrite ?app_nil_r, <- ?app_assoc; cbn [app];
      match goal with
      | |- context [syncPackageJson ?e ?v ?s] =>
          destruct (syncPackageJson e v s) as [[?|[]] ?]
      end; reflexivity.
  - injection Hnew as <-.
    destruct d; srun; destruct (not_null v1); srun;
      rewrite ?app_nil_r, <- ?app_assoc; cbn [app];
      match goal with
      | |- context [syncPackageJson ?e ?v ?s] =>
          destruct (syncPackageJson e v s) as [[?|[]] ?]
      end; reflexivity.
Qed.

Lemma syncPackageJson_off v st : syncPackageJson false v st = (inr tt, st).
Proof.
  unfold syncPackageJson. mrun.
  destruct (packageJsonPath (opts st)); [|reflexivity].
  now rewrite andb_false_r.
Qed.

End Computes.

(** ** Dry runs: the claim *)

Section DryRunClaim.
Context `{Platform}.
Import Text JS Version Regex Obj Json Path Run TextFacts RegexFacts.

(** C6 as amended. With the dry-run flag set no mutator writes a file: the
    files after the run are the files before it. The values are still
    computed, returned and recorded: a file that holds both fields and whose
    new semantic version can be computed reaches the shared-manifest step
    with its result and with its change records appended, exactly the
    records and the result of the real run on that content, and a manifest
    that can be updated gets its record. Started from the same state, the
    dry run of a batch returns the same results and leaves the same console,
    change log and guard as the real run when the files of the batch are
    distinct and the shared manifest is not one of them; a file listed
    twice is read a second time as the first pass left it, rewritten in the
    real run and untouched in the dry run. *)
Theorem dry_run_writes_nothing (st : state) (batch : list path)
    (v1 v2 : value) (p : path) :
  (* nothing is written *)
  files (updateAndroidVersions batch v1 v2 (dry st)).2 = files st /\
  files (updateIOSVersions batch v1 v2 (dry st)).2 = files st /\
  files (updatePackageJsonVersion p v1 (dry st)).2 = files st /\
  (* the values are computed, returned and recorded *)
  (forall f content code name newName,
     files st !! f = Some (File content) ->
     first_capture re_versionCode_cap content = Some code ->
     first_capture re_versionName_cap content = Some name ->
     new_semantic_version v2 name st = inr newName ->
     let newCode := calculateNewBuildNumber v1 (VStr code) in
     let res := {| a_filePath := f; a_versionCode := newCode;
                   a_versionName := newName |} in
     let st1 :=
       processed (dry st) f
         ("Processing Android file: "
            ++ Path.relative (default (cwd st) (projectRoot (opts st))) f)
         (updateAndroidFileContent content newCode newName (not_null v2))
         (android_changes st f code newCode name newName (not_null v2)) in
     files st1 = files st /\
     changes (opts st1)
     = (changes (opts st)
          ++ android_changes st f code newCode name newName (not_null v2))%list
     /\
     processAndroidFile f v1 v2 (dry st)
     = after_sync (not_null v2) newName res st1 /\
     (v2 = VNull ->
      updateAndroidVersions [f] v1 v2 (dry st) = (inr [res], st1))) /\
  (forall f content build name newName,
     files st !! f = Some (File content) ->
     first_capture re_currentProjectVersion_cap content = Some build ->
     first_capture re_marketingVersion_cap content = Some name ->
     new_semantic_version v2 name st = inr newName ->
     let newBuild :=
       if not_null v1 then calculateNewBuildNumber v1 (VStr build)
       else parseInt_string build in
     let res := {| i_filePath := f; i_currentProjectVersion := newBuild;
                   i_marketingVersion := newName |} in
     let st1 :=
       processed (dry st) f
         ("Processing iOS file: "
            ++ Path.relative (default (cwd st) (projectRoot (opts st))) f)
         (updateIOSFileContent content newBuild newName (not_null v1)
            (not_null v2))
         (ios_changes st f build newBuild name newName (not_null v1)
            (not_null v2)) in
     files st1 = files st /\
     changes (opts st1)
     = (changes (opts st)
          ++ ios_changes st f build newBuild name newName (not_null v1)
               (not_null v2))%list /\
     processIOSFile f v1 v2 (dry st)
     = after_sync (not_null v2) newName res st1 /\
     (v2 = VNull ->
      updateIOSVersions [f] v1 v2 (dry st) = (inr [res], st1))) /\
  (forall doc cv,
     manifest_at st p doc cv ->
     updatePackageJsonVersion p v1 (dry st)
     = (inr (Some v1),
        processed (dry st) p "Processing package.json version..."
          EmptyString [manifest_record st p cv v1])) /\
  (* and everything else is as in the real run *)
  updatePackageJsonVersion p v1 (dry st)
  = (let '(r, sw) := updatePackageJsonVersion p v1 (real st) in
     (r, ghost (files st) sw)) /\
  (NoDup batch ->
   (forall q, packageJsonPath (opts st) = Some q -> q ∉ batch) ->
   updateAndroidVersions batch v1 v2 (dry st)
   = (let '(r, sw) := updateAndroidVersions batch v1 v2 (real st) in
      (r, ghost (files st) sw)) /\
   updateIOSVersions batch v1 v2 (dry st)
   = (let '(r, sw) := updateIOSVersions batch v1 v2 (real st) in
      (r, ghost (files st) sw))).
Proof.
  split; [|split; [|split; [|split; [|split; [|split; [|split]]]]]].
  - apply (android_loop_dry_frame batch v1 v2 [] (dry st)). reflexivity.
  - apply (ios_loop_dry_frame batch v1 v2 [] (dry st)). reflexivity.
  - destruct (updatePackageJsonVersion_footprint p v1 (dry st))
      as [(_ & _ & _ & Hfs & _) _].
    apply Hfs. reflexivity.
  - intros f content code name newName Hf Hcode Hname Hnew newCode res st1.
    pose proof (processAndroidFile_computes f v1 v2 (dry st) content code
                  name newName Hf Hcode Hname Hnew) as Hrun.
    split; [reflexivity|]. split; [reflexivity|]. split; [exact Hrun|].
    intros ->. unfold updateAndroidVersions. cbn [android_loop].
    rewrite bind_eq, Hrun. unfold after_sync. cbn [not_null].
    rewrite syncPackageJson_off. reflexivity.
  - intros f content build name newName Hf Hbuild Hname Hnew newBuild res st1.
    pose proof (processIOSFile_computes f v1 v2 (dry st) content build
                  name newName Hf Hbuild Hname Hnew) as Hrun.
    split; [reflexivity|]. split; [reflexivity|]. split; [exact Hrun|].
    intros ->. unfold updateIOSVersions. cbn [ios_loop].
    rewrite bind_eq, Hrun. unfold after_sync. cbn [not_null].
    rewrite syncPackageJson_off. reflexivity.
  - intros doc cv Hm.
    apply (updatePackageJsonVersion_success p v1 (dry st) doc cv Hm).
  - apply (updatePackageJsonVersion_dry_like p v1 (files st) (real st));
      reflexivity.
  - intros Hnd Hpk.
    assert (Hb : batch_agrees batch (files st) (real st)).
    { repeat split; try assumption. }
    split.
    + apply (android_loop_dry_like batch v1 v2 [] _ _ Hb).
    + apply (ios_loop_dry_like batch v1 v2 [] _ _ Hb).
Qed.

End DryRunClaim.

(** ** Resolving the configured file patterns *)

Section FilesFacts.
Import Text JS Path Run PathText.

Lemma entry_name_spec dir : forall p name,
  entry_name dir p = Some name <-> p = (dir ++ [name])%list.
Proof.
  induction dir as [|d dir IH]; intros p name; cbn [entry_name app].
  - destruct p as [|x [|y p]]; split; intros E; try discriminate;
      try congruence.
  - destruct p as [|x p]; [split; intros E; discriminate|].
    destruct (String.eqb_spec d x) as [->|Hne].
    + rewrite IH. split; intros E; congruence.
    + split; intros E; [discriminate | congruence].
Qed.

Definition is_dir (st : state) (p : path) : bool :=
  match node_at st p with Some Dir => true | _ => false end.

Definition present_at (st : state) (p : path) : bool :=
  match files st !! p with Some _ => true | None => false end.

Lemma present_at_spec st p : present_at st p = true <-> is_Some (files st !! p).
Proof.
  unfold present_at. destruct (files st !! p) as [n|].
  - split; [eauto | reflexivity].
  - split; [discriminate | now intros [n Hn]].
Qed.

Lemma is_dir_below st dir name :
  is_dir st (dir ++ [name])%list = true
  <-> files st !! (dir ++ [name])%list = Some Dir.
Proof.
  unfold is_dir, node_at.
  destruct (dir ++ [name])%list as [|x l] eqn:E; [now destruct dir|].
  destruct (files st !! _) as [[|]|]; split; congruence.
Qed.

Lemma filterM_pure (keep : string -> M bool) (f : string -> bool) st names :
  (forall name, keep name st = (inr (f name), st)) ->
  filterM keep names st = (inr (List.filter f names), st).
Proof.
  intros Hk. induction names as [|name names IH]; cbn [filterM List.filter].
  - reflexivity.
  - rewrite bind_eq, Hk, bind_eq, IH. now destruct (f name).
Qed.

Lemma collect_pbxproj_spec searchDir st names : forall acc,
  collect_pbxproj searchDir names acc st
  = (inr (acc ++ List.filter (present_at st)
                   (List.map (fun x =>
                                join1 (join1 searchDir x) "project.pbxproj")
                      names))%list, st).
Proof.
  induction names as [|name names IH]; intros acc;
    cbn [collect_pbxproj List.map List.filter].
  - now rewrite app_nil_r.
  - rewrite bind_eq. unfold existsSync, gets. rewrite IH. unfold present_at.
    destruct (files st !! join1 (join1 searchDir name) "project.pbxproj");
      [|reflexivity].
    now rewrite <- app_assoc.
Qed.

(** The entries of [dir], as [readdirSync] lists them. *)
Definition entries (st : state) (dir : path) : list string :=
  omap (fun kv => entry_name dir kv.1) (map_to_list (files st)).

Lemma entries_spec st dir name :
  name ∈ entries st dir <-> present_at st (dir ++ [name])%list = true.
Proof.
  unfold entries. rewrite list_elem_of_omap. unfold present_at. split.
  - intros ([p node] & Hin & E). cbn [fst] in E.
    apply entry_name_spec in E as ->. apply elem_of_map_to_list in Hin.
    now rewrite Hin.
  - destruct (files st !! _) as [node|] eqn:E; [|intros [=]].
    intros _. exists ((dir ++ [name])%list, node). split.
    + now apply elem_of_map_to_list.
    + now apply entry_name_spec.
Qed.

(** The project files below the search directory [dir]. *)
Definition project_files (st : state) (dir : path) : list path :=
  List.filter (present_at st)
    (List.map (fun x => join1 (join1 dir x) "project.pbxproj")
       (List.filter
          (fun file => is_dir st (join1 dir file)
                       && ends_with ".xcodeproj" file)
          (entries st dir))).

Lemma resolveGlobPattern_eval pattern projectRoot st :
  resolveGlobPattern pattern projectRoot st
  = if PathText.includes "*.xcodeproj" pattern then
      let searchDir := PathText.join projectRoot (before_char "*" pattern) in
      match node_at st (target searchDir) with
      | Some Dir => (inr (project_files st (target searchDir)), st)
      | Some (File _) =>
          if as_directory searchDir then (inr [], st)
          else (inl ("ENOTDIR: not a directory, scandir '"
                       ++ Path.to_string (target searchDir) ++ "'"), st)
      | None => (inr [], st)
      end
    else (inr [], st).
Proof.
  unfold resolveGlobPattern.
  destruct (PathText.includes "*.xcodeproj" pattern); [|reflexivity].
  cbn zeta.
  set (searchDir := PathText.join projectRoot (before_char "*" pattern)).
  rewrite bind_eq. unfold exists_named, gets.
  destruct (node_at st (target searchDir)) as [[content|]|] eqn:En;
    cbn [negb]; [| |reflexivity].
  - destruct (as_directory searchDir); cbn [negb]; [reflexivity|].
    rewrite bind_eq. unfold readdirSync. now rewrite En.
  - rewrite bind_eq. unfold readdirSync. rewrite En. fold (entries st (target searchDir)).
    rewrite bind_eq.
    rewrite (filterM_pure _
               (fun file => is_dir st (join1 (target searchDir) file)
                            && ends_with ".xcodeproj" file))
      by reflexivity.
    now rewrite collect_pbxproj_spec.
Qed.

(** What a pattern with a [*] resolves to. *)
Definition project_file_of (st : state) (searchDir : path) (q : path)
  : Prop :=
  exists name,
    q = (searchDir ++ [name; "project.pbxproj"])%list /\
    ends_with ".xcodeproj" name = true /\
    files st !! (searchDir ++ [name])%list = Some Dir /\
    is_Some (files st !! q).

Lemma project_files_spec st dir q :
  q ∈ project_files st dir <-> project_file_of st dir q.
Proof.
  unfold project_files.
  rewrite list_elem_of_In, List.filter_In, List.in_map_iff.
  unfold project_file_of, join1. split.
  - intros ((name & <- & Hin) & Hq).
    apply List.filter_In in Hin as (Hin & Hk).
    apply andb_prop in Hk as (Hdir & Hsuffix).
    exists name. rewrite <- app_assoc. split; [reflexivity|].
    split; [exact Hsuffix|]. split.
    + now apply is_dir_below.
    + apply present_at_spec in Hq. rewrite <- app_assoc in Hq. exact Hq.
  - intros (name & -> & Hsuffix & Hdir & Hq). split.
    + exists name. rewrite <- app_assoc. split; [reflexivity|].
      apply List.filter_In. split.
      * apply list_elem_of_In, entries_spec, present_at_spec.
        exists Dir. exact Hdir.
      * rewrite Hsuffix, andb_true_r. now apply is_dir_below.
    + now apply present_at_spec.
Qed.

(** X11. A pattern that holds a [*] is resolved by one rule only, that of
    the Xcode project directories: without the text [*.xcodeproj] it
    resolves to nothing, whatever the file system holds. With it, the
    search directory is the project root joined with the text in front of
    the first [*]; what comes after the [*] is not looked at. When that
    directory is missing the result is empty; when it is there the result
    holds exactly the files [<dir>/<name>/project.pbxproj] that exist, for
    the directories [<name>] of the search directory whose name ends in
    [.xcodeproj]; and when it is a file, listing it fails with an error
    unless the text in front of the [*] ends with a separator. The file
    system is only read. *)
Theorem glob_finds_project_files (pattern : string) (projectRoot : path)
    (st : state) :
  PathText.includes "*" pattern = true ->
  (PathText.includes "*.xcodeproj" pattern = false ->
   resolveFilePattern pattern projectRoot st = (inr [], st)) /\
  (PathText.includes "*.xcodeproj" pattern = true ->
   let searchDir :=
     target (PathText.join projectRoot (before_char "*" pattern)) in
   (node_at st searchDir = None ->
    resolveFilePattern pattern projectRoot st = (inr [], st)) /\
   (node_at st searchDir = Some Dir ->
    exists res,
      resolveFilePattern pattern projectRoot st = (inr res, st) /\
      forall q, q ∈ res <-> project_file_of st searchDir q) /\
   (forall content,
      node_at st searchDir = Some (File content) ->
      resolveFilePattern pattern projectRoot st
      = if ends_with "/" (before_char "*" pattern) then (inr [], st)
        else (inl ("ENOTDIR: not a directory, scandir '"
                     ++ Path.to_string searchDir ++ "'"), st))).
Proof.
  intros Hstar. unfold resolveFilePattern. rewrite Hstar.
  rewrite resolveGlobPattern_eval.
  split; [intros ->; reflexivity|]. intros ->. cbn zeta.
  split; [|split].
  - now intros ->.
  - intros ->. eexists. split; [reflexivity|]. apply project_files_spec.
  - intros content ->. reflexivity.
Qed.

Lemma resolveDirectPath_spec fullPath st :
  resolveDirectPath fullPath st
  = (inr (if match node_at st (target fullPath) with
             | Some Dir => true
             | Some (File _) => negb (as_directory fullPath)
             | None => false
             end
          then [target fullPath] else []), st).
Proof.
  unfold resolveDirectPath, exists_named, gets. rewrite bind_eq.
  now destruct (node_at st (target fullPath)) as [[c|]|];
    [destruct (as_directory fullPath)| |].
Qed.

Lemma resolveFilePattern_reads pattern projectRoot st :
  exists r,
    resolveFilePattern pattern projectRoot st = (r, st) /\
    forall res q, r = inr res -> q ∈ res -> is_Some (node_at st q).
Proof.
  unfold resolveFilePattern.
  destruct (PathText.includes "*" pattern) eqn:Hstar.
  - rewrite resolveGlobPattern_eval.
    destruct (PathText.includes "*.xcodeproj" pattern).
    + cbn zeta.
      destruct (node_at st _) as [[content|]|] eqn:En.
      * destruct (as_directory _); eexists; (split; [reflexivity|]);
          intros res q [= <-] Hin; inversion Hin.
      * eexists. split; [reflexivity|]. intros res q [= <-] Hq.
        apply project_files_spec in Hq as (name & -> & _ & _ & Hq).
        unfold node_at. now destruct (_ ++ _)%list.
      * eexists. split; [reflexivity|]. intros res q [= <-] Hin.
        inversion Hin.
    + eexists. split; [reflexivity|]. intros res q [= <-] Hin. inversion Hin.
  - rewrite resolveDirectPath_spec.
    eexists. split; [reflexivity|]. intros res q [= <-].
    match goal with
    | |- context [node_at st (target ?n)] =>
        destruct (node_at st (target n)) as [[c|]|] eqn:En;
        [destruct (as_directory n)| |]; cbn [negb]
    end; intros Hin; try inversion Hin; subst; try (rewrite En; eauto);
      match goal with Hx : _ ∈ [] |- _ => inversion Hx end.
Qed.

Lemma resolve_loop_spec projectRoot st patterns : forall acc,
  exists r,
    resolve_loop patterns projectRoot acc st = (r, st) /\
    forall res, r = inr res ->
      forall q, q ∈ res <->
        q ∈ acc \/
        exists pattern found,
          pattern ∈ patterns /\
          resolveFilePattern pattern projectRoot st = (inr found, st) /\
          q ∈ found.
Proof.
  induction patterns as [|pattern patterns IH]; intros acc;
    cbn [resolve_loop].
  - eexists. split; [reflexivity|]. intros res [= <-] q. split; [auto|].
    intros [Hq|(p & f & Hp & _)]; [exact Hq | inversion Hp].
  - rewrite bind_eq.
    destruct (resolveFilePattern_reads pattern projectRoot st)
      as (r1 & E1 & _).
    rewrite E1. destruct r1 as [e|found1].
    + eexists. split; [reflexivity|]. discriminate.
    + destruct (IH (acc ++ found1)%list) as (r & -> & Hr).
      eexists. split; [reflexivity|]. intros res -> q.
      rewrite (Hr res eq_refl q), elem_of_app. split.
      * intros [[Hq|Hq]|(p & f & Hp & Ep & Hq)]; [now left| |].
        -- right. exists pattern, found1. split; [constructor | now split].
        -- right. exists p, f. split; [now constructor | now split].
      * intros [Hq|(p & f & Hp & Ep & Hq)]; [now left; left|].
        apply elem_of_cons in Hp as [->|Hp].
        -- rewrite E1 in Ep. injection Ep as <-. now left; right.
        -- right. now exists p, f.
Qed.

(** X12. [resolveFilePaths] only reads the file system, and - as long as no
    pattern fails - its result holds exactly what its patterns resolve to
    one by one, in the order of the patterns; every path in it exists at
    that time. A pattern without [*] resolves to itself (joined with the
    project root unless it is absolute) when that path exists - for a text
    that ends with a separator, when it is a directory - and to nothing when
    it does not: a missing file is left out without a word. *)
Theorem resolved_paths_exist (patterns : list string) (projectRoot : path)
    (st : state) :
  exists r,
    resolveFilePaths patterns projectRoot st = (r, st) /\
    (forall res, r = inr res ->
       (forall q, q ∈ res -> is_Some (node_at st q)) /\
       (forall q, q ∈ res <->
          exists pattern found,
            pattern ∈ patterns /\
            resolveFilePattern pattern projectRoot st = (inr found, st) /\
            q ∈ found)) /\
    (forall pattern,
       PathText.includes "*" pattern = false ->
       let fullPattern :=
         if isAbsolute pattern then PathText.join [] pattern
         else PathText.join projectRoot pattern in
       resolveFilePattern pattern projectRoot st
       = (inr (if match node_at st (target fullPattern) with
                  | Some Dir => true
                  | Some (File _) => negb (as_directory fullPattern)
                  | None => false
                  end
               then [target fullPattern] else []), st)).
Proof.
  unfold resolveFilePaths.
  destruct (resolve_loop_spec projectRoot st patterns []) as (r & E & Hr).
  exists r. split; [exact E|]. split.
  - intros res ->.
    assert (Hiff : forall q, q ∈ res <->
              exists pattern found,
                pattern ∈ patterns /\
                resolveFilePattern pattern projectRoot st = (inr found, st) /\
                q ∈ found).
    { intros q. rewrite (Hr res eq_refl q). split; [|auto].
      intros [Hq|Hq]; [inversion Hq | exact Hq]. }
    split; [|exact Hiff].
    intros q Hq. apply Hiff in Hq as (p & f & _ & Ep & Hq).
    destruct (resolveFilePattern_reads p projectRoot st) as (r1 & E1 & H1).
    rewrite E1 in Ep. injection Ep as ->. now apply (H1 f q).
  - intros pattern Hstar. unfold resolveFilePattern.
    rewrite Hstar. apply resolveDirectPath_spec.
Qed.

End FilesFacts.

(** ** From the flags to the updates *)

Section SelectionFacts.
Context `{Platform}.
Import Text JS Obj Path Run.
Variable prompt : M (list string).
Variable cancel : exn -> M unit.

(** [m; return] *)
Definition then_done {A} (m : M A) : M unit := m;; mret tt.

Lemma when_true {A} (m : M A) : when true m = then_done m.
Proof. reflexivity. Qed.

Lemma skip_then {A} (m : M A) st :
  ((mret tt : M unit) ≫= fun _ => m) st = m st.
Proof. reflexivity. Qed.

Lemma then_skip (m : M unit) st :
  (m ≫= fun _ => (mret tt : M unit)) st = m st.
Proof.
  rewrite bind_eq. now destruct (m st) as [[e|[]] st1].
Qed.

(** The value of a command-line option, [undefined] when it was not
    given. *)
Definition flag (fs : fields) (key : string) : value :=
  default VUndefined (lookup_field key fs).

Lemma option_of_mapped (fs : fields) :
  exists mapped,
    mapOptionsToTechnicalTerms (VObj fs) = inr (VObj mapped) /\
    let u := flag fs in
    option_of (VObj mapped) "versionCode" = flag fs "androidBuildNumber" /\
    option_of (VObj mapped) "versionName" = flag fs "androidAppVersion" /\
    option_of (VObj mapped) "currentProjectVersion" = flag fs "iosBuildNumber" /\
    option_of (VObj mapped) "marketingVersion" = flag fs "iosAppVersion" /\
    forall key,
      key <> "versionCode" -> key <> "versionName" ->
      key <> "currentProjectVersion" -> key <> "marketingVersion" ->
      option_of (VObj mapped) key = u key.
Proof.
  eexists. split; [reflexivity|]. cbn zeta.
  unfold option_of, get_prop, flag. cbn [spread_fields].
  repeat split; intros; rewrite !lookup_set_field; cbn [String.eqb Ascii.eqb Bool.eqb];
    try reflexivity.
  repeat match goal with
         | Hk : ?k <> ?s |- context [String.eqb ?k ?s] =>
             rewrite (proj2 (String.eqb_neq k s) Hk)
         end.
  reflexivity.
Qed.

Ltac dispatched :=
  unfold executePlatformUpdates;
  cbv [includes existsb String.eqb Ascii.eqb Bool.eqb orb when];
  cbn [versionCode versionName currentProjectVersion marketingVersion];
  unfold then_done, mret, M_ret, ret;
  repeat (repeat rewrite bind_eq; cbv beta iota;
          repeat match goal with
                 | E : updateAndroidVersions _ _ _ _ = _ |- _ => rewrite E
                 | E : updateIOSVersions _ _ _ _ = _ |- _ => rewrite E
                 end;
          cbv beta iota;
          try match goal with
              | |- context [updateAndroidVersions ?a ?b ?c ?s] =>
                  destruct (updateAndroidVersions a b c s) as [[?|?] ?] eqn:?
              | |- context [updateIOSVersions ?a ?b ?c ?s] =>
                  destruct (updateIOSVersions a b c s) as [[?|?] ?] eqn:?
              end);
  reflexivity.

(** X15. From the flags to the updates, through the two functions that decide
    them. On the options as [mapOptionsToTechnicalTerms] maps them,
    [determinePlatformsToUpdate] answers from the flags alone, without
    calling [promptForPlatformSelection] and without touching the state, and
    [executePlatformUpdates], given that answer, runs the updaters named
    here. [--android] and [--ios] select the full update of their platform,
    with the values of the granular options as requests when those were
    given too. Without them the granular options are tried in the order
    [androidBuildNumber], [androidAppVersion], [iosBuildNumber],
    [iosAppVersion] and only the first one given takes effect: its platform
    is updated with [null] for the other field, and the granular options
    after it are ignored. [--build-numbers] counts only when none of these
    is given. (Between the two calls [executeVersionBump] checks that the
    selected platforms have files, settles the increment kind and asks for
    confirmation; the second equation holds in whatever state those steps
    leave.) *)
Theorem flags_select_updates (fs : fields) (androidFiles iosFiles : list path) :
  let u := flag fs in
  exists mapped,
    mapOptionsToTechnicalTerms (VObj fs) = inr mapped /\
    let selects sel :=
      forall st, determinePlatformsToUpdate prompt cancel mapped st
                 = (inr sel, st) in
    let updates sel (m : M unit) :=
      forall st, executePlatformUpdates sel androidFiles iosFiles
                   (requests_of mapped) st = m st in
    (truthy (u "android") = true -> truthy (u "ios") = true ->
     selects ["android"; "ios"] /\
     updates ["android"; "ios"]
       (updateAndroidVersions androidFiles (u "androidBuildNumber")
          (u "androidAppVersion");;
        then_done (updateIOSVersions iosFiles (u "iosBuildNumber")
                     (u "iosAppVersion")))) /\
    (truthy (u "android") = true -> truthy (u "ios") = false ->
     selects ["android"] /\
     updates ["android"]
       (then_done (updateAndroidVersions androidFiles
                     (u "androidBuildNumber") (u "androidAppVersion")))) /\
    (truthy (u "android") = false -> truthy (u "ios") = true ->
     selects ["ios"] /\
     updates ["ios"]
       (then_done (updateIOSVersions iosFiles (u "iosBuildNumber")
                     (u "iosAppVersion")))) /\
    (truthy (u "android") = false -> truthy (u "ios") = false ->
     (u "androidBuildNumber" <> VUndefined ->
      selects ["android-code-only"] /\
      updates ["android-code-only"]
        (then_done (updateAndroidVersions androidFiles
                      (u "androidBuildNumber") VNull))) /\
     (u "androidBuildNumber" = VUndefined ->
      u "androidAppVersion" <> VUndefined ->
      selects ["android-name-only"] /\
      updates ["android-name-only"]
        (then_done (updateAndroidVersions androidFiles VNull
                      (u "androidAppVersion")))) /\
     (u "androidBuildNumber" = VUndefined ->
      u "androidAppVersion" = VUndefined ->
      u "iosBuildNumber" <> VUndefined ->
      selects ["ios-version-only"] /\
      updates ["ios-version-only"]
        (then_done (updateIOSVersions iosFiles (u "iosBuildNumber") VNull))) /\
     (u "androidBuildNumber" = VUndefined ->
      u "androidAppVersion" = VUndefined ->
      u "iosBuildNumber" = VUndefined ->
      u "iosAppVersion" <> VUndefined ->
      selects ["ios-marketing-only"] /\
      updates ["ios-marketing-only"]
        (then_done (updateIOSVersions iosFiles VNull (u "iosAppVersion")))) /\
     (u "androidBuildNumber" = VUndefined ->
      u "androidAppVersion" = VUndefined ->
      u "iosBuildNumber" = VUndefined ->
      u "iosAppVersion" = VUndefined ->
      truthy (u "buildNumbers") = true ->
      selects ["build-numbers-only"] /\
      updates ["build-numbers-only"]
        (updateAndroidVersions androidFiles VUndefined VNull;;
         then_done (updateIOSVersions iosFiles VUndefined VNull)))).
Proof.
  intros u. subst u.
  destruct (option_of_mapped fs) as (mapped & Em & Hvc & Hvn & Hcpv & Hmv & Hk).
  cbn zeta in Hk.
  pose proof (Hk "android" ltac:(discriminate) ltac:(discriminate)
                ltac:(discriminate) ltac:(discriminate)) as Ha.
  pose proof (Hk "ios" ltac:(discriminate) ltac:(discriminate)
                ltac:(discriminate) ltac:(discriminate)) as Hi.
  pose proof (Hk "androidBuildNumber" ltac:(discriminate) ltac:(discriminate)
                ltac:(discriminate) ltac:(discriminate)) as Habn.
  pose proof (Hk "androidAppVersion" ltac:(discriminate) ltac:(discriminate)
                ltac:(discriminate) ltac:(discriminate)) as Haav.
  pose proof (Hk "iosBuildNumber" ltac:(discriminate) ltac:(discriminate)
                ltac:(discriminate) ltac:(discriminate)) as Hibn.
  pose proof (Hk "iosAppVersion" ltac:(discriminate) ltac:(discriminate)
                ltac:(discriminate) ltac:(discriminate)) as Hiav.
  pose proof (Hk "buildNumbers" ltac:(discriminate) ltac:(discriminate)
                ltac:(discriminate) ltac:(discriminate)) as Hbn.
  clear Hk.
  assert (Hdef : forall v, v <> VUndefined -> is_undefined v = false)
    by (intros [] Hv; try reflexivity; congruence).
  exists (VObj mapped). split; [exact Em|]. cbv zeta.
  unfold determinePlatformsToUpdate, requests_of.
  rewrite ?Ha, ?Hi, ?Habn, ?Haav, ?Hibn, ?Hiav, ?Hbn, ?Hvc, ?Hvn, ?Hcpv, ?Hmv.
  repeat split; intros;
    repeat match goal with
           | Hx : truthy _ = _ |- _ => rewrite Hx
           | Hx : flag fs _ = VUndefined |- _ => rewrite Hx
           | Hx : flag fs _ <> VUndefined |- _ => rewrite (Hdef _ Hx)
           end;
    first [ reflexivity | dispatched ].
Qed.

End SelectionFacts.

(** ** Reading back what was written *)

Section Stability.
Import Text JS Regex TextFacts RegexFacts.

Fixpoint contains_char (c : ascii) (s : string) : bool :=
  match s with
  | EmptyString => false
  | String d r => Ascii.eqb d c || contains_char c r
  end.

(** The character [c] can neither be matched by a class of [re] nor occur
    in one of its literals. *)
Fixpoint avoids (c : ascii) (re : regex) : bool :=
  match re with
  | [] => true
  | Lit l :: re' => negb (contains_char c l) && avoids c re'
  | Plus k :: re' | Group k :: re' => negb (in_class k c) && avoids c re'
  | Spaces :: re' =>
      negb (is_ascii_space c) && (Z.of_N (N_of_ascii c) <? 128)
      && avoids c re'
  end.

Lemma strip_prefix_past c x l : forall b,
  contains_char c l = false ->
  strip_prefix l (b ++ String c x)
  = match strip_prefix l b with
    | Some r => Some (r ++ String c x)
    | None => None
    end.
Proof.
  induction l as [|d l IH]; intros b Hc; cbn [strip_prefix]; [reflexivity|].
  cbn [contains_char] in Hc. apply orb_false_elim in Hc as [Hd Hl].
  destruct b as [|e b]; cbn [append].
  - rewrite Hd. reflexivity.
  - destruct (Ascii.eqb d e); [now apply IH | reflexivity].
Qed.

Lemma span_past p c x : forall b,
  p c = false ->
  span p (b ++ String c x)
  = let '(run, r) := span p b in (run, r ++ String c x).
Proof.
  induction b as [|d b IH]; intros Hc; cbn [append span].
  - now rewrite Hc.
  - destruct (p d); [|reflexivity].
    rewrite (IH Hc). now destruct (span p b).
Qed.

Lemma match_here_past c x re : forall b,
  avoids c re = true ->
  match_here re (b ++ String c x)
  = match match_here re b with
    | Some (m, caps, rest) => Some (m, caps, rest ++ String c x)
    | None => None
    end.
Proof.
  induction re as [|[l|k|k|] re IH]; intros b Ha; cbn [match_here avoids] in *.
  - reflexivity.
  - apply andb_prop in Ha as [Hl Hre]. apply negb_true_iff in Hl.
    rewrite (strip_prefix_past _ _ _ _ Hl).
    destruct (strip_prefix l b) as [r|]; [|reflexivity].
    rewrite (IH r Hre). now destruct (match_here re r) as [[[m caps] rest]|].
  - apply andb_prop in Ha as [Hk Hre]. apply negb_true_iff in Hk.
    rewrite (span_past _ _ _ _ Hk).
    destruct (span (in_class k) b) as [run r]. destruct run; [reflexivity|].
    rewrite (IH r Hre). now destruct (match_here re r) as [[[m caps] rest]|].
  - apply andb_prop in Ha as [Hk Hre]. apply negb_true_iff in Hk.
    rewrite (span_past _ _ _ _ Hk).
    destruct (span (in_class k) b) as [run r]. destruct run; [reflexivity|].
    rewrite (IH r Hre). now destruct (match_here re r) as [[[m caps] rest]|].  - apply andb_prop in Ha as [Hk Hre]. apply andb_prop in Hk as [Hsp Hlt].
    apply negb_true_iff in Hsp. apply Z.ltb_lt in Hlt.
    rewrite (span_space_past c x Hsp Hlt b).
    destruct (span_space b) as [run r]. destruct run; [reflexivity|].
    rewrite (IH r Hre). now destruct (match_here re r) as [[[m caps] rest]|].
Qed.

(** [s] and [l] differ at a position both have. *)
Fixpoint clash (s l : string) : bool :=
  match s, l with
  | String a s', String b l' => if Ascii.eqb a b then clash s' l' else true
  | _, _ => false
  end.

Lemma clash_strip_prefix s : forall l z,
  clash s l = true -> strip_prefix s (l ++ z) = None.
Proof.
  induction s as [|a s IH]; intros l z Hc; [discriminate|].
  destruct l as [|b l]; [discriminate|]. cbn [clash] in Hc.
  cbn [append strip_prefix]. destruct (Ascii.eqb a b); [now apply IH|].
  reflexivity.
Qed.

(** The non-empty proper suffixes of a text. *)
Fixpoint proper_suffixes (l : string) : list string :=
  match l with
  | EmptyString => []
  | String _ r =>
      match r with
      | EmptyString => []
      | _ => r :: proper_suffixes r
      end
  end.

Lemma proper_suffixes_spec l : forall p s,
  l = p ++ s -> p <> EmptyString -> s <> EmptyString ->
  In s (proper_suffixes l).
Proof.
  induction l as [|c l IH]; intros p s E Hp Hs.
  - destruct p; [congruence | discriminate].
  - destruct p as [|d p]; [congruence|]. cbn [append] in E.
    injection E as <- ->. cbn [proper_suffixes].
    destruct (p ++ s) as [|e r] eqn:Eps.
    + destruct p; cbn [append] in Eps; [congruence | discriminate].
    + rewrite <- Eps. destruct p as [|d' p].
      * now left.
      * right. rewrite Eps. apply (IH (String d' p) s); [|discriminate|exact Hs].
        now rewrite <- Eps.
Qed.

(** No proper suffix of [l] is a prefix of [l]: an occurrence of [l] cannot
    start inside another one. *)
Definition unbordered (l : string) : bool :=
  forallb (fun s => clash s l) (proper_suffixes l).

Lemma strip_prefix_straddle l : forall b y,
  (forall s, l = b ++ s -> s <> EmptyString -> strip_prefix s y = None) ->
  strip_prefix l (b ++ y)
  = match strip_prefix l b with
    | Some r => Some (r ++ y)
    | None => None
    end.
Proof.
  induction l as [|c l IH]; intros b y Hy; cbn [strip_prefix]; [reflexivity|].
  destruct b as [|d b]; cbn [append].
  - apply (Hy (String c l)); [reflexivity | discriminate].
  - destruct (Ascii.eqb_spec c d) as [->|Hne]; [|reflexivity].
    apply IH. intros s -> Hs. now apply Hy.
Qed.

(** Text put in front of an occurrence of the leading literal does not
    change whether, and how, the pattern matches at the start. *)
Lemma match_here_lead c l re b z :
  unbordered (String c l) = true -> avoids c re = true ->
  b <> EmptyString ->
  match_here (Lit (String c l) :: re) (b ++ String c l ++ z)
  = match match_here (Lit (String c l) :: re) b with
    | Some (m, caps, rest) => Some (m, caps, rest ++ String c l ++ z)
    | None => None
    end.
Proof.
  intros Hu Ha Hb. cbn [match_here].
  rewrite strip_prefix_straddle.
  - destruct (strip_prefix (String c l) b) as [r|]; [|reflexivity].
    change (String c l ++ z) with (String c (l ++ z)).
    rewrite (match_here_past _ _ _ _ Ha).
    now destruct (match_here re r) as [[[m caps] rest]|].
  - intros s E Hs. apply clash_strip_prefix.
    unfold unbordered in Hu. rewrite forallb_forall in Hu. apply Hu.
    now apply (proper_suffixes_spec _ b s).
Qed.

Lemma exec_lead c l re z : forall pre,
  unbordered (String c l) = true -> avoids c re = true ->
  (forall p post, pre = p ++ post -> post <> EmptyString ->
                  match_here (Lit (String c l) :: re) post = None) ->
  exec (Lit (String c l) :: re) (pre ++ String c l ++ z)
  = match exec (Lit (String c l) :: re) (String c l ++ z) with
    | Some r => Some {| before := pre ++ before r; matched := matched r;
                        captures := captures r; after := after r |}
    | None => None
    end.
Proof.
  intros pre Hu Ha. induction pre as [|d pre IH]; intros Hpre.
  - cbn [append]. now destruct (exec _ _) as [[]|].
  - change (String d pre ++ String c l ++ z)
      with (String d (pre ++ String c l ++ z)).
    cbn [exec].
    change (String d (pre ++ String c l ++ z))
      with (String d pre ++ String c l ++ z).
    rewrite (match_here_lead c l re (String d pre) z Hu Ha) by discriminate.
    rewrite (Hpre EmptyString (String d pre) eq_refl) by discriminate.
    rewrite IH.
    + now destruct (exec _ (String c l ++ z)) as [[]|].
    + intros p post -> Hpost. apply (Hpre (String d p) post);
        [reflexivity | exact Hpost].
Qed.

Lemma match_here_lit_prefix l re s m caps rest :
  match_here (Lit l :: re) s = Some (m, caps, rest) -> exists m', m = l ++ m'.
Proof.
  cbn [match_here]. destruct (strip_prefix l s) as [r|]; [|discriminate].
  destruct (match_here re r) as [[[m' caps'] rest']|]; [|discriminate].
  intros [= <- <- <-]. now exists m'.
Qed.

(** In front of the leftmost match the pattern matches nowhere, even when
    what follows is cut off. *)
Lemma leftmost_unmatched c l re s r :
  unbordered (String c l) = true -> avoids c re = true ->
  leftmost (Lit (String c l) :: re) s r ->
  forall p post, before r = p ++ post -> post <> EmptyString ->
                 match_here (Lit (String c l) :: re) post = None.
Proof.
  intros Hu Ha (_ & Hm & Hleft) p post E Hpost.
  specialize (Hleft p post E Hpost).
  destruct (match_here_lit_prefix _ _ _ _ _ _ Hm) as (m' & Em).
  rewrite Em, append_assoc in Hleft.
  rewrite (match_here_lead c l re post (m' ++ after r) Hu Ha Hpost) in Hleft.
  now destruct (match_here _ post) as [[[? ?] ?]|].
Qed.

Lemma erase_None re s :
  match_here (erase re) s = None <-> match_here re s = None.
Proof.
  rewrite match_here_erase.
  now destruct (match_here re s) as [[[m caps] rest]|].
Qed.

(** After the first [versionCode] has been rewritten with a numeral, the
    first [versionCode] read is that numeral. *)
Lemma versionCode_read_back content ds r :
  all_chars is_digit ds = true -> ds <> EmptyString ->
  exec re_versionCode_cap content = Some r ->
  first_capture re_versionCode_cap
    (str_replace re_versionCode ("versionCode " ++ ds) content)
  = Some ds.
Proof.
  intros Hdig Hne E.
  assert (E0 : exec re_versionCode content = Some (without_captures r)).
  { change re_versionCode with (erase re_versionCode_cap).
    now rewrite exec_erase, E. }
  pose proof (str_replace_spec re_versionCode ("versionCode " ++ ds) content)
    as Hs.
  rewrite E0 in Hs.
  destruct Hs as (Hleft & ->);
    [cbn [no_dollar all_chars]; exact (no_dollar_digits ds Hdig)|].
  cbn [before after without_captures].
  pose proof (exec_leftmost _ _ _ E) as Hcap.
  assert (Hafter : match after r with
                   | String a _ => is_digit a = false
                   | EmptyString => True
                   end).
  { destruct Hcap as (_ & Hm & _). revert Hm.
    unfold re_versionCode_cap. cbn [match_here].
    destruct (strip_prefix _ _) as [r1|]; [|discriminate].
    destruct (span_space r1) as [ws r2].
    destruct ws; [discriminate|].
    destruct (span (in_class Digit) r2) as [run r3] eqn:Es.
    destruct run; [discriminate|]. intros [= _ _ <-].
    now apply span_sound in Es as (_ & _ & Hstop). }
  unfold first_capture, str_match.
  change (before r ++ ("versionCode " ++ ds) ++ after r)
    with (before r ++ ("versionCode" ++ " " ++ ds) ++ after r).
  rewrite (append_assoc "versionCode"). unfold re_versionCode_cap.
  rewrite (exec_lead "v" "ersionCode" [Spaces; Group Digit]
             ((" " ++ ds) ++ after r) (before r) eq_refl eq_refl
             (leftmost_unmatched "v" "ersionCode" [Spaces; Group Digit]
                content r eq_refl eq_refl Hcap)).
  assert (Hm : match_here [Lit "versionCode"; Spaces; Group Digit]
                 ("versionCode" ++ (" " ++ ds) ++ after r)
               = Some ("versionCode" ++ " " ++ ds ++ EmptyString,
                       [ds], after r)).
  { cbn [match_here]. rewrite strip_prefix_app, append_assoc.
    assert (Hsp : span_space (" " ++ ds ++ after r) = (" ", ds ++ after r)).
    { apply (span_space_complete " "); [reflexivity|].
      destruct ds as [|d ds']; [congruence|].
      cbn [append]. cbn [all_chars] in Hdig.
      apply andb_prop in Hdig as [Hd _].
      destruct (digit_not_space d Hd) as [Hsp Hlt].
      now apply white_space_stop. }
    rewrite Hsp.
    rewrite (span_complete (in_class Digit) ds (after r) Hdig Hafter).
    destruct ds; [congruence | reflexivity]. }
  change (String "v" "ersionCode") with "versionCode".
  rewrite (exec_here _ _ _ _ _ Hm). reflexivity.
Qed.

(** After every [CURRENT_PROJECT_VERSION] has been rewritten with a
    numeral, the first one read is that numeral. *)
Lemma currentProjectVersion_read_back content ds r :
  all_chars is_digit ds = true -> ds <> EmptyString ->
  exec re_currentProjectVersion_cap content = Some r ->
  first_capture re_currentProjectVersion_cap
    (str_replace_g re_currentProjectVersion
       ("CURRENT_PROJECT_VERSION = " ++ ds ++ ";") content)
  = Some ds.
Proof.
  intros Hdig Hne E.
  assert (E0 : exec re_currentProjectVersion content
               = Some (without_captures r)).
  { change re_currentProjectVersion
      with (erase re_currentProjectVersion_cap).
    now rewrite exec_erase, E. }
  destruct (exec_all re_currentProjectVersion content) as [rs tail] eqn:Ea.
  assert (Hnd : no_dollar ("CURRENT_PROJECT_VERSION = " ++ ds ++ ";") = true).
  { rewrite !no_dollar_app, (no_dollar_digits ds Hdig). reflexivity. }
  destruct (str_replace_g_spec re_currentProjectVersion _ content rs tail
              eq_refl Hnd Ea) as (Hocc & ->).
  destruct rs as [|r1 rs]; cbn [occurrences replaced_text] in *.
  { destruct Hocc as (-> & Hnone). congruence. }
  destruct Hocc as (Hleft & _).
  assert (Hun : forall p post,
            before r1 = p ++ post -> post <> EmptyString ->
            match_here [Lit "CURRENT_PROJECT_VERSION = "; Group Digit; Lit ";"]
              post = None).
  { intros p post Ep Hpost.
    apply (erase_None
             [Lit "CURRENT_PROJECT_VERSION = "; Group Digit; Lit ";"]).
    exact (leftmost_unmatched "C" "URRENT_PROJECT_VERSION = "
             [Plus Digit; Lit ";"] content r1 eq_refl eq_refl Hleft
             p post Ep Hpost). }
  unfold first_capture, str_match, re_currentProjectVersion_cap.
  set (rest := replaced_text _ rs tail).
  rewrite (append_assoc "CURRENT_PROJECT_VERSION = ").
  rewrite (exec_lead "C" "URRENT_PROJECT_VERSION = " [Group Digit; Lit ";"]
             ((ds ++ ";") ++ rest) (before r1) eq_refl eq_refl Hun).
  assert (Hm : match_here
                 [Lit "CURRENT_PROJECT_VERSION = "; Group Digit; Lit ";"]
                 ("CURRENT_PROJECT_VERSION = " ++ (ds ++ ";") ++ rest)
               = Some ("CURRENT_PROJECT_VERSION = " ++ ds ++ ";"
                         ++ EmptyString,
                       [ds], rest)).
  { cbn [match_here]. rewrite strip_prefix_app, append_assoc.
    rewrite (span_complete (in_class Digit) ds (";" ++ rest) Hdig)
      by reflexivity.
    rewrite strip_prefix_app.
    destruct ds; [congruence | reflexivity]. }
  change (String "C" "URRENT_PROJECT_VERSION = ")
    with "CURRENT_PROJECT_VERSION = ".
  rewrite (exec_here _ _ _ _ _ Hm). reflexivity.
Qed.

End Stability.

Section ReadBack.
Context `{Platform}.
Import Text JS Version Regex Obj Json Path Run TextFacts RegexFacts.

Lemma first_capture_Some re s c :
  first_capture re s = Some c -> exists cs, str_match re s = Some (c :: cs).
Proof.
  unfold first_capture. destruct (str_match re s) as [[|c' cs]|];
    intros [= ->]. now exists cs.
Qed.

Lemma singleton_android_run f vc vn st res st' :
  updateAndroidVersions [f] vc vn st = (inr [res], st') ->
  processAndroidFile f vc vn st = (inr (Some res), st').
Proof.
  unfold updateAndroidVersions. cbn [android_loop]. rewrite bind_eq.
  destruct (processAndroidFile f vc vn st) as [[e|[r|]] st1];
    cbn; intros [=]; congruence.
Qed.

Lemma singleton_ios_run f cpv mv st res st' :
  updateIOSVersions [f] cpv mv st = (inr [res], st') ->
  processIOSFile f cpv mv st = (inr (Some res), st').
Proof.
  unfold updateIOSVersions. cbn [ios_loop]. rewrite bind_eq.
  destruct (processIOSFile f cpv mv st) as [[e|[r|]] st1];
    cbn; intros [=]; congruence.
Qed.

(** What a build-number-only update of an Android file has read and
    written. *)
Lemma processAndroidFile_code_only_run f vc st res st' :
  dryRun (opts st) = false ->
  processAndroidFile f vc VNull st = (inr (Some res), st') ->
  exists content r code,
    files st !! f = Some (File content) /\
    exec re_versionCode_cap content = Some r /\
    captures r = [code] /\ captured Digit code /\
    a_versionCode res = calculateNewBuildNumber vc (VStr code) /\
    files st' !! f
    = Some (File (updateAndroidFileContent content (a_versionCode res)
                    (a_versionName res) false)).
Proof.
  split_state st. cbn [opts dryRun]. intros ->.
  unfold processAndroidFile, recordAndroidChanges, syncPackageJson,
    first_capture, str_match, relative_to_root, writeFileSync, push_change.
  srun.
  destruct (fw !! f) as [[content|]|] eqn:Ef; srun; try discriminate.
  destruct (exec re_versionCode_cap content) as [r1|] eqn:E1;
    [|srun; discriminate].
  destruct (exec re_versionName_cap content) as [r2|] eqn:E2;
    [|destruct (captures r1); srun; try destruct (negb _); discriminate].
  destruct (one_group re_versionCode_cap Digit _ _ eq_refl E1)
    as (code & Hcode & Hcap).
  destruct (one_group re_versionName_cap (Not dquote) _ _ eq_refl E2)
    as (name & Hname & Hne2 & _).
  pose proof Hcap as (Hne1 & _).
  rewrite Hcode, Hname. srun.
  apply String.eqb_neq in Hne1, Hne2. rewrite Hne1, Hne2. srun.
  cbn [not_null]. srun. destruct pk; srun; rewrite ?andb_false_r; srun;
    intros [= <- <-]; exists content, r1, code; snorm;
    cbn [a_versionCode a_versionName];
    (repeat split; try assumption; try reflexivity;
     first [ apply Hcap | intros ->; discriminate Hne1
           | apply lookup_insert_eq ]).
Qed.

Lemma calculateNewBuildNumber_representable u c n :
  calculateNewBuildNumber u c = Int n -> representable n.
Proof.
  unfold calculateNewBuildNumber, parseInt.
  destruct (is_explicit u);
    [apply parseInt_representable | apply num_succ_representable].
Qed.

(** X16. What a build-number-only update writes into an Android build file
    is what [parseAndroidVersions] then reads: after
    [updateAndroidVersions([file], versionCode, null)] has processed the
    file outside a dry run, with a result [n] from [0] to below [10^21]
    (where JavaScript starts to write numbers in exponent notation), the
    reader reports [n] as the file's [versionCode]. In auto-increment mode
    the result is the value the reader reported before plus one, as
    JavaScript adds; below [2^53] that is the next integer, and the reader
    reports it after the run. *)
Theorem android_build_number_read_back (f : path) (versionCode : value)
    (st st' : state) (res : android_result) :
  dryRun (opts st) = false ->
  updateAndroidVersions [f] versionCode VNull st = (inr [res], st') ->
  (forall n, a_versionCode res = Int n -> 0 <= n < 10 ^ 21 ->
     exists r',
       parseAndroidVersions f st' = (inr r', st') /\
       pa_versionCode r' = VNum (Int n)) /\
  (versionCode = VBool true ->
   exists r0 k,
     parseAndroidVersions f st = (inr r0, st) /\
     pa_versionCode r0 = VNum k /\
     a_versionCode res = num_succ k /\
     forall z, k = Int z -> z < 2 ^ 53 ->
       exists r1,
         parseAndroidVersions f st' = (inr r1, st') /\
         pa_versionCode r1 = VNum (Int (z + 1))).
Proof.
  intros Hdry Hrun. apply singleton_android_run in Hrun.
  destruct (processAndroidFile_code_only_run _ _ _ _ _ Hdry Hrun)
    as (content & r & code & Hf & E & Hcode & (Hne & Hdig) & Hres & Hf').
  assert (Hback : forall n, a_versionCode res = Int n -> 0 <= n < 10 ^ 21 ->
            exists r',
              parseAndroidVersions f st' = (inr r', st') /\
              pa_versionCode r' = VNum (Int n)).
  { intros n Hn Hrange. rewrite Hn in Hf', Hres.
    change (10 ^ 21) with 1000000000000000000000 in Hrange.
    symmetry in Hres. apply calculateNewBuildNumber_representable in Hres.
    destruct (num_to_string_reads_back n Hres Hrange)
      as (c & Etext & Hc & Hround).
    destruct (digits_of_spec c Hc) as (Hd & Hnz & Hval).
    unfold updateAndroidFileContent in Hf'. rewrite Etext in Hf'.
    pose proof (versionCode_read_back content (digits_of c) r Hd Hnz E)
      as Hread.
    apply first_capture_Some in Hread as (cs & Hread).
    unfold parseAndroidVersions. mrun. eexists. split; [reflexivity|].
    cbn [pa_versionCode]. rewrite Hread. cbn [group1].
    unfold parseInt. cbn [JS.to_string].
    now rewrite (parseInt_digits _ Hd Hnz), Hval, Hround. }
  split; [exact Hback|]. intros ->.
  change (calculateNewBuildNumber (VBool true) (VStr code))
    with (num_succ (parseInt_string code)) in Hres.
  eexists _, (parseInt_string code). split.
  { unfold parseAndroidVersions. mrun. reflexivity. }
  cbn [pa_versionCode]. unfold str_match. rewrite E, Hcode. cbn [group1].
  split; [reflexivity|]. split; [exact Hres|].
  intros z Hz Hlt. change (2 ^ 53) with 9007199254740992 in Hlt.
  rewrite (parseInt_digits _ Hdig Hne) in Hz.
  pose proof (digits_value_nonneg code 0 Hdig ltac:(lia)) as Hpos.
  assert (Hzv : z = digits_value 0 code)
    by (eapply of_Z_below; eauto).
  apply Hback.
  - rewrite Hres, (parseInt_digits _ Hdig Hne), Hz.
    apply num_succ_safe. lia.
  - change (10 ^ 21) with 1000000000000000000000. lia.
Qed.

(** What an update of the project version alone has read and written in an
    iOS project file. *)
Lemma processIOSFile_build_only_run f cpv st res st' :
  dryRun (opts st) = false -> not_null cpv = true ->
  processIOSFile f cpv VNull st = (inr (Some res), st') ->
  exists content r build,
    files st !! f = Some (File content) /\
    exec re_currentProjectVersion_cap content = Some r /\
    captures r = [build] /\ captured Digit build /\
    i_currentProjectVersion res
      = calculateNewBuildNumber cpv (VStr build) /\
    files st' !! f
    = Some (File (updateIOSFileContent content (i_currentProjectVersion res)
                    (i_marketingVersion res) true false)).
Proof.
  split_state st. cbn [opts dryRun]. intros -> Hcpv.
  unfold processIOSFile, recordIOSChanges, syncPackageJson,
    capture_of_first, relative_to_root, writeFileSync, push_change.
  srun.
  destruct (fw !! f) as [[content|]|] eqn:Ef; srun; try discriminate.
  destruct (exec re_currentProjectVersion_cap content) as [r1|] eqn:E1;
    [|rewrite (absent_match_g re_currentProjectVersion_cap content E1);
      srun; discriminate].
  destruct (exec re_marketingVersion_cap content) as [r2|] eqn:E2;
    [|rewrite (absent_match_g re_marketingVersion_cap content E2);
      destruct (str_match_g re_currentProjectVersion_cap content);
      srun; discriminate].
  destruct (one_group re_currentProjectVersion_cap Digit _ _ eq_refl E1)
    as (build & Hbuild & Hcap).
  destruct (one_group re_marketingVersion_cap (Not ";") _ _ eq_refl E2)
    as (name & Hname & _).
  destruct (str_match_g_head re_currentProjectVersion_cap _ _ eq_refl E1)
    as (more1 & G1).
  destruct (str_match_g_head re_marketingVersion_cap _ _ eq_refl E2)
    as (more2 & G2).
  pose proof (first_capture_of_match _ _ _ _ _ E2 Hname) as F2.
  assert (F1 : first_capture re_digits (matched r1) = Some build).
  { pose proof (exec_leftmost _ _ _ E1) as (_ & Hm & _).
    destruct (currentProjectVersion_shape _ _ _ _ Hm)
      as (c0 & Hcaps & -> & Hall & Hne).
    rewrite Hbuild in Hcaps. injection Hcaps as <-.
    now apply digits_of_first_match. }
  rewrite G1, G2, F1, F2. srun. cbn [not_null]. rewrite Hcpv. srun.
  destruct pk; srun; rewrite ?andb_false_r; srun;
    intros [= <- <-]; exists content, r1, build; snorm;
    cbn [i_currentProjectVersion i_marketingVersion];
    (repeat split; try assumption; try reflexivity;
     first [ apply Hcap | apply lookup_insert_eq ]).
Qed.

(** X17. What an update of the project version alone writes into an iOS
    project file is what [parseIOSVersions] then reads: after
    [updateIOSVersions([file], currentProjectVersion, null)] has processed
    the file outside a dry run, with a result [n] from [0] to below [10^21]
    (where JavaScript starts to write numbers in exponent notation), the
    reader reports [n] as the file's [currentProjectVersion], although the
    updater rewrites every occurrence and the reader looks at the first. In
    auto-increment mode the result is the value the reader reported before
    plus one, as JavaScript adds; below [2^53] that is the next integer,
    and the reader reports it after the run. *)
Theorem ios_build_number_read_back (f : path) (currentProjectVersion : value)
    (st st' : state) (res : ios_result) :
  dryRun (opts st) = false ->
  not_null currentProjectVersion = true ->
  updateIOSVersions [f] currentProjectVersion VNull st = (inr [res], st') ->
  (forall n, i_currentProjectVersion res = Int n -> 0 <= n < 10 ^ 21 ->
     exists r',
       parseIOSVersions f st' = (inr r', st') /\
       pi_currentProjectVersion r' = VNum (Int n)) /\
  (currentProjectVersion = VBool true ->
   exists r0 k,
     parseIOSVersions f st = (inr r0, st) /\
     pi_currentProjectVersion r0 = VNum k /\
     i_currentProjectVersion res = num_succ k /\
     forall z, k = Int z -> z < 2 ^ 53 ->
       exists r1,
         parseIOSVersions f st' = (inr r1, st') /\
         pi_currentProjectVersion r1 = VNum (Int (z + 1))).
Proof.
  intros Hdry Hcpv Hrun. apply singleton_ios_run in Hrun.
  destruct (processIOSFile_build_only_run _ _ _ _ _ Hdry Hcpv Hrun)
    as (content & r & build & Hf & E & Hbuild & (Hne & Hdig) & Hres & Hf').
  assert (Hback : forall n, i_currentProjectVersion res = Int n ->
            0 <= n < 10 ^ 21 ->
            exists r',
              parseIOSVersions f st' = (inr r', st') /\
              pi_currentProjectVersion r' = VNum (Int n)).
  { intros n Hn Hrange. rewrite Hn in Hf', Hres.
    change (10 ^ 21) with 1000000000000000000000 in Hrange.
    symmetry in Hres. apply calculateNewBuildNumber_representable in Hres.
    destruct (num_to_string_reads_back n Hres Hrange)
      as (c & Etext & Hc & Hround).
    destruct (digits_of_spec c Hc) as (Hd & Hnz & Hval).
    unfold updateIOSFileContent in Hf'. rewrite Etext in Hf'.
    pose proof (currentProjectVersion_read_back content (digits_of c) r
                  Hd Hnz E) as Hread.
    apply first_capture_Some in Hread as (cs & Hread).
    unfold parseIOSVersions. mrun. eexists. split; [reflexivity|].
    cbn [pi_currentProjectVersion]. rewrite Hread. cbn [group1].
    unfold parseInt. cbn [JS.to_string].
    now rewrite (parseInt_digits _ Hd Hnz), Hval, Hround. }
  split; [exact Hback|]. intros ->.
  change (calculateNewBuildNumber (VBool true) (VStr build))
    with (num_succ (parseInt_string build)) in Hres.
  eexists _, (parseInt_string build). split.
  { unfold parseIOSVersions. mrun. reflexivity. }
  cbn [pi_currentProjectVersion]. unfold str_match. rewrite E, Hbuild.
  cbn [group1].
  split; [reflexivity|]. split; [exact Hres|].
  intros z Hz Hlt. change (2 ^ 53) with 9007199254740992 in Hlt.
  rewrite (parseInt_digits _ Hdig Hne) in Hz.
  pose proof (digits_value_nonneg build 0 Hdig ltac:(lia)) as Hpos.
  assert (Hzv : z = digits_value 0 build)
    by (eapply of_Z_below; eauto).
  apply Hback.
  - rewrite Hres, (parseInt_digits _ Hdig Hne), Hz.
    apply num_succ_safe. lia.
  - change (10 ^ 21) with 1000000000000000000000. lia.
Qed.

End ReadBack.

(** ** Errors in the middle of a batch *)

Section Aborts.
Context `{Platform}.
Import Text JS Version Regex Obj Json Path Run TextFacts RegexFacts.

(** The state after the line [Processing Android file: ...] has been
    logged for [f]. *)
Definition announced (kind : string) (f : path) (st : state) : state :=
  set_console
    (console st
       ++ [Log ("Processing " ++ kind ++ " file: "
                  ++ Path.relative (default (cwd st) (projectRoot (opts st)))
                       f)])%list st.

(** X18. A semantic version that cannot be computed stops the batch before
    anything is written. When the version name found in an Android build
    file (the marketing version found in an iOS project file) makes
    [calculateNewSemanticVersion] raise - it is not of the form [a.b.c] and
    the request is to increment, or the increment kind is unknown - the
    file processor raises that error after logging the file and before
    writing it: files, change log and guard are as they were, and the batch
    raises the same error without looking at the files that follow. *)
Theorem semantic_error_stops_batch (f : path) (st : state)
    (content : string) (e : exn) :
  files st !! f = Some (File content) ->
  (forall r1 r2 name versionCode versionName,
     exec re_versionCode_cap content = Some r1 ->
     exec re_versionName_cap content = Some r2 ->
     captures r2 = [name] ->
     not_null versionName = true ->
     calculateNewSemanticVersion versionName name
       (increment_or_patch (opts st)) = inl e ->
     processAndroidFile f versionCode versionName st
       = (inl e, announced "Android" f st) /\
     forall rest,
       updateAndroidVersions (f :: rest) versionCode versionName st
       = (inl e, announced "Android" f st)) /\
  (forall r1 r2 name currentProjectVersion marketingVersion,
     exec re_currentProjectVersion_cap content = Some r1 ->
     exec re_marketingVersion_cap content = Some r2 ->
     captures r2 = [name] ->
     not_null marketingVersion = true ->
     calculateNewSemanticVersion marketingVersion name
       (increment_or_patch (opts st)) = inl e ->
     processIOSFile f currentProjectVersion marketingVersion st
       = (inl e, announced "iOS" f st) /\
     forall rest,
       updateIOSVersions (f :: rest) currentProjectVersion marketingVersion st
       = (inl e, announced "iOS" f st)).
Proof.
  intros Hf. split.
  - intros r1 r2 name vc vn E1 E2 Hname Hvn Hcalc.
    assert (Hp : processAndroidFile f vc vn st
                 = (inl e, announced "Android" f st)).
    { destruct (one_group re_versionCode_cap Digit _ _ eq_refl E1)
        as (code & Hcode & Hne1 & _).
      destruct (one_group re_versionName_cap (Not dquote) _ _ eq_refl E2)
        as (name' & Hname' & Hne2 & _).
      rewrite Hname in Hname'. injection Hname' as <-.
      apply String.eqb_neq in Hne1, Hne2.
      split_state st. cbn [files] in Hf. cbn [opts] in Hcalc.
      unfold processAndroidFile, first_capture, str_match, relative_to_root,
        announced.
      srun. rewrite E1, E2, Hcode, Hname. srun. rewrite Hne1, Hne2. srun.
      rewrite Hvn. srun. rewrite Hcalc. srun. reflexivity. }
    split; [exact Hp|]. intros rest.
    unfold updateAndroidVersions. cbn [android_loop].
    now rewrite bind_eq, Hp.
  - intros r1 r2 name cpv mv E1 E2 Hname Hmv Hcalc.
    assert (Hp : processIOSFile f cpv mv st = (inl e, announced "iOS" f st)).
    { destruct (one_group re_currentProjectVersion_cap Digit _ _ eq_refl E1)
        as (build & Hbuild & _).
      destruct (str_match_g_head re_currentProjectVersion_cap _ _ eq_refl E1)
        as (more1 & G1).
      destruct (str_match_g_head re_marketingVersion_cap _ _ eq_refl E2)
        as (more2 & G2).
      pose proof (first_capture_of_match _ _ _ _ _ E2 Hname) as F2.
      assert (F1 : first_capture re_digits (matched r1) = Some build).
      { pose proof (exec_leftmost _ _ _ E1) as (_ & Hm & _).
        destruct (currentProjectVersion_shape _ _ _ _ Hm)
          as (c0 & Hcaps & -> & Hall & Hne).
        rewrite Hbuild in Hcaps. injection Hcaps as <-.
        now apply digits_of_first_match. }
      split_state st. cbn [files] in Hf. cbn [opts] in Hcalc.
      unfold processIOSFile, capture_of_first, relative_to_root, announced.
      srun. rewrite G1, G2, F1, F2. srun.
      rewrite Hmv. srun. rewrite Hcalc. srun. reflexivity. }
    split; [exact Hp|]. intros rest.
    unfold updateIOSVersions. cbn [ios_loop].
    now rewrite bind_eq, Hp.
Qed.

(** X19. A manifest that does not parse fails the run after the platform
    file has been rewritten. With the guard unset, a manifest path
    configured and the semantic version updated, outside a dry run,
    [processAndroidFile] writes the build file and appends its two change
    records, and only then reads the manifest: when [JSON.parse] raises on
    its text the error escapes, the build file keeps its new content, the
    manifest keeps its text, and the guard is still unset. *)
Theorem manifest_error_after_write (f p : path) (st : state)
    (content text code name : string) (r1 r2 : match_result)
    (versionCode versionName newVersionName : value) (e : exn) :
  dryRun (opts st) = false ->
  packageJsonPath (opts st) = Some p ->
  packageJsonUpdated (opts st) = false ->
  p <> f ->
  files st !! f = Some (File content) ->
  exec re_versionCode_cap content = Some r1 -> captures r1 = [code] ->
  exec re_versionName_cap content = Some r2 -> captures r2 = [name] ->
  not_null versionName = true ->
  calculateNewSemanticVersion versionName name (increment_or_patch (opts st))
    = inr newVersionName ->
  files st !! p = Some (File text) ->
  JSON_parse text = inl e ->
  exists st',
    processAndroidFile f versionCode versionName st = (inl e, st') /\
    files st' !! f
    = Some (File (updateAndroidFileContent content
                    (calculateNewBuildNumber versionCode (VStr code))
                    newVersionName true)) /\
    files st' !! p = Some (File text) /\
    packageJsonUpdated (opts st') = false /\
    (exists r r',
       changes (opts st') = (changes (opts st) ++ [r; r'])%list /\
       item r = "versionCode" /\ item r' = "versionName") /\
    forall rest,
      updateAndroidVersions (f :: rest) versionCode versionName st
      = (inl e, st').
Proof.
  intros Hdry Hpk Hpu Hpf Hf E1 Hcode E2 Hname Hvn Hcalc Hp Hparse.
  destruct (one_group re_versionCode_cap Digit _ _ eq_refl E1)
    as (code' & Hcode' & Hne1 & _).
  destruct (one_group re_versionName_cap (Not dquote) _ _ eq_refl E2)
    as (name' & Hname' & Hne2 & _).
  rewrite Hcode in Hcode'. injection Hcode' as <-.
  rewrite Hname in Hname'. injection Hname' as <-.
  apply String.eqb_neq in Hne1, Hne2.
  split_state st. cbn [files opts dryRun packageJsonPath packageJsonUpdated]
    in *. subst d pk pu.
  assert (Hrun : exists st',
            processAndroidFile f versionCode versionName
              {| files := fw; cwd := c; console := l;
                 opts := {| projectRoot := pr; dryRun := false;
                            increment := inc; changes := ch;
                            packageJsonPath := Some p;
                            packageJsonUpdated := false |} |}
              = (inl e, st') /\
            files st' !! f
            = Some (File (updateAndroidFileContent content
                            (calculateNewBuildNumber versionCode (VStr code))
                            newVersionName true)) /\
            files st' !! p = Some (File text) /\
            packageJsonUpdated (opts st') = false /\
            (exists r r',
               changes (opts st') = (ch ++ [r; r'])%list /\
               item r = "versionCode" /\ item r' = "versionName")).
  { unfold processAndroidFile, recordAndroidChanges, syncPackageJson,
      updatePackageJsonVersion, first_capture, str_match, relative_to_root,
      writeFileSync, push_change.
    srun. rewrite E1, E2, Hcode, Hname. srun. rewrite Hne1, Hne2. srun.
    rewrite Hvn. srun. rewrite Hcalc. srun.
    assert (Hlook : <[f := File (updateAndroidFileContent content
                             (calculateNewBuildNumber versionCode (VStr code))
                             newVersionName true)]> fw !! p
                    = Some (File text))
      by (rewrite lookup_insert_ne by congruence; exact Hp).
    unfold updateAndroidFileContent in Hlook |- *.
    repeat (first [rewrite Hlook | progress srun]).
    rewrite Hparse. srun.
    eexists. split; [reflexivity|]. snorm.
    split; [apply lookup_insert_eq|]. split; [exact Hlook|].
    split; [reflexivity|].
    eexists _, _. rewrite <- app_assoc. split; [reflexivity|].
    split; reflexivity. }
  destruct Hrun as (st' & Hrun & H1 & H2 & H3 & H4).
  exists st'. repeat split; try assumption.
  intros rest. unfold updateAndroidVersions. cbn [android_loop].
  now rewrite bind_eq, Hrun.
Qed.

End Aborts.
(** ** One invocation, one update of the shared manifest *)

Section SingleUpdate.
Context `{Platform}.
Import Text JS Version Regex Obj Json Path Run.

(** The run of both platforms, as [executePlatformUpdates] dispatches the
    selection [android], [ios]. *)
Lemma both_platforms_run androidFiles iosFiles o st :
  executePlatformUpdates ["android"; "ios"] androidFiles iosFiles o st
  = (updateAndroidVersions androidFiles (versionCode o) (versionName o);;
     updateIOSVersions iosFiles (currentProjectVersion o)
       (marketingVersion o);;
     mret tt) st.
Proof.
  unfold executePlatformUpdates.
  cbv [includes existsb String.eqb Ascii.eqb Bool.eqb orb when].
  unfold mret, M_ret, ret. repeat rewrite bind_eq. cbv beta iota.
  destruct (updateAndroidVersions androidFiles (versionCode o)
              (versionName o) st) as [[e|resA] stA]; [reflexivity|].
  repeat rewrite bind_eq. cbv beta iota.
  destruct (updateIOSVersions iosFiles (currentProjectVersion o)
              (marketingVersion o) stA) as [[e|resI] st']; reflexivity.
Qed.

(** The semantic version of the first platform file processed, Android
    files first. *)
Definition first_version (resA : list android_result)
    (resI : list ios_result) : option value :=
  match resA, resI with
  | r :: _, _ => Some (a_versionName r)
  | [], r :: _ => Some (i_marketingVersion r)
  | [], [] => None
  end.

Lemma android_batch_first p batch vc vn st res st' :
  not_null vn = true ->
  packageJsonPath (opts st) = Some p ->
  packageJsonUpdated (opts st) = false ->
  updateAndroidVersions batch vc vn st = (inr res, st') ->
  match res with
  | [] => files st' = files st /\ opts st' = opts st /\ cwd st' = cwd st
  | r :: _ =>
      packageJsonUpdated (opts st') = true /\
      at_most_record st p (a_versionName r) st' /\
      (forall doc cv,
         manifest_at st p doc cv -> p ∉ batch ->
         manifest_records (changes (opts st'))
         = (manifest_records (changes (opts st))
              ++ [manifest_record st p cv (a_versionName r)])%list)
  end.
Proof.
  intros Hn Hp Hg E.
  destruct res as [|r res].
  - exact (loop_idle _ a_versionName (not_null vn)
             (fun f => processAndroidFile f vc vn)
             (fun batch results => android_loop batch vc vn results)
             ltac:(reflexivity) ltac:(reflexivity)
             (fun f st => processAndroidFile_shape f vc vn st)
             batch [] st st' E).
  - destruct (loop_first _ a_versionName (not_null vn)
                (fun f => processAndroidFile f vc vn)
                (fun batch results => android_loop batch vc vn results)
                ltac:(reflexivity) ltac:(reflexivity)
                (fun f st => processAndroidFile_shape f vc vn st)
                (fun batch results => once_android_loop batch vc vn results)
                p batch [] st (r :: res) st' E Hp Hg Hn)
      as (news & Hnews & Hfirst).
    cbn [app] in Hnews. subst news. exact Hfirst.
Qed.

Lemma ios_batch_first p batch cpv mv st res st' :
  not_null mv = true ->
  packageJsonPath (opts st) = Some p ->
  packageJsonUpdated (opts st) = false ->
  updateIOSVersions batch cpv mv st = (inr res, st') ->
  match res with
  | [] => files st' = files st /\ opts st' = opts st /\ cwd st' = cwd st
  | r :: _ =>
      packageJsonUpdated (opts st') = true /\
      at_most_record st p (i_marketingVersion r) st' /\
      (forall doc cv,
         manifest_at st p doc cv -> p ∉ batch ->
         manifest_records (changes (opts st'))
         = (manifest_records (changes (opts st))
              ++ [manifest_record st p cv (i_marketingVersion r)])%list)
  end.
Proof.
  intros Hn Hp Hg E.
  destruct res as [|r res].
  - exact (loop_idle _ i_marketingVersion (not_null mv)
             (fun f => processIOSFile f cpv mv)
             (fun batch results => ios_loop batch cpv mv results)
             ltac:(reflexivity) ltac:(reflexivity)
             (fun f st => processIOSFile_shape f cpv mv st)
             batch [] st st' E).
  - destruct (loop_first _ i_marketingVersion (not_null mv)
                (fun f => processIOSFile f cpv mv)
                (fun batch results => ios_loop batch cpv mv results)
                ltac:(reflexivity) ltac:(reflexivity)
                (fun f st => processIOSFile_shape f cpv mv st)
                (fun batch results => once_ios_loop batch cpv mv results)
                p batch [] st (r :: res) st' E Hp Hg Hn)
      as (news & Hnews & Hfirst).
    cbn [app] in Hnews. subst news. exact Hfirst.
Qed.

(** C4 as amended. In a single invocation the shared manifest is updated at
    most once: whatever the selection, [executePlatformUpdates] appends at
    most one change record against the manifest, none once the guard
    [packageJsonUpdated] is set, and sets the guard when it appends one. In
    the run of both platforms with the semantic version enabled, started
    with a manifest path configured and the guard unset, the record carries
    the new semantic version computed for the first platform file
    processed, Android files first, and the guard ends up set; there is
    exactly that one record when the manifest exists, parses, has a truthy
    version and is not itself one of the platform files, and none when no
    platform file was processed. *)
Theorem single_manifest_update :
  (forall platforms androidFiles iosFiles o,
     once (executePlatformUpdates platforms androidFiles iosFiles o)) /\
  (forall androidFiles iosFiles o st st' p,
     packageJsonPath (opts st) = Some p ->
     packageJsonUpdated (opts st) = false ->
     not_null (versionName o) = true ->
     not_null (marketingVersion o) = true ->
     executePlatformUpdates ["android"; "ios"] androidFiles iosFiles o st
       = (inr tt, st') ->
     exists resA stA resI,
       updateAndroidVersions androidFiles (versionCode o) (versionName o) st
         = (inr resA, stA) /\
       updateIOSVersions iosFiles (currentProjectVersion o)
         (marketingVersion o) stA = (inr resI, st') /\
       match first_version resA resI with
       | None =>
           packageJsonUpdated (opts st') = false /\
           manifest_records (changes (opts st'))
           = manifest_records (changes (opts st))
       | Some v =>
           packageJsonUpdated (opts st') = true /\
           at_most_record st p v st' /\
           (forall doc cv,
              manifest_at st p doc cv ->
              p ∉ androidFiles -> p ∉ iosFiles ->
              manifest_records (changes (opts st'))
              = (manifest_records (changes (opts st))
                   ++ [manifest_record st p cv v])%list)
       end).
Proof.
  split; [apply once_executePlatformUpdates|].
  intros androidFiles iosFiles o st st' p Hp Hg Hvn Hmv E.
  rewrite both_platforms_run, bind_eq in E.
  destruct (updateAndroidVersions androidFiles (versionCode o)
              (versionName o) st) as [[e|resA] stA] eqn:Ea; [discriminate|].
  rewrite bind_eq in E.
  destruct (updateIOSVersions iosFiles (currentProjectVersion o)
              (marketingVersion o) stA) as [[e|resI] stI] eqn:Ei;
    [discriminate|].
  injection E as <-.
  exists resA, stA, resI. split; [reflexivity|]. split; [exact Ei|].
  pose proof (android_batch_first p _ _ _ _ _ _ Hvn Hp Hg Ea) as Ha.
  destruct resA as [|r resA]; cbn [first_version].
  - (* no Android file was processed *)
    destruct Ha as (Hf & Ho & Hc).
    assert (Hp' : packageJsonPath (opts stA) = Some p) by now rewrite Ho.
    assert (Hg' : packageJsonUpdated (opts stA) = false) by now rewrite Ho.
    pose proof (ios_batch_first p _ _ _ _ _ _ Hmv Hp' Hg' Ei) as Hi.
    destruct resI as [|r resI].
    + destruct Hi as (_ & Ho' & _). rewrite Ho', Ho. auto.
    + destruct Hi as (Hset & Hmost & Hexact).
      assert (Hrec : manifest_record stA p = manifest_record st p).
      { unfold manifest_record. now rewrite Hc, Ho. }
      split; [exact Hset|]. split.
      * unfold at_most_record in *. rewrite Ho, Hrec in Hmost. exact Hmost.
      * intros doc cv (content & Hfile & Hrest) _ Hin.
        assert (Hm : manifest_at stA p doc cv).
        { exists content. rewrite Hf. auto. }
        rewrite (Hexact doc cv Hm Hin). now rewrite Ho, Hrec.
  - (* the first Android file processed *)
    destruct Ha as (Hset & Hmost & Hexact).
    destruct (once_ios_loop iosFiles (currentProjectVersion o)
                (marketingVersion o) [] stA) as (extra & Hx & _ & Hgd & _).
    unfold updateIOSVersions in Ei. rewrite Ei in Hx, Hgd.
    cbn [snd] in Hx, Hgd.
    destruct (Hgd Hset) as [-> Hset']. rewrite app_nil_r in Hx.
    split; [exact Hset'|]. split.
    + unfold at_most_record in *. now rewrite Hx.
    + intros doc cv Hm Hin _. rewrite Hx. exact (Hexact doc cv Hm Hin).
Qed.

End SingleUpdate.

(** ** What no mutator does *)

Section Evolution.
Context `{Platform}.
Import Text JS Version Regex Path Run.

(** Both absent, both directories, or both files. *)
Definition same_kind (a b : option node) : Prop :=
  match a, b with
  | None, None | Some Dir, Some Dir | Some (File _), Some (File _) => True
  | _, _ => False
  end.

(** [st'] is what a run may make of [st]: the same paths with the same
    kinds, the same working directory and settings, a change log and a
    console that have only been appended to, and a guard that has not been
    reset. *)
Definition evolves (st st' : state) : Prop :=
  (forall q, same_kind (files st !! q) (files st' !! q)) /\
  cwd st' = cwd st /\
  projectRoot (opts st') = projectRoot (opts st) /\
  dryRun (opts st') = dryRun (opts st) /\
  increment (opts st') = increment (opts st) /\
  packageJsonPath (opts st') = packageJsonPath (opts st) /\
  (exists more, changes (opts st') = (changes (opts st) ++ more)%list) /\
  (exists lines, console st' = (console st ++ lines)%list) /\
  (packageJsonUpdated (opts st) = true ->
   packageJsonUpdated (opts st') = true).

Lemma same_kind_refl a : same_kind a a.
Proof. now destruct a as [[|]|]. Qed.

Lemma same_kind_trans a b c : same_kind a b -> same_kind b c -> same_kind a c.
Proof. destruct a as [[|]|], b as [[|]|], c as [[|]|]; cbn; tauto. Qed.

Lemma evolves_refl st : evolves st st.
Proof.
  repeat split; try reflexivity; try (intros; apply same_kind_refl); auto;
    exists []; now rewrite app_nil_r.
Qed.

Lemma evolves_trans st1 st2 st3 :
  evolves st1 st2 -> evolves st2 st3 -> evolves st1 st3.
Proof.
  intros (K1 & C1 & R1 & D1 & I1 & P1 & (m1 & M1) & (l1 & L1) & G1)
         (K2 & C2 & R2 & D2 & I2 & P2 & (m2 & M2) & (l2 & L2) & G2).
  repeat split; try congruence; auto.
  - intros q. eapply same_kind_trans; [apply K1 | apply K2].
  - exists (m1 ++ m2)%list. now rewrite M2, M1, app_assoc.
  - exists (l1 ++ l2)%list. now rewrite L2, L1, app_assoc.
Qed.

Lemma same_kind_overwrite (fs : gmap path node) f content content' q :
  fs !! f = Some (File content) ->
  same_kind (fs !! q) (<[f := File content']> fs !! q).
Proof.
  intros Hf. destruct (decide (q = f)) as [->|Hne].
  - now rewrite lookup_insert_eq, Hf.
  - rewrite lookup_insert_ne by congruence. apply same_kind_refl.
Qed.

(** Close a goal [evolves st st'] between two explicit states. *)
Ltac appended :=
  first [ exists []; now rewrite app_nil_r
        | eexists; rewrite <- ?app_assoc; reflexivity ].

Ltac evolved :=
  unfold evolves; snorm; cbn [fst snd];
  repeat split; intros;
  first [ reflexivity | assumption | apply same_kind_refl
        | eapply same_kind_overwrite; eassumption
        | appended ].

Lemma updatePackageJsonVersion_evolves p v st :
  evolves st (updatePackageJsonVersion p v st).2.
Proof.
  split_state st. unfold updatePackageJsonVersion. srun.
  destruct (fw !! p) as [[content|]|] eqn:Ep; srun; try solve [evolved].
  destruct (JSON_parse content) as [e|packageData]; srun; [evolved|].
  destruct (Obj.get_prop packageData "version") as [e|cv]; srun; [evolved|].
  destruct (truthy cv); srun; [|evolved].
  unfold writeFileSync, recordPackageJsonChange, relative_to_root, push_change.
  destruct d; srun; evolved.
Qed.

Lemma syncPackageJson_evolves enabled v st :
  evolves st (syncPackageJson enabled v st).2.
Proof.
  unfold syncPackageJson. rewrite bind_eq. unfold gets. cbn [fst snd].
  destruct (packageJsonPath (opts st)) as [p|]; [|apply evolves_refl].
  destruct (negb (packageJsonUpdated (opts st)) && enabled);
    [|apply evolves_refl].
  rewrite bind_eq.
  pose proof (updatePackageJsonVersion_evolves p v st) as Hu.
  destruct (updatePackageJsonVersion p v st) as [[e|r] st1]; cbn [snd] in *;
    [exact Hu|].
  eapply evolves_trans; [exact Hu|]. unfold modify. cbn [snd].
  split_state st1. evolved.
Qed.

(** Continue past the shared-manifest step. *)
Ltac past_sync :=
  match goal with
  | |- context [syncPackageJson ?en ?v ?s] =>
      let Hs := fresh "Hs" in
      pose proof (syncPackageJson_evolves en v s) as Hs;
      destruct (syncPackageJson en v s) as [[?|[]] ?]; cbn [snd] in Hs |- *;
      (eapply evolves_trans; [|exact Hs]); evolved
  end.

Lemma processAndroidFile_evolves f vc vn st :
  evolves st (processAndroidFile f vc vn st).2.
Proof.
  split_state st. unfold processAndroidFile. srun.
  destruct (fw !! f) as [[content|]|] eqn:Ef; srun; try solve [evolved].
  destruct (negb _ || negb _); srun; [evolved|].
  unfold relative_to_root. srun.
  destruct (not_null vn); srun.
  - destruct (calculateNewSemanticVersion vn _ _) as [e|newVersionName];
      srun; [evolved|].
    unfold writeFileSync, recordAndroidChanges, relative_to_root, push_change.
    destruct d; srun; past_sync.
  - unfold writeFileSync, recordAndroidChanges, relative_to_root, push_change.
    destruct d; srun; past_sync.
Qed.

Lemma processIOSFile_evolves f cpv mv st :
  evolves st (processIOSFile f cpv mv st).2.
Proof.
  split_state st. unfold processIOSFile. srun.
  destruct (fw !! f) as [[content|]|] eqn:Ef; srun; try solve [evolved].
  destruct (str_match_g re_currentProjectVersion_cap content) as [ms1|];
    [|srun; evolved].
  destruct (str_match_g re_marketingVersion_cap content) as [ms2|];
    [|srun; evolved].
  srun.
  destruct (capture_of_first_pure re_digits ms1) as [[e|v1] E1];
    rewrite !E1; srun; [evolved|].
  destruct (capture_of_first_pure re_marketingVersion_cap ms2) as [[e|v2] E2];
    rewrite !E2; srun; [evolved|].
  unfold relative_to_root. srun.
  destruct (not_null mv); srun.
  - destruct (calculateNewSemanticVersion mv _ _) as [e|newMarketingVersion];
      srun; [evolved|].
    unfold writeFileSync, recordIOSChanges, relative_to_root, push_change.
    destruct d; srun; destruct (not_null cpv); srun; past_sync.
  - unfold writeFileSync, recordIOSChanges, relative_to_root, push_change.
    destruct d; srun; destruct (not_null cpv); srun; past_sync.
Qed.

Lemma android_loop_evolves batch vc vn : forall results st,
  evolves st (android_loop batch vc vn results st).2.
Proof.
  induction batch as [|f batch IH]; intros results st; cbn [android_loop].
  - apply evolves_refl.
  - rewrite bind_eq. pose proof (processAndroidFile_evolves f vc vn st) as Hp.
    destruct (processAndroidFile f vc vn st) as [[e|r] st1]; cbn [snd] in *;
      [exact Hp|].
    eapply evolves_trans; [exact Hp | apply IH].
Qed.

Lemma ios_loop_evolves batch cpv mv : forall results st,
  evolves st (ios_loop batch cpv mv results st).2.
Proof.
  induction batch as [|f batch IH]; intros results st; cbn [ios_loop].
  - apply evolves_refl.
  - rewrite bind_eq. pose proof (processIOSFile_evolves f cpv mv st) as Hp.
    destruct (processIOSFile f cpv mv st) as [[e|r] st1]; cbn [snd] in *;
      [exact Hp|].
    eapply evolves_trans; [exact Hp | apply IH].
Qed.

Lemma evolves_bind {A B} (m : M A) (k : A -> M B) :
  (forall st, evolves st (m st).2) ->
  (forall a st, evolves st (k a st).2) ->
  forall st, evolves st ((m ≫= k) st).2.
Proof.
  intros Hm Hk st. rewrite bind_eq. specialize (Hm st).
  destruct (m st) as [[e|a] st1]; cbn [snd] in *; [exact Hm|].
  eapply evolves_trans; [exact Hm | apply Hk].
Qed.

Lemma evolves_when {A} (cond : bool) (m : M A) :
  (forall st, evolves st (m st).2) ->
  forall st, evolves st (when cond m st).2.
Proof.
  intros Hm. unfold when. destruct cond; [|intros; apply evolves_refl].
  apply evolves_bind; [exact Hm|]. intros; apply evolves_refl.
Qed.

(** X13. However a run goes - to the end or into an error - the mutators
    never create, delete or change the kind of a file-system entry (they
    rewrite files that were read, nothing else), never touch the working
    directory, the project root, the dry-run flag, the increment kind or
    the manifest path, never drop or rewrite a change record or a console
    line, and never reset the manifest guard. *)
Theorem mutators_only_rewrite (st : state) :
  (forall p v, evolves st (updatePackageJsonVersion p v st).2) /\
  (forall batch versionCode versionName,
     evolves st (updateAndroidVersions batch versionCode versionName st).2) /\
  (forall batch currentProjectVersion marketingVersion,
     evolves st
       (updateIOSVersions batch currentProjectVersion marketingVersion st).2)
  /\
  (forall platforms androidFiles iosFiles o,
     evolves st
       (executePlatformUpdates platforms androidFiles iosFiles o st).2).
Proof.
  split; [|split; [|split]].
  - intros p v. apply updatePackageJsonVersion_evolves.
  - intros batch vc vn. apply android_loop_evolves.
  - intros batch cpv mv. apply ios_loop_evolves.
  - intros platforms af jf o. revert st. unfold executePlatformUpdates.
    repeat first
      [ apply evolves_bind; [|intros ?]
      | apply evolves_when
      | intros st; apply android_loop_evolves
      | intros st; apply ios_loop_evolves ].
Qed.

End Evolution.

(** ** Build-number runs *)

Section BuildNumbersOnly.
Context `{Platform}.
Import Text JS Version Regex Path Run.

(** A change record of a build number. *)
Definition build_item (r : ChangeRecord) : Prop :=
  item r = "versionCode" \/ item r = "CURRENT_PROJECT_VERSION".

(** A step that updates build numbers only, in the files [touched]: the
    manifest guard is as it was, every record appended is that of a build
    number, and the files outside [touched] are as they were. *)
Definition build_step (touched : path -> Prop) (st st' : state) : Prop :=
  packageJsonUpdated (opts st') = packageJsonUpdated (opts st) /\
  (exists more,
     changes (opts st') = (changes (opts st) ++ more)%list /\
     Forall build_item more) /\
  (forall q, ~ touched q -> files st' !! q = files st !! q).

Lemma build_step_refl touched st : build_step touched st st.
Proof.
  split; [reflexivity|]. split; [|reflexivity].
  exists []. now rewrite app_nil_r.
Qed.

Lemma build_step_trans touched st1 st2 st3 :
  build_step touched st1 st2 -> build_step touched st2 st3 ->
  build_step touched st1 st3.
Proof.
  intros (G1 & (m1 & M1 & F1) & K1) (G2 & (m2 & M2 & F2) & K2).
  split; [congruence|]. split.
  - exists (m1 ++ m2)%list. rewrite M2, M1, app_assoc.
    split; [reflexivity | now apply Forall_app].
  - intros q Hq. now rewrite K2, K1.
Qed.

Lemma build_step_weaken (t1 t2 : path -> Prop) st st' :
  (forall q, t1 q -> t2 q) -> build_step t1 st st' -> build_step t2 st st'.
Proof.
  intros Hsub (G & M & K). split; [exact G|]. split; [exact M|].
  intros q Hq. apply K. auto.
Qed.

Ltac built :=
  unfold build_step; snorm; cbn [fst snd];
  repeat split; intros;
  first [ reflexivity
        | exists []; split; [now rewrite app_nil_r | constructor]
        | eexists; split; [reflexivity|];
          repeat match goal with
                 | |- Forall _ [] => constructor
                 | |- Forall _ (_ :: _) =>
                     constructor;
                     [unfold build_item; cbn;
                      first [left; reflexivity | right; reflexivity]|]
                 end
        | rewrite lookup_insert_ne by congruence; reflexivity ].

Lemma processAndroidFile_build f vc st :
  build_step (fun q => q = f) st (processAndroidFile f vc VNull st).2.
Proof.
  split_state st. unfold processAndroidFile. srun.
  destruct (fw !! f) as [[content|]|] eqn:Ef; srun; try solve [built].
  destruct (negb _ || negb _); srun; [built|].
  unfold relative_to_root. cbn [not_null]. srun.
  unfold writeFileSync, recordAndroidChanges, relative_to_root, push_change.
  destruct d; srun; rewrite syncPackageJson_off; srun; built.
Qed.

Lemma processIOSFile_build f cpv st :
  build_step (fun q => q = f) st (processIOSFile f cpv VNull st).2.
Proof.
  split_state st. unfold processIOSFile. srun.
  destruct (fw !! f) as [[content|]|] eqn:Ef; srun; try solve [built].
  destruct (str_match_g re_currentProjectVersion_cap content) as [ms1|];
    [|srun; built].
  destruct (str_match_g re_marketingVersion_cap content) as [ms2|];
    [|srun; built].
  srun.
  destruct (capture_of_first_pure re_digits ms1) as [[e|v1] E1];
    rewrite !E1; srun; [built|].
  destruct (capture_of_first_pure re_marketingVersion_cap ms2) as [[e|v2] E2];
    rewrite !E2; srun; [built|].
  unfold relative_to_root. cbn [not_null]. srun.
  unfold writeFileSync, recordIOSChanges, relative_to_root, push_change.
  destruct d; srun; destruct (not_null cpv); srun;
    rewrite syncPackageJson_off; srun; built.
Qed.

Lemma android_loop_build batch vc : forall results st,
  build_step (fun q => q ∈ batch) st (android_loop batch vc VNull results st).2.
Proof.
  induction batch as [|f batch IH]; intros results st; cbn [android_loop].
  - apply build_step_refl.
  - rewrite bind_eq. pose proof (processAndroidFile_build f vc st) as Hp.
    apply (build_step_weaken _ (fun q => q ∈ f :: batch)) in Hp;
      [|intros q ->; constructor].
    destruct (processAndroidFile f vc VNull st) as [[e|r] st1];
      cbn [snd] in *; [exact Hp|].
    eapply build_step_trans; [exact Hp|].
    eapply build_step_weaken; [|apply IH]. intros q Hq. now constructor.
Qed.

Lemma ios_loop_build batch cpv : forall results st,
  build_step (fun q => q ∈ batch) st (ios_loop batch cpv VNull results st).2.
Proof.
  induction batch as [|f batch IH]; intros results st; cbn [ios_loop].
  - apply build_step_refl.
  - rewrite bind_eq. pose proof (processIOSFile_build f cpv st) as Hp.
    apply (build_step_weaken _ (fun q => q ∈ f :: batch)) in Hp;
      [|intros q ->; constructor].
    destruct (processIOSFile f cpv VNull st) as [[e|r] st1];
      cbn [snd] in *; [exact Hp|].
    eapply build_step_trans; [exact Hp|].
    eapply build_step_weaken; [|apply IH]. intros q Hq. now constructor.
Qed.

Lemma build_step_bind {A B} touched (m : M A) (k : A -> M B) :
  (forall st, build_step touched st (m st).2) ->
  (forall a st, build_step touched st (k a st).2) ->
  forall st, build_step touched st ((m ≫= k) st).2.
Proof.
  intros Hm Hk st. rewrite bind_eq. specialize (Hm st).
  destruct (m st) as [[e|a] st1]; cbn [snd] in *; [exact Hm|].
  eapply build_step_trans; [exact Hm | apply Hk].
Qed.

Lemma build_step_when {A} touched (cond : bool) (m : M A) :
  (cond = true -> forall st, build_step touched st (m st).2) ->
  forall st, build_step touched st (when cond m st).2.
Proof.
  intros Hm. unfold when. destruct cond; [|intros; apply build_step_refl].
  apply build_step_bind; [now apply Hm|]. intros; apply build_step_refl.
Qed.

(** The selections that update build numbers and nothing else. *)
Definition build_numbers_only (platforms : list string) : Prop :=
  includes platforms "android" = false /\
  includes platforms "android-name-only" = false /\
  includes platforms "ios" = false /\
  includes platforms "ios-marketing-only" = false.

(** X14. A run that updates build numbers only - any selection made of
    [android-code-only], [ios-version-only] and [build-numbers-only] - never
    synchronises the manifest: the guard stays as it was, every change
    record appended is that of a [versionCode] or a
    [CURRENT_PROJECT_VERSION], and no file outside the two batches is
    written, so [package.json] keeps its version. The same holds of either
    platform updater called with [null] for the semantic version. This is so
    whether the run ends or raises. *)
Theorem build_number_runs_spare_manifest (platforms : list string)
    (androidFiles iosFiles : list path) (o : requests) (st : state) :
  build_numbers_only platforms ->
  build_step (fun q => q ∈ androidFiles \/ q ∈ iosFiles) st
    (executePlatformUpdates platforms androidFiles iosFiles o st).2 /\
  (forall versionCode,
     build_step (fun q => q ∈ androidFiles) st
       (updateAndroidVersions androidFiles versionCode VNull st).2) /\
  (forall currentProjectVersion,
     build_step (fun q => q ∈ iosFiles) st
       (updateIOSVersions iosFiles currentProjectVersion VNull st).2).
Proof.
  intros (Ha & Han & Hi & Him).
  split; [|split; intros; [apply android_loop_build | apply ios_loop_build]].
  assert (HA : forall vc st0,
            build_step (fun q => q ∈ androidFiles \/ q ∈ iosFiles) st0
              (updateAndroidVersions androidFiles vc VNull st0).2).
  { intros vc st0. eapply build_step_weaken; [|apply android_loop_build].
    cbn; auto. }
  assert (HI : forall cpv st0,
            build_step (fun q => q ∈ androidFiles \/ q ∈ iosFiles) st0
              (updateIOSVersions iosFiles cpv VNull st0).2).
  { intros cpv st0. eapply build_step_weaken; [|apply ios_loop_build].
    cbn; auto. }
  revert st. unfold executePlatformUpdates. rewrite Ha, Han, Hi, Him.
  repeat first
    [ apply build_step_bind; [|intros ?]
    | apply build_step_when; intros ?
    | apply HA | apply HI
    | discriminate ].
Qed.

End BuildNumbersOnly.

(** ** The theorems at concrete projects *)

Module Concrete.
Import Text JS Version Regex Obj Json Path Run Examples RegexFacts.
#[local] Existing Instance Reference.reference_platform.

Definition field (k v : string) : string := quoted k ++ ":" ++ quoted v.

(** A manifest written without any white space:
    [{"name":"app","version":"1.0.0"}]. *)
Definition compact_manifest : string :=
  "{" ++ field "name" "app" ++ "," ++ field "version" "1.0.0" ++ "}".

Definition manifest_doc : fields :=
  [("name", VStr "app"); ("version", VStr "1.0.0")].

Definition full_project : gmap path node :=
  {[ gradle_path := File (gradle_text "1" "1.0.0");
     pbxproj_path := File (pbxproj_text "1" "1.0.0");
     package_path := File compact_manifest ]}.

Definition st_full : state := project full_project false (Some package_path).

Lemma manifest_at_full :
  manifest_at st_full package_path manifest_doc (VStr "1.0.0").
Proof. exists compact_manifest. repeat split; reflexivity. Qed.

Lemma manifest_rewrite_witness :
  manifest_at st_full package_path manifest_doc (VStr "1.0.0") /\
  dryRun (opts st_full) = false /\
  (updatePackageJsonVersion package_path (VStr "1.0.1") st_full).1
  = inr (Some (VStr "1.0.1")).
Proof.
  split; [exact manifest_at_full|]. split; [reflexivity|].
  exact (proj1 (manifest_rewrite package_path (VStr "1.0.1") st_full
                  manifest_doc (VStr "1.0.0") manifest_at_full eq_refl)).
Defined.

(** C7 as stated fails on a manifest that is not laid out with two-space
    indentation and a trailing newline: the compact one-line manifest is
    rewritten over five indented lines, not as the original text with only
    the version value replaced. *)
Lemma manifest_layout_not_preserved :
  let r := updatePackageJsonVersion package_path (VStr "1.0.1") st_full in
  r.1 = inr (Some (VStr "1.0.1")) /\
  files st_full !! package_path
  = Some (File ("{" ++ field "name" "app" ++ ","
                  ++ field "version" "1.0.0" ++ "}")) /\
  files r.2 !! package_path
  = Some (File ("{" ++ nl ++ "  " ++ quoted "name" ++ ": " ++ quoted "app"
                  ++ "," ++ nl ++ "  " ++ quoted "version" ++ ": "
                  ++ quoted "1.0.1" ++ nl ++ "}" ++ nl)) /\
  files r.2 !! package_path
  <> Some (File ("{" ++ field "name" "app" ++ ","
                   ++ field "version" "1.0.1" ++ "}")).
Proof. vm_compute. repeat split; try reflexivity. discriminate. Qed.

Definition st_missing : state := project android_only false None.

Lemma unusable_file_is_skipped_witness :
  android_unusable st_missing pbxproj_path /\
  ios_unusable st_missing gradle_path /\
  (exists w,
     processAndroidFile pbxproj_path (VBool true) (VBool true) st_missing
     = (inr None, warned w st_missing)) /\
  (exists w,
     processIOSFile gradle_path (VBool true) (VBool true) st_missing
     = (inr None, warned w st_missing)).
Proof.
  assert (Ha : android_unusable st_missing pbxproj_path).
  { left. reflexivity. }
  assert (Hi : ios_unusable st_missing gradle_path).
  { right. exists (gradle_text "1" "1.0.0").
    split; [reflexivity|]. left. reflexivity. }
  split; [exact Ha|]. split; [exact Hi|].
  destruct (unusable_file_is_skipped pbxproj_path st_missing) as [HA _].
  destruct (unusable_file_is_skipped gradle_path st_missing) as [_ HI].
  split.
  - destruct (HA Ha (VBool true) (VBool true)) as (w & Hw & _).
    exists w. exact Hw.
  - destruct (HI Hi (VBool true) (VBool true)) as (w & Hw & _).
    exists w. exact Hw.
Defined.

Lemma dry_run_writes_nothing_witness :
  NoDup [gradle_path] /\
  (forall q, packageJsonPath (opts st_full) = Some q -> q ∉ [gradle_path]) /\
  files (updateAndroidVersions [gradle_path] (VBool true) (VBool true)
           (dry st_full)).2 = files st_full /\
  updateAndroidVersions [gradle_path] (VBool true) (VBool true) (dry st_full)
  = (let '(r, sw) :=
       updateAndroidVersions [gradle_path] (VBool true) (VBool true)
         (real st_full) in
     (r, ghost (files st_full) sw)) /\
  (let r := updateAndroidVersions [gradle_path] (VBool true) VNull
              (dry st_full) in
   r.1 = inr [{| a_filePath := gradle_path; a_versionCode := Int 2;
                 a_versionName := VStr "1.0.0" |}] /\
   changes (opts r.2)
   = [{| platform := "Android"; file := "android/app/build.gradle";
         item := "versionCode"; oldValue := VStr "1";
         newValue := VNum (Int 2) |}]) /\
  (let r := updateIOSVersions [pbxproj_path] (VBool true) VNull
              (dry st_full) in
   r.1 = inr [{| i_filePath := pbxproj_path;
                 i_currentProjectVersion := Int 2;
                 i_marketingVersion := VStr "1.0.0" |}] /\
   changes (opts r.2)
   = [{| platform := "iOS"; file := "ios/App.xcodeproj/project.pbxproj";
         item := "CURRENT_PROJECT_VERSION"; oldValue := VStr "1";
         newValue := VNum (Int 2) |}]).
Proof.
  assert (Hnd : NoDup [gradle_path]).
  { apply NoDup_singleton. }
  assert (Hpk : forall q, packageJsonPath (opts st_full) = Some q ->
                          q ∉ [gradle_path]).
  { intros q [= <-] Hin. apply list_elem_of_singleton in Hin. discriminate Hin. }
  split; [exact Hnd|]. split; [exact Hpk|].
  destruct (dry_run_writes_nothing st_full [gradle_path] (VBool true)
              (VBool true) package_path) as (Hf & _ & _ & _ & _ & _ & _ & Hb).
  split; [exact Hf|]. split; [exact (proj1 (Hb Hnd Hpk))|].
  destruct (dry_run_writes_nothing st_full [gradle_path] (VBool true)
              VNull package_path) as (_ & _ & _ & Ha & Hi & _).
  assert (Ef : files st_full !! gradle_path
               = Some (File (gradle_text "1" "1.0.0")))
    by (vm_compute; reflexivity).
  assert (Eg : files st_full !! pbxproj_path
               = Some (File (pbxproj_text "1" "1.0.0")))
    by (vm_compute; reflexivity).
  assert (E1 : first_capture re_versionCode_cap (gradle_text "1" "1.0.0")
               = Some "1") by (vm_compute; reflexivity).
  assert (E2 : first_capture re_versionName_cap (gradle_text "1" "1.0.0")
               = Some "1.0.0") by (vm_compute; reflexivity).
  assert (E3 : first_capture re_currentProjectVersion_cap
                 (pbxproj_text "1" "1.0.0") = Some "1")
    by (vm_compute; reflexivity).
  assert (E4 : first_capture re_marketingVersion_cap
                 (pbxproj_text "1" "1.0.0") = Some "1.0.0")
    by (vm_compute; reflexivity).
  assert (E5 : new_semantic_version VNull "1.0.0" st_full
               = inr (VStr "1.0.0")) by reflexivity.
  destruct (Ha gradle_path (gradle_text "1" "1.0.0") "1" "1.0.0"
              (VStr "1.0.0") Ef E1 E2 E5) as (_ & _ & _ & Hrun).
  destruct (Hi pbxproj_path (pbxproj_text "1" "1.0.0") "1" "1.0.0"
              (VStr "1.0.0") Eg E3 E4 E5) as (_ & _ & _ & Hrun').
  split.
  - cbv zeta. rewrite (Hrun eq_refl). vm_compute. split; reflexivity.
  - cbv zeta. rewrite (Hrun' eq_refl). vm_compute. split; reflexivity.
Defined.

(** C6 as stated fails on a batch that lists a file twice, as the
    resolution of overlapping patterns gives it: the real run rewrites the
    file on the first pass and computes the second result from the new
    content, the dry run reads the original content both times. *)
Lemma dry_run_differs_on_repeated_file :
  let batch := [gradle_path; gradle_path] in
  let dry_run := updateAndroidVersions batch (VBool true) (VBool true)
                   (dry st_missing) in
  let real_run := updateAndroidVersions batch (VBool true) (VBool true)
                    (real st_missing) in
  let result code name :=
    {| a_filePath := gradle_path; a_versionCode := Int code;
       a_versionName := VStr name |} in
  dry_run.1 = inr [result 2 "2.0.0"; result 2 "2.0.0"] /\
  real_run.1 = inr [result 2 "2.0.0"; result 3 "3.0.0"] /\
  dry_run.1 <> real_run.1 /\
  List.map newValue (changes (opts dry_run.2))
  = [VNum (Int 2); VStr "2.0.0"; VNum (Int 2); VStr "2.0.0"] /\
  List.map newValue (changes (opts real_run.2))
  = [VNum (Int 2); VStr "2.0.0"; VNum (Int 3); VStr "3.0.0"].
Proof. vm_compute. repeat split; try reflexivity. discriminate. Qed.

Definition first_android_result : android_result :=
  {| a_filePath := gradle_path; a_versionCode := Int 2;
     a_versionName := VStr "2.0.0" |}.

Lemma shared_manifest_synced_once_witness :
  let r := updateAndroidVersions [gradle_path] (VBool true) (VBool true)
             st_full in
  not_null (VBool true) = true /\
  r = (inr [first_android_result], r.2) /\
  packageJsonPath (opts st_full) = Some package_path /\
  packageJsonUpdated (opts st_full) = false /\
  manifest_at st_full package_path manifest_doc (VStr "1.0.0") /\
  (package_path ∉ [gradle_path]) /\
  manifest_records (changes (opts r.2))
  = [manifest_record st_full package_path (VStr "1.0.0") (VStr "2.0.0")].
Proof.
  intros r.
  assert (Er : r = (inr [first_android_result], r.2))
    by (vm_compute; reflexivity).
  assert (Hin : package_path ∉ [gradle_path]).
  { intros Hin. apply list_elem_of_singleton in Hin. discriminate Hin. }
  split; [reflexivity|]. split; [exact Er|]. split; [reflexivity|].
  split; [reflexivity|]. split; [exact manifest_at_full|].
  split; [exact Hin|].
  destruct shared_manifest_synced_once as (_ & _ & _ & Hfirst & _).
  destruct (Hfirst [gradle_path] (VBool true) (VBool true) st_full
              [first_android_result] r.2 eq_refl Er package_path eq_refl eq_refl)
    as (_ & _ & Hexact).
  exact (Hexact manifest_doc (VStr "1.0.0") manifest_at_full Hin).
Defined.

Definition st_no_manifest : state :=
  project android_only false (Some package_path).

(** C4 as stated fails when the configured manifest cannot be updated: here
    the manifest file does not exist. The batch processes a platform file
    with the semantic version enabled and sets the guard, yet the change log
    holds no record against the manifest. *)
Lemma no_manifest_no_record :
  let r := updateAndroidVersions [gradle_path] (VBool true) (VBool true)
             st_no_manifest in
  packageJsonPath (opts st_no_manifest) = Some package_path /\
  files st_no_manifest !! package_path = None /\
  r.1 = inr [first_android_result] /\
  packageJsonUpdated (opts r.2) = true /\
  manifest_records (changes (opts r.2)) = [] /\
  console r.2
  = [Log "Processing Android file: android/app/build.gradle";
     Warn (warning_sign ++ "package.json not found: /app/package.json")].
Proof. vm_compute. repeat split; reflexivity. Qed.

Lemma occurrences_replaced_witness :
  let content := pbxproj_text "1" "1.0.0" in
  let found := exec_all re_marketingVersion content in
  no_dollar (JS.to_string (VStr "1.0.1")) = true /\
  exec_all re_marketingVersion content = (found.1, found.2) /\
  List.length found.1 = 2%nat /\
  updateIOSFileContent content (Int 2) (VStr "1.0.1") false true
  = RegexFacts.replaced_text "MARKETING_VERSION = 1.0.1;" found.1 found.2 /\
  updateIOSFileContent content (Int 2) (VStr "1.0.1") true true
  = pbxproj_text "2" "1.0.1".
Proof.
  intros content found.
  assert (E : exec_all re_marketingVersion content = (found.1, found.2))
    by (vm_compute; reflexivity).
  split; [reflexivity|]. split; [exact E|]. split; [reflexivity|].
  destruct (occurrences_replaced content (Int 2) (VStr "1.0.1"))
    as (_ & Hmv & _).
  destruct (Hmv eq_refl found.1 found.2 E) as (_ & _ & Hr).
  split; [exact Hr | reflexivity].
Defined.

Definition two_flavors : string :=
  gradle_text "1" "1.0.0" ++ nl ++ gradle_text "1" "1.0.0".

Definition st_two_flavors : state :=
  project {[ gradle_path := File two_flavors ]} false None.

(** C2 as stated fails on an Android build file with two occurrences of the
    fields: only the first [versionCode] and the first [versionName] are
    rewritten, the second ones keep the old values. *)
Lemma android_second_occurrence_kept :
  let r := updateAndroidVersions [gradle_path] (VBool true) (VBool true)
             st_two_flavors in
  List.length (exec_all re_versionCode two_flavors).1 = 2%nat /\
  List.length (exec_all re_versionName two_flavors).1 = 2%nat /\
  r.1 = inr [first_android_result] /\
  files r.2 !! gradle_path
  = Some (File (gradle_text "2" "2.0.0" ++ nl ++ gradle_text "1" "1.0.0")).
Proof. vm_compute. repeat split; reflexivity. Qed.

End Concrete.

Module MergeExample.
Import Text JS Obj.

Definition user_sample : fields :=
  [("android", VObj [("flavor", VStr "prod")]);
   ("packageJson", VStr "app.json");
   ("toString", VStr "x");
   ("extra", VNum (Int 1))].

Lemma merge_key_by_key_witness :
  distinct_keys (spread_fields DEFAULT_CONFIG) /\
  distinct_keys user_sample /\
  mergeConfigs DEFAULT_CONFIG (VObj user_sample)
  = VObj [("android", VObj [("files", VArr [VStr "android/app/build.gradle"]);
                            ("flavor", VStr "prod")]);
          ("ios", VObj [("files", VArr [VStr "ios/*.xcodeproj/project.pbxproj"])]);
          ("packageJson", VStr "app.json");
          ("extra", VNum (Int 1))] /\
  lookup_field "toString"
    (spread_fields (mergeConfigs DEFAULT_CONFIG (VObj user_sample))) = None.
Proof.
  assert (Hd : distinct_keys (spread_fields DEFAULT_CONFIG))
    by (apply (bool_decide_unpack _); reflexivity).
  assert (Hu : distinct_keys user_sample)
    by (apply (bool_decide_unpack _); reflexivity).
  split; [exact Hd|]. split; [exact Hu|]. split; [reflexivity|].
  exact (proj1 (merge_key_by_key _ _ Hd Hu) "toString").
Defined.

End MergeExample.

Module FilesExample.
Import Text JS Path Run PathText Examples.

(** An [ios] directory with an application project, a project directory
    without a project file, and a plain file named like a project. *)
Definition xcode_tree : gmap path node :=
  {[ ["app"; "ios"] := Dir;
     ["app"; "ios"; "App.xcodeproj"] := Dir;
     pbxproj_path := File (pbxproj_text "1" "1.0.0");
     ["app"; "ios"; "Pods.xcodeproj"] := Dir;
     ["app"; "ios"; "Notes.xcodeproj"] := File EmptyString ]}.

Definition st_tree : state := project xcode_tree false None.

Lemma glob_finds_project_files_witness :
  PathText.includes "*" "ios/*.xcodeproj/anything" = true /\
  resolveFilePattern "ios/*.xcodeproj/anything" ["app"] st_tree
    = (inr [pbxproj_path], st_tree) /\
  exists res,
    resolveFilePattern "ios/*.xcodeproj/anything" ["app"] st_tree
      = (inr res, st_tree) /\
    forall q, q ∈ res <-> project_file_of st_tree ["app"; "ios"] q.
Proof.
  split; [reflexivity|]. split; [vm_compute; reflexivity|].
  exact (proj1 (proj2 (proj2 (glob_finds_project_files
                                "ios/*.xcodeproj/anything" ["app"] st_tree
                                eq_refl) eq_refl)) eq_refl).
Defined.

End FilesExample.

Module BuildNumbersExample.
Import Text JS Path Run Examples Concrete.
#[local] Existing Instance Reference.reference_platform.

Definition auto_requests : requests :=
  {| versionCode := VBool true; versionName := VBool true;
     currentProjectVersion := VBool true; marketingVersion := VBool true |}.

Lemma build_number_runs_spare_manifest_witness :
  let st' := (executePlatformUpdates ["build-numbers-only"] [gradle_path]
                [pbxproj_path] auto_requests st_full).2 in
  build_numbers_only ["build-numbers-only"] /\
  build_step (fun q => q ∈ [gradle_path] \/ q ∈ [pbxproj_path]) st_full st' /\
  files st' !! gradle_path = Some (File (gradle_text "2" "1.0.0")) /\
  files st' !! pbxproj_path = Some (File (pbxproj_text "2" "1.0.0")) /\
  files st' !! package_path = files st_full !! package_path.
Proof.
  intros st'.
  assert (Hb : build_numbers_only ["build-numbers-only"])
    by (repeat split).
  split; [exact Hb|].
  split; [exact (proj1 (build_number_runs_spare_manifest _ _ _ _ _ Hb))|].
  vm_compute. repeat split; reflexivity.
Defined.

End BuildNumbersExample.

Module ReadBackExample.
Import Text JS Path Run Examples Concrete.
#[local] Existing Instance Reference.reference_platform.

Definition code_only_result : android_result :=
  {| a_filePath := gradle_path; a_versionCode := Int 2;
     a_versionName := VStr "1.0.0" |}.

Lemma android_build_number_read_back_witness :
  let st := project android_only false None in
  let run := updateAndroidVersions [gradle_path] (VBool true) VNull st in
  dryRun (opts st) = false /\
  run = (inr [code_only_result], run.2) /\
  (exists r',
     parseAndroidVersions gradle_path run.2 = (inr r', run.2) /\
     pa_versionCode r' = VNum (Int 2)) /\
  exists r0 k,
    parseAndroidVersions gradle_path st = (inr r0, st) /\
    pa_versionCode r0 = VNum k /\
    a_versionCode code_only_result = num_succ k /\
    forall z, k = Int z -> z < 2 ^ 53 ->
      exists r1,
        parseAndroidVersions gradle_path run.2 = (inr r1, run.2) /\
        pa_versionCode r1 = VNum (Int (z + 1)).
Proof.
  intros st run.
  assert (Er : run = (inr [code_only_result], run.2))
    by (vm_compute; reflexivity).
  assert (Hd : dryRun (opts st) = false) by reflexivity.
  split; [exact Hd|]. split; [exact Er|].
  destruct (android_build_number_read_back gradle_path (VBool true) st
              run.2 code_only_result Hd Er) as [Hback Hauto].
  split.
  - apply (Hback 2); [reflexivity|]. split; [lia|reflexivity].
  - exact (Hauto eq_refl).
Defined.

Definition build_only_result : ios_result :=
  {| i_filePath := pbxproj_path; i_currentProjectVersion := Int 2;
     i_marketingVersion := VStr "1.0.0" |}.

Lemma ios_build_number_read_back_witness :
  let run := updateIOSVersions [pbxproj_path] (VBool true) VNull st_full in
  dryRun (opts st_full) = false /\
  not_null (VBool true) = true /\
  run = (inr [build_only_result], run.2) /\
  (exists r',
     parseIOSVersions pbxproj_path run.2 = (inr r', run.2) /\
     pi_currentProjectVersion r' = VNum (Int 2)) /\
  exists r0 k,
    parseIOSVersions pbxproj_path st_full = (inr r0, st_full) /\
    pi_currentProjectVersion r0 = VNum k /\
    i_currentProjectVersion build_only_result = num_succ k /\
    forall z, k = Int z -> z < 2 ^ 53 ->
      exists r1,
        parseIOSVersions pbxproj_path run.2 = (inr r1, run.2) /\
        pi_currentProjectVersion r1 = VNum (Int (z + 1)).
Proof.
  intros run.
  assert (Er : run = (inr [build_only_result], run.2))
    by (vm_compute; reflexivity).
  assert (Hd : dryRun (opts st_full) = false) by reflexivity.
  assert (Hn : not_null (VBool true) = true) by reflexivity.
  split; [exact Hd|]. split; [exact Hn|]. split; [exact Er|].
  destruct (ios_build_number_read_back pbxproj_path (VBool true) st_full
              run.2 build_only_result Hd Hn Er) as [Hback Hauto].
  split.
  - apply (Hback 2); [reflexivity|]. split; [lia|reflexivity].
  - exact (Hauto eq_refl).
Defined.

End ReadBackExample.

Module AbortExample.
Import Text JS Version Regex Path Run Examples Concrete.
#[local] Existing Instance Reference.reference_platform.

(** The matches of the two Android patterns in [gradle_text "1" name]. *)
Definition code_match (name : string) : match_result :=
  {| before := EmptyString; matched := "versionCode 1"; captures := ["1"];
     after := Json.nl ++ "versionName " ++ quoted name |}.

Definition name_match (name : string) : match_result :=
  {| before := "versionCode 1" ++ Json.nl;
     matched := "versionName " ++ quoted name; captures := [name];
     after := EmptyString |}.

(** A build file whose version name has two components only. *)
Definition st_short_name : state :=
  project {[ gradle_path := File (gradle_text "1" "1.0") ]} false None.

Lemma semantic_error_stops_batch_witness :
  files st_short_name !! gradle_path = Some (File (gradle_text "1" "1.0")) /\
  updateAndroidVersions [gradle_path; pbxproj_path] (VBool true) (VBool true)
    st_short_name
  = (inl "Invalid version format: 1.0",
     announced "Android" gradle_path st_short_name).
Proof.
  assert (Hf : files st_short_name !! gradle_path
               = Some (File (gradle_text "1" "1.0")))
    by (vm_compute; reflexivity).
  assert (E1 : exec re_versionCode_cap (gradle_text "1" "1.0")
               = Some (code_match "1.0")) by (vm_compute; reflexivity).
  assert (E2 : exec re_versionName_cap (gradle_text "1" "1.0")
               = Some (name_match "1.0")) by (vm_compute; reflexivity).
  assert (Hc : calculateNewSemanticVersion (VBool true) "1.0"
                 (increment_or_patch (opts st_short_name))
               = inl "Invalid version format: 1.0")
    by (vm_compute; reflexivity).
  split; [exact Hf|].
  destruct (semantic_error_stops_batch gradle_path st_short_name
              (gradle_text "1" "1.0") "Invalid version format: 1.0" Hf)
    as [Handroid _].
  destruct (Handroid (code_match "1.0") (name_match "1.0") "1.0"
              (VBool true) (VBool true) E1 E2 eq_refl eq_refl Hc)
    as [_ Hbatch].
  exact (Hbatch [pbxproj_path]).
Defined.

(** A project whose manifest is cut off after the opening brace. *)
Definition broken_manifest : gmap path node :=
  {[ gradle_path := File (gradle_text "1" "1.0.0");
     package_path := File "{" ]}.

Definition st_broken : state :=
  project broken_manifest false (Some package_path).

Lemma manifest_error_after_write_witness :
  JSON_parse "{" = inl "Unexpected token in JSON" /\
  files st_broken !! package_path = Some (File "{") /\
  exists st',
    updateAndroidVersions [gradle_path] (VBool true) (VBool true) st_broken
      = (inl "Unexpected token in JSON", st') /\
    files st' !! gradle_path = Some (File (gradle_text "2" "2.0.0")) /\
    files st' !! package_path = Some (File "{") /\
    packageJsonUpdated (opts st') = false.
Proof.
  assert (Hparse : JSON_parse "{" = inl "Unexpected token in JSON")
    by (vm_compute; reflexivity).
  assert (Hp : files st_broken !! package_path = Some (File "{"))
    by (vm_compute; reflexivity).
  assert (Hf : files st_broken !! gradle_path
               = Some (File (gradle_text "1" "1.0.0")))
    by (vm_compute; reflexivity).
  assert (E1 : exec re_versionCode_cap (gradle_text "1" "1.0.0")
               = Some (code_match "1.0.0")) by (vm_compute; reflexivity).
  assert (E2 : exec re_versionName_cap (gradle_text "1" "1.0.0")
               = Some (name_match "1.0.0")) by (vm_compute; reflexivity).
  assert (Hc : calculateNewSemanticVersion (VBool true) "1.0.0"
                 (increment_or_patch (opts st_broken))
               = inr (VStr "2.0.0")) by (vm_compute; reflexivity).
  assert (Hne : package_path <> gradle_path) by discriminate.
  split; [exact Hparse|]. split; [exact Hp|].
  destruct (manifest_error_after_write gradle_path package_path st_broken
              (gradle_text "1" "1.0.0") "{" "1" "1.0.0"
              (code_match "1.0.0") (name_match "1.0.0")
              (VBool true) (VBool true) (VStr "2.0.0")
              "Unexpected token in JSON"
              eq_refl eq_refl eq_refl Hne Hf E1 eq_refl E2 eq_refl eq_refl
              Hc Hp Hparse)
    as (st' & _ & Hf' & Hp' & Hg & _ & Hbatch).
  exists st'. split; [exact (Hbatch [])|]. split; [|split; [exact Hp' | exact Hg]].
  rewrite Hf'. vm_compute. reflexivity.
Defined.

End AbortExample.

Module DetectExample.
Import Text JS Regex Obj Json Path Run Examples.
#[local] Existing Instance Reference.reference_platform.






End DetectExample.

Module SingleUpdateExample.
Import Text JS Path Run Examples Concrete.
#[local] Existing Instance Reference.reference_platform.

Definition increment_all : requests :=
  {| versionCode := VBool true; versionName := VBool true;
     currentProjectVersion := VBool true; marketingVersion := VBool true |}.

Lemma single_manifest_update_witness :
  let run := executePlatformUpdates ["android"; "ios"] [gradle_path]
               [pbxproj_path] increment_all st_full in
  packageJsonPath (opts st_full) = Some package_path /\
  packageJsonUpdated (opts st_full) = false /\
  not_null (versionName increment_all) = true /\
  not_null (marketingVersion increment_all) = true /\
  run = (inr tt, run.2) /\
  manifest_at st_full package_path manifest_doc (VStr "1.0.0") /\
  (package_path ∉ [gradle_path]) /\
  (package_path ∉ [pbxproj_path]) /\
  packageJsonUpdated (opts run.2) = true /\
  List.length (changes (opts run.2)) = 5%nat /\
  manifest_records (changes (opts run.2))
  = [manifest_record st_full package_path (VStr "1.0.0") (VStr "2.0.0")].
Proof.
  intros run.
  assert (Hp : packageJsonPath (opts st_full) = Some package_path)
    by reflexivity.
  assert (Hg : packageJsonUpdated (opts st_full) = false) by reflexivity.
  assert (Hvn : not_null (versionName increment_all) = true) by reflexivity.
  assert (Hmv : not_null (marketingVersion increment_all) = true)
    by reflexivity.
  assert (Er : run = (inr tt, run.2)) by (vm_compute; reflexivity).
  assert (Hin1 : package_path ∉ [gradle_path]).
  { intros Hin. apply list_elem_of_singleton in Hin. discriminate Hin. }
  assert (Hin2 : package_path ∉ [pbxproj_path]).
  { intros Hin. apply list_elem_of_singleton in Hin. discriminate Hin. }
  assert (Ea : updateAndroidVersions [gradle_path] (VBool true) (VBool true)
                 st_full
               = (inr [first_android_result],
                  (updateAndroidVersions [gradle_path] (VBool true)
                     (VBool true) st_full).2))
    by (vm_compute; reflexivity).
  assert (Hlen : List.length (changes (opts run.2)) = 5%nat)
    by (vm_compute; reflexivity).
  destruct single_manifest_update as [_ Hrun].
  destruct (Hrun [gradle_path] [pbxproj_path] increment_all st_full run.2
              package_path Hp Hg Hvn Hmv Er)
    as (resA & stA & resI & Ea' & _ & Hfirst).
  cbn [versionCode versionName increment_all] in Ea'.
  rewrite Ea in Ea'. injection Ea' as <- _.
  cbn [first_version] in Hfirst. destruct Hfirst as (Hset & _ & Hexact).
  repeat (split; [assumption|]).
  split; [exact manifest_at_full|].
  repeat (split; [assumption|]).
  exact (Hexact manifest_doc (VStr "1.0.0") manifest_at_full Hin1 Hin2).
Defined.

End SingleUpdateExample.

Module ConfigExample.
Import Text JS Regex Obj Json Path Run Examples.
#[local] Existing Instance Reference.reference_platform.

(** [{"packageJson":"app.json","toString":"x"}] *)
Definition user_config : string :=
  "{" ++ quoted "packageJson" ++ ":" ++ quoted "app.json" ++ ","
      ++ quoted "toString" ++ ":" ++ quoted "x" ++ "}".

Definition st_config : state :=
  project {[ ["app"] := Dir;
             ["app"; "vbump.config.json"] := File user_config ]} false None.

(** C9 at the failing input: a configuration file that parses to the plain
    object [{packageJson: "app.json", toString: "x"}]. Both keys hold
    scalars. [packageJson] replaces the default, but [toString] is dropped:
    the loop that adds the keys the defaults do not have tests
    [key in defaultConfig], which also finds the names every object
    inherits. No warning is printed. *)
Lemma inherited_key_is_dropped :
  JSON_parse user_config
  = inr (VObj [("packageJson", VStr "app.json"); ("toString", VStr "x")]) /\
  loadProjectConfiguration ["app"] None st_config
  = (inr (VObj [("android",
                 VObj [("files", VArr [VStr "android/app/build.gradle"])]);
                ("ios",
                 VObj [("files",
                        VArr [VStr "ios/*.xcodeproj/project.pbxproj"])]);
                ("packageJson", VStr "app.json")]),
     st_config).
Proof. vm_compute. split; reflexivity. Qed.

End ConfigExample.
